(** * Pytorch-template: distributed helpers, checkpoints, data loading

    A shallow embedding of the orchestration layer of the training template:
    - [src/utils/misc.py]: [ConfigMisc], [DistMisc], [OptimizerMisc],
      [TrainerMisc], [TesterMisc.load_model];
    - [src/datasets/modules/data_module_base.py]: [DataModuleBase]
      ([get_dataset], [collate_fn], [get_worker_init_fn]),
      [InfiniteDataLoaderX], [_RepeatSampler].

    Python objects are modelled by value where the code only reads them and
    through an explicit store where the code depends on identity or mutates in
    place.  Exceptions are an explicit [result]; the primitives of the numeric
    framework (tensor arithmetic, collectives, pickling) are parameters. *)

From stdpp Require Import gmap strings list fin_maps fin_sets pretty sorting.
From Stdlib Require Import ZArith QArith Ascii.
From Stdlib.Strings Require Import Byte.

#[local] Open Scope Z_scope.
#[local] Set Default Proof Using "Type".

(** ** Python exceptions and results *)

Module Py.

Inductive exn : Type :=
| AssertionError
| KeyError (key : string)
| AttributeError (attr : string)
| ValueError
| TypeError
| ZeroDivisionError
| RuntimeError
| NotImplementedError
| IndexError
| StopIteration.

#[global] Instance exn_eq_dec : EqDecision exn.
Proof. solve_decision. Defined.

Inductive result (A : Type) : Type :=
| Ok (a : A)
| Raise (e : exn).
#[global] Arguments Ok {A} a.
#[global] Arguments Raise {A} e.

Definition bind {A B} (r : result A) (k : A → result B) : result B :=
  match r with
  | Ok a => k a
  | Raise e => Raise e
  end.

#[global] Instance result_ret : MRet result := @Ok.
#[global] Instance result_bind : MBind result := λ A B k r, bind r k.
#[global] Instance result_fmap : FMap result := λ A B f r,
  match r with
  | Ok a => Ok (f a)
  | Raise e => Raise e
  end.

Definition is_ok {A} (r : result A) : bool :=
  match r with Ok _ => true | Raise _ => false end.

(** [d[k]] on a dict with string keys. *)
Definition getitem {V} (d : gmap string V) (k : string) : result V :=
  match d !! k with
  | Some v => Ok v
  | None => Raise (KeyError k)
  end.

(** Following a reference into a store; a reference held by a program
    always points to an object. *)
Definition getitem_ref {V} (h : gmap nat V) (l : nat) : result V :=
  match h !! l with
  | Some v => Ok v
  | None => Raise RuntimeError
  end.

(** [xs[k]] for an insertion-ordered dict kept as an association list. *)
Fixpoint assoc {V} (d : list (string * V)) (k : string) : option V :=
  match d with
  | [] => None
  | (k', v) :: d' => if decide (k' = k) then Some v else assoc d' k
  end.

Definition getitem_assoc {V} (d : list (string * V)) (k : string) : result V :=
  match assoc d k with
  | Some v => Ok v
  | None => Raise (KeyError k)
  end.

(** [[f(x) for x in xs]] where [f] may raise: the first exception wins. *)
Fixpoint mapM {A B} (f : A → result B) (xs : list A) : result (list B) :=
  match xs with
  | [] => Ok []
  | x :: xs' =>
      y ← f x; ys ← mapM f xs'; Ok (y :: ys)
  end.

(** [int(s)] on the strings a launcher writes into the environment: an
    optional sign and decimal digits.  (Python also accepts blanks around
    the number and underscores between digits; the functions that parse
    take [int] as a parameter, and this is the instance examples use.) *)
Definition digit_of (c : ascii) : option Z :=
  let n := Z.of_N (N_of_ascii c) in
  if (48 <=? n) && (n <=? 57) then Some (n - 48) else None.

Fixpoint digits (acc : Z) (s : string) : option Z :=
  match s with
  | EmptyString => Some acc
  | String c s' => d ← digit_of c; digits (10 * acc + d) s'
  end.

Definition int_of_decimal (s : string) : result Z :=
  let unsigned (sign : Z) (s : string) : result Z :=
    match s with
    | EmptyString => Raise ValueError
    | _ => match digits 0 s with
           | Some n => Ok (sign * n)
           | None => Raise ValueError
           end
    end in
  match s with
  | String "-" s' => unsigned (-1) s'
  | String "+" s' => unsigned 1 s'
  | _ => unsigned 1 s
  end.

(** Reading an attribute that may not have been set. *)
Definition getattr {V} (o : option V) (name : string) : result V :=
  match o with
  | Some v => Ok v
  | None => Raise (AttributeError name)
  end.

(** Statements that run on a state [S]: an exception keeps the effects
    of the statements before it. *)
Definition stateful (S A : Type) : Type := S → result A * S.

#[global] Instance stateful_ret {S} : MRet (stateful S) := λ A a s, (Ok a, s).
#[global] Instance stateful_bind {S} : MBind (stateful S) := λ A B k m s,
  match m s with
  | (Ok a, s') => k a s'
  | (Raise e, s') => (Raise e, s')
  end.

Definition throw {S A} (e : exn) : stateful S A := λ s, (Raise e, s).
Definition pure_result {S A} (r : result A) : stateful S A := λ s, (r, s).
Definition get_state {S} : stateful S S := λ s, (Ok s, s).
Definition modify_state {S} (f : S → S) : stateful S unit := λ s, (Ok (), f s).

End Py.

(** ** ConfigMisc: nested dicts and nested Namespaces *)

Module ConfigMisc.
Import Py.

Section Values.
(** [A] is the type of leaves: numbers, strings, lists, [None].  A config
    dict has string keys (they become attribute names), and neither
    conversion depends on the order of the entries, so both [dict] and
    [vars(namespace)] are finite maps. *)
Context {A : Type}.

#[warnings="-register-all"]
Inductive cfg_value : Type :=
| Leaf (a : A)
| Dict (d : gmap string cfg_value)
| Namespace (ns : gmap string cfg_value).

(** The call of [Namespace] on the unpacked dictionary passes the
    entries as keyword arguments to [Namespace.__init__], whose first
    parameter is [self]: a key ['self'] collides with it and raises
    TypeError (so would a key that is not a string; the dicts here
    have string keys).  The namespace then starts with a copy of the
    entries, and the loop overwrites each attribute with its converted
    value. *)
Fixpoint nested_dict_to_nested_namespace (dictionary : cfg_value)
  : result cfg_value :=
  match dictionary with
  | Dict d =>
      if bool_decide (is_Some (d !! "self")) then Raise TypeError
      else
        Namespace <$>
          map_fold
            (λ key value (acc : result (gmap string cfg_value)),
               namespace ← acc;
               converted ← nested_dict_to_nested_namespace value;
               Ok (<[key := converted]> namespace))
            (Ok d) d
  | _ => Ok dictionary
  end.

(** [vars(namespace)] raises [TypeError] on an object without
    [__dict__]; the result is the Python dict built by the loop. *)
Fixpoint nested_namespace_to_nested_dict (namespace : cfg_value)
  : result (gmap string cfg_value) :=
  match namespace with
  | Namespace ns =>
      map_fold
        (λ name value (acc : result (gmap string cfg_value)),
           dictionary ← acc;
           match value with
           | Namespace _ =>
               sub ← nested_namespace_to_nested_dict value;
               Ok (<[name := Dict sub]> dictionary)
           | _ => Ok (<[name := value]> dictionary)
           end)
        (Ok ∅) ns
  | _ => Raise TypeError
  end.


Fixpoint value_size (v : cfg_value) : nat :=
  match v with
  | Leaf _ => 1
  | Dict d => S (map_fold (λ _ v acc, value_size v + acc)%nat 0%nat d)
  | Namespace ns => S (map_fold (λ _ v acc, value_size v + acc)%nat 0%nat ns)
  end.


(** [v] with every Namespace that is reached through Namespaces turned
    into a dict; dicts and other values are left as they are. *)
Fixpoint namespace_as_dict (v : cfg_value) : cfg_value :=
  match v with
  | Namespace ns => Dict (namespace_as_dict <$> ns)
  | _ => v
  end.



(** [update_nested_namespace(cfg_base, cfg_new)] mutates [cfg_base] in
    place; the result here is [cfg_base] after the call.  On an object
    that is no Namespace, [vars] raises [TypeError] and [setattr]
    raises [AttributeError].  The attributes of [cfg_new] are taken
    in the order of the map, where the code takes them in the order
    they were set: what is returned is the same, and when several
    attributes would raise, the exception may be that of another
    one. *)
Fixpoint update_nested_namespace (cfg_base cfg_new : cfg_value)
  : result cfg_value :=
  match cfg_new with
  | Namespace new =>
      map_fold
        (λ name value (acc : result cfg_value),
           cfg_base ← acc;
           match value with
           | Namespace _ =>
               match cfg_base with
               | Namespace base =>
                   let sub := default (Namespace ∅) (base !! name) in
                   sub ← update_nested_namespace sub value;
                   Ok (Namespace (<[name := sub]> base))
               | _ => Raise TypeError
               end
           | _ =>
               match cfg_base with
               | Namespace base => Ok (Namespace (<[name := value]> base))
               | _ => Raise (AttributeError name)
               end
           end)
        (Ok cfg_base) new
  | _ => Raise TypeError
  end.

(** The names that every namespace has as attributes because the
    class [Namespace] or [object] defines them: [__dict__],
    [__init__], [_get_kwargs] and so on. *)
Context (class_attr : string → bool).

(** [hasattr(ns, n)]: [n] is set on the namespace, or comes with the
    class. *)
Definition hasattr (ns : gmap string cfg_value) (n : string) : bool :=
  class_attr n || bool_decide (is_Some (ns !! n)).

(** [setattr_safely(ns, n, v)] *)
Definition setattr_safely (ns : gmap string cfg_value) (n : string)
    (v : cfg_value) : result (gmap string cfg_value) :=
  if hasattr ns n then Raise AssertionError else Ok (<[n := v]> ns).

Fixpoint nested_namespace_to_plain_namespace (namespace : cfg_value)
  : result (gmap string cfg_value) :=
  match namespace with
  | Namespace ns =>
      map_fold
        (λ name value (acc : result (gmap string cfg_value)),
           plain_namespace ← acc;
           match value with
           | Namespace _ =>
               plain_subnamespace ← nested_namespace_to_plain_namespace value;
               map_fold
                 (λ subname subvalue (acc : result (gmap string cfg_value)),
                    plain_namespace ← acc;
                    setattr_safely plain_namespace subname subvalue)
                 (Ok plain_namespace) plain_subnamespace
           | _ => setattr_safely plain_namespace name value
           end)
        (Ok ∅) ns
  | _ => Raise TypeError
  end.
(** What one attribute of [cfg_new] does to [cfg_base]: [after] is the
    attribute [name] once [update_nested_namespace] has returned. *)
Definition updated_entry (base : gmap string cfg_value) (name : string)
    (entry : option cfg_value) (after : option cfg_value) : Prop :=
  match entry with
  | None => after = base !! name
  | Some (Namespace sub) =>
      ∃ r, update_nested_namespace (default (Namespace ∅) (base !! name))
             (Namespace sub) = Ok r
           ∧ after = Some r
  | Some value => after = Some value
  end.

(** The attribute [name] of [r] already has what [value] asks for. *)
Definition settled (r : cfg_value) (name : string) (value : cfg_value)
  : Prop :=
  ∃ updated, r = Namespace updated ∧
    match value with
    | Namespace _ =>
        ∃ sub, updated !! name = Some sub
               ∧ update_nested_namespace sub value = Ok sub
    | _ => updated !! name = Some value
    end.

(** [isinstance(value, Namespace)] *)
Definition is_namespace (v : cfg_value) : bool :=
  match v with Namespace _ => true | _ => false end.

(** What one attribute contributes to the plain namespace: the two
    branches of the loop of [nested_namespace_to_plain_namespace]. *)
Definition piece (name : string) (value : cfg_value)
  : result (gmap string cfg_value) :=
  match value with
  | Namespace _ => nested_namespace_to_plain_namespace value
  | _ => Ok {[name := value]}
  end.

(** The state of the loop of [nested_namespace_to_plain_namespace]
    after the attributes [ns]: what holds of the plain namespace so
    far, and what has happened when an exception is on its way. *)
(** No name of [m] comes with the class. *)
Definition own_names (m : gmap string cfg_value) : Prop :=
  map_Forall (λ k _, class_attr k = false) m.

#[global] Instance own_names_dec m : Decision (own_names m) :=
  (_ : Decision (map_Forall (λ k _, class_attr k = false) m)).

Definition plain_fold_ok (ns plain : gmap string cfg_value) : Prop :=
  (∀ name value, ns !! name = Some value →
     ∃ pc, piece name value = Ok pc ∧ pc ⊆ plain) ∧
  (∀ n1 v1 p1 n2 v2 p2, n1 ≠ n2 →
     ns !! n1 = Some v1 → ns !! n2 = Some v2 →
     piece n1 v1 = Ok p1 → piece n2 v2 = Ok p2 → p1 ##ₘ p2) ∧
  (∀ k x, plain !! k = Some x →
     ∃ name value pc, ns !! name = Some value ∧ piece name value = Ok pc
                      ∧ pc !! k = Some x) ∧
  own_names plain.

Definition plain_fold_raise (ns : gmap string cfg_value) (e : exn) : Prop :=
  (∃ name value, ns !! name = Some value ∧ piece name value = Raise e) ∨
  (e = AssertionError ∧
   ∃ n1 v1 p1 n2 v2 p2, n1 ≠ n2 ∧ ns !! n1 = Some v1 ∧ ns !! n2 = Some v2
     ∧ piece n1 v1 = Ok p1 ∧ piece n2 v2 = Ok p2 ∧ ¬ p1 ##ₘ p2) ∨
  (e = AssertionError ∧
   ∃ name value pc, ns !! name = Some value ∧ piece name value = Ok pc
     ∧ ¬ own_names pc).
End Values.
#[global] Arguments cfg_value A : clear implicits.

End ConfigMisc.

(** ** The tensors of the numeric framework *)

Module Torch.
Import Py.

(** The arithmetic on tensor elements that the code asks of the
    framework: addition (the [SUM] reduction), true division by an integer
    and the cast to [float]. *)
Class Elem (T : Type) : Type := {
  el_add : T → T → T;
  el_div : T → Z → T;
  el_float : T → T;
}.

(** [torch.can_cast(torch.float32, dtype)] for the dtype of the tensors
    of [T]: whether they can hold a float.  The floating-point and
    complex dtypes can, and only their tensors can be divided in place
    by a number: on a tensor of integers or booleans [t /= n] raises
    RuntimeError, because the quotient is a float. *)
Class Dtype (T : Type) : Type := can_cast_float : bool.

Section Tensor.
Context `{Elem T}.

(** A tensor is a scalar or the stack of its rows. *)
#[warnings="-register-all"]
Inductive tensor : Type :=
| TScalar (x : T)
| TStack (rows : list tensor).

Fixpoint shape (t : tensor) : list nat :=
  match t with
  | TScalar _ => []
  | TStack rows =>
      length rows :: match rows with [] => [] | r :: _ => shape r end
  end.

Definition same_shape (t : tensor) (ts : list tensor) : bool :=
  forallb (λ t', bool_decide (shape t' = shape t)) ts.

(** [torch.stack(tensors, dim=0)]: refuses an empty list and tensors of
    different shapes. *)
Definition stack (tensors : list tensor) : result tensor :=
  match tensors with
  | [] => Raise RuntimeError
  | t :: ts => if same_shape t ts then Ok (TStack tensors) else Raise RuntimeError
  end.

(** [iter(tensor)]: the rows; a 0-d tensor cannot be iterated. *)
Definition iter_rows (t : tensor) : result (list tensor) :=
  match t with
  | TScalar _ => Raise TypeError
  | TStack rows => Ok rows
  end.

Fixpoint tmap (f : T → T) (t : tensor) : tensor :=
  match t with
  | TScalar x => TScalar (f x)
  | TStack rows => TStack (map (tmap f) rows)
  end.

Fixpoint tzip (f : T → T → T) (a b : tensor) : tensor :=
  match a, b with
  | TScalar x, TScalar y => TScalar (f x y)
  | TStack ra, TStack rb => TStack (zip_with (tzip f) ra rb)
  | _, _ => a
  end.

Definition tadd : tensor → tensor → tensor := tzip el_add.
Definition tdiv (t : tensor) (n : Z) : tensor := tmap (λ x, el_div x n) t.
Definition tfloat : tensor → tensor := tmap el_float.

(** The [SUM] reduction over the tensors of all ranks, in rank order.
    The ranks must bring tensors of one shape. *)
Definition reduce_op_sum (contributions : list tensor) : result tensor :=
  match contributions with
  | [] => Raise RuntimeError
  | t :: ts => if same_shape t ts then Ok (foldl tadd t ts) else Raise RuntimeError
  end.

(** [t /= n], the in-place true division. *)
Definition div_ `{Dtype T} (t : tensor) (n : Z) : result tensor :=
  if can_cast_float then Ok (tdiv t n) else Raise RuntimeError.
End Tensor.
#[global] Arguments tensor T : clear implicits.

(** Rational arithmetic in lowest terms, an instance to compute examples
    with. *)
#[global] Instance Q_elem : Elem Q :=
  {| el_add := λ x y, Qred (Qplus x y);
     el_div := λ x n, Qred (Qdiv x (inject_Z n));
     el_float := Qred |}.
#[global] Instance Q_dtype : Dtype Q := true.

End Torch.

(** ** DistMisc: rank and world size *)

Module DistMisc.
Import Py.

(** The state of [torch.distributed] seen by one process: whether the
    package is built in, and the default process group once
    [init_process_group] has run. *)
Record process_group : Type := ProcessGroup {
  pg_rank : nat;
  pg_world_size : nat;
}.

Record dist : Type := Dist {
  dist_is_available : bool;
  dist_group : option process_group;
}.

Definition dist_is_initialized (d : dist) : bool :=
  match dist_group d with Some _ => true | None => false end.

(** [dist.get_world_size()] and [dist.get_rank()]; the framework answers
    [-1] for a process outside the group, a case the guard below excludes. *)
Definition dist_get_world_size (d : dist) : Z :=
  match dist_group d with Some g => Z.of_nat (pg_world_size g) | None => -1 end.

Definition dist_get_rank (d : dist) : Z :=
  match dist_group d with Some g => Z.of_nat (pg_rank g) | None => -1 end.

(** [dist.is_available() and dist.is_initialized()], left to right. *)
Definition is_dist_avail_and_initialized (d : dist) : bool :=
  if dist_is_available d then dist_is_initialized d else false.

Definition get_world_size (d : dist) : Z :=
  if is_dist_avail_and_initialized d then dist_get_world_size d else 1.

Definition get_rank (d : dist) : Z :=
  if is_dist_avail_and_initialized d then dist_get_rank d else 0.

Definition is_main_process (d : dist) : bool :=
  bool_decide (get_rank d = 0).

(** *** Collectives

    A collective is entered by every rank of the group.  The functions
    below are one rank's run; [peers] lists, in rank order, what the ranks
    of the group bring to the collective (the entry at this rank's own
    position is replaced by what this rank brings).  A group that does not
    meet, or meets with mismatched tensors, fails. *)
Definition collective {X} (d : dist) (peers : list X) (own : X)
  : result (list X) :=
  match dist_group d with
  | Some g =>
      if bool_decide (length peers = pg_world_size g ∧ (pg_rank g < pg_world_size g)%nat)
      then Ok (<[pg_rank g := own]> peers)
      else Raise RuntimeError
  | None => Raise RuntimeError
  end.

(** The order of [str]: lexicographic on the characters. *)
Definition str_le (a b : string) : Prop := String.leb a b = true.

#[global] Instance str_le_dec a b : Decision (str_le a b).
Proof. unfold str_le. apply _. Defined.

(** Python objects live in a store and are passed by reference. *)
Definition alloc {X} (x : X) (h : gmap nat X) : nat * gmap nat X :=
  let l := fresh (dom h) in (l, <[l := x]> h).

Section Reduce.
Import Torch.
Context `{Elem T}.

(** [reduce_sum(tensor)]: [tensor.clone()] is a new object, which
    [dist.all_reduce] then overwrites in place. *)
Definition reduce_sum (d : dist) (peers : list (tensor T))
    (tensor : nat) : stateful (gmap nat (Torch.tensor T)) nat :=
  let world_size := get_world_size d in
  if bool_decide (world_size < 2) then mret tensor
  else
    h ← get_state;
    t ← pure_result (getitem_ref h tensor);
    let '(tensor, h) := alloc t h in
    modify_state (λ _, h);;
    total ← pure_result (collective d peers t ≫= reduce_op_sum);
    modify_state (<[tensor := total]>);;
    mret tensor.

(** [reduce_mean(tensor)]: [total.float() / world_size] is a new
    tensor. *)
Definition reduce_mean (d : dist) (peers : list (tensor T))
    (tensor : nat) : stateful (gmap nat (Torch.tensor T)) nat :=
  let world_size := get_world_size d in
  total ← reduce_sum d peers tensor;
  h ← get_state;
  t ← pure_result (getitem_ref h total);
  let '(mean, h) := alloc (tdiv (tfloat t) world_size) h in
  modify_state (λ _, h);;
  mret mean.

(** [sorted(input_dict.keys())]: strings compare by code point. *)
Definition sorted_keys (input_dict : list (string * tensor T)) : list string :=
  merge_sort str_le input_dict.*1.

(** The entry of a dict at a key that the dict has. *)
Definition item (p : list (string * tensor T)) (k : string) : tensor T :=
  default (TStack []) (assoc p k).

(** The local part of [reduce_dict] before the collective: the values
    in key order, stacked. *)
Definition stacked_values (input_dict : list (string * tensor T))
  : result (tensor T) :=
  values ← mapM (getitem_assoc input_dict) (sorted_keys input_dict);
  stack values.

(** [reduce_dict(input_dict, average)] on a store of dicts.  The
    average divides the reduced tensor in place, which integer tensors
    refuse.  The dict comprehension builds a new dict from the key
    names and the rows of the reduced tensor. *)
Definition reduce_dict `{Dtype T} (d : dist)
    (peers : list (list (string * tensor T)))
    (average : bool) (input_dict : nat)
  : stateful (gmap nat (list (string * tensor T))) nat :=
  let world_size := get_world_size d in
  if bool_decide (world_size < 2) then mret input_dict
  else
    h ← get_state;
    dict ← pure_result (getitem_ref h input_dict);
    let names := sorted_keys dict in
    values ← pure_result (stacked_values dict);
    values ← pure_result
      (world ← collective d peers dict;
       contributions ← mapM stacked_values world;
       reduce_op_sum contributions);
    values ← pure_result
      (if average then div_ values world_size else Ok values);
    rows ← pure_result (iter_rows values);
    let '(reduced_dict, h) := alloc (zip names rows) h in
    modify_state (λ _, h);;
    mret reduced_dict.
End Reduce.

Section Gather.
(** [pickle.dumps] and [pickle.loads], and the bytes that
    [torch.empty] finds in memory (for a rank and an offset). *)
Context {Data : Type}.
Context (dumps : Data → list byte) (loads : list byte → result Data).
Context (uninitialized : nat → nat → byte).

(** The byte tensor a rank sends: its pickle, padded to [max_size]
    when shorter. *)
Definition padded (rank : nat) (data : Data) (max_size : nat) : list byte :=
  let tensor := dumps data in
  let local_size := length tensor in
  if bool_decide (local_size ≠ max_size)
  then tensor ++ (uninitialized rank <$> seq 0 (max_size - local_size))
  else tensor.

Definition all_gather (d : dist) (peers : list Data) (data : Data)
  : result (list Data) :=
  let world_size := get_world_size d in
  if bool_decide (world_size = 1) then Ok [data]
  else
    world ← collective d peers data;
    let size_list := (λ p, length (dumps p)) <$> world in
    let max_size := max_list size_list in
    let tensor_list := imap (λ rank p, padded rank p max_size) world in
    mapM (λ '(size, tensor), loads (take size tensor))
         (zip size_list tensor_list).
End Gather.

(** *** init_distributed_mode *)

(** The attributes of [cfg] that [init_distributed_mode] reads or sets.
    The ones it sets may be absent before the call. *)
Record cfg : Type := Cfg {
  env_rank : option Z;
  env_world_size : option Z;
  env_gpu : option Z;
  env_distributed : option bool;
  env_dist_backend : option string;
  env_dist_url : string;
  data_batch_size_per_rank : Z;
  data_batch_size_total : option Z;
}.

Definition set_env_rank (v : Z) (c : cfg) : cfg :=
  Cfg (Some v) (env_world_size c) (env_gpu c) (env_distributed c)
    (env_dist_backend c) (env_dist_url c) (data_batch_size_per_rank c)
    (data_batch_size_total c).
Definition set_env_world_size (v : Z) (c : cfg) : cfg :=
  Cfg (env_rank c) (Some v) (env_gpu c) (env_distributed c)
    (env_dist_backend c) (env_dist_url c) (data_batch_size_per_rank c)
    (data_batch_size_total c).
Definition set_env_gpu (v : Z) (c : cfg) : cfg :=
  Cfg (env_rank c) (env_world_size c) (Some v) (env_distributed c)
    (env_dist_backend c) (env_dist_url c) (data_batch_size_per_rank c)
    (data_batch_size_total c).
Definition set_env_distributed (v : bool) (c : cfg) : cfg :=
  Cfg (env_rank c) (env_world_size c) (env_gpu c) (Some v)
    (env_dist_backend c) (env_dist_url c) (data_batch_size_per_rank c)
    (data_batch_size_total c).
Definition set_env_dist_backend (v : string) (c : cfg) : cfg :=
  Cfg (env_rank c) (env_world_size c) (env_gpu c) (env_distributed c)
    (Some v) (env_dist_url c) (data_batch_size_per_rank c)
    (data_batch_size_total c).
Definition set_data_batch_size_total (v : Z) (c : cfg) : cfg :=
  Cfg (env_rank c) (env_world_size c) (env_gpu c) (env_distributed c)
    (env_dist_backend c) (env_dist_url c) (data_batch_size_per_rank c)
    (Some v).

(** The process: its [cfg], the state of [torch.distributed], the CUDA
    device selected and whether [print] has been replaced (and for which
    value of [is_master]). *)
Record process : Type := Process {
  proc_cfg : cfg;
  proc_dist : dist;
  proc_cuda_device : option Z;
  proc_print_master : option bool;
}.

Definition update_cfg (f : cfg → cfg) : stateful process unit :=
  modify_state (λ p, Process (f (proc_cfg p)) (proc_dist p)
                       (proc_cuda_device p) (proc_print_master p)).
Definition get_cfg : stateful process cfg := λ p, (Ok (proc_cfg p), p).

Section Init.
(** What the function asks of Python and of the framework: [int] on
    a string, [torch.cuda.device_count()], [torch.cuda.set_device] and
    [dist.init_process_group] (backend, init method, world size,
    rank), either of which may raise. *)
Context (int : string → result Z).
Context (device_count : Z).
Context (set_device : Z → result unit).
Context (init_process_group : string → string → Z → Z → result process_group).

Definition setup_for_distributed (is_master : bool) : stateful process unit :=
  modify_state (λ p, Process (proc_cfg p) (proc_dist p)
                       (proc_cuda_device p) (Some is_master)).

(** The statements after the [if]: they run in both distributed
    branches. *)
Definition init_distributed_tail : stateful process unit :=
  update_cfg (set_env_distributed true);;
  update_cfg (set_env_dist_backend "nccl");;
  c ← get_cfg;
  world_size ← pure_result (getattr (env_world_size c) "world_size");
  update_cfg (set_data_batch_size_total (data_batch_size_per_rank c * world_size));;
  gpu ← pure_result (getattr (env_gpu c) "gpu");
  pure_result (set_device gpu);;
  modify_state (λ p, Process (proc_cfg p) (proc_dist p) (Some gpu)
                       (proc_print_master p));;
  rank ← pure_result (getattr (env_rank c) "rank");
  group ← pure_result
    (init_process_group "nccl" (env_dist_url c) world_size rank);
  modify_state (λ p, Process (proc_cfg p) (Dist true (Some group))
                       (proc_cuda_device p) (proc_print_master p));;
  setup_for_distributed (bool_decide (rank = 0)).

Definition init_distributed_mode (environ : gmap string string)
  : stateful process unit :=
  if bool_decide (is_Some (environ !! "RANK"))
     && bool_decide (is_Some (environ !! "WORLD_SIZE")) then
    rank ← pure_result (getitem environ "RANK" ≫= int);
    update_cfg (set_env_rank rank);;
    world_size ← pure_result (getitem environ "WORLD_SIZE" ≫= int);
    update_cfg (set_env_world_size world_size);;
    gpu ← pure_result (getitem environ "LOCAL_RANK" ≫= int);
    update_cfg (set_env_gpu gpu);;
    init_distributed_tail
  else if bool_decide (is_Some (environ !! "SLURM_PROCID"))
          && negb (bool_decide (is_Some (environ !! "SLURM_PTY_PORT"))) then
    rank ← pure_result (getitem environ "SLURM_PROCID" ≫= int);
    update_cfg (set_env_rank rank);;
    (if bool_decide (device_count = 0) then throw ZeroDivisionError
     else update_cfg (set_env_gpu (rank `mod` device_count)));;
    init_distributed_tail
  else
    update_cfg (set_env_distributed false);;
    c ← get_cfg;
    update_cfg (set_data_batch_size_total (data_batch_size_per_rank c)).
End Init.

End DistMisc.

(** ** TrainerMisc: checkpoints in the work dir *)

Module TrainerMisc.
Import Py DistMisc.

(** *** fnmatch

    What [glob] matches names with: [fnmatch.translate] turns a pattern
    into a regular expression, here a list of tokens. *)

(** The members of a bracket expression: single characters and ranges. *)
Inductive class_item : Type :=
| ILit (c : ascii)
| IRange (lo hi : ascii).

(** What a pattern is translated to: [*], [?], a character that stands
    for itself, or a bracket expression, negated or not. *)
Inductive token : Type :=
| TStar
| TAny
| TLit (c : ascii)
| TClass (negated : bool) (items : list class_item).

(** The members of [stuff], read from the left: a character followed by
    a hyphen and another character is a range; any other character,
    hyphens included, stands for itself. *)
Fixpoint class_items (stuff : list ascii) : list class_item :=
  match stuff with
  | [] => []
  | c :: rest =>
      match rest with
      | h :: d :: rest' =>
          if Ascii.eqb h "-" then IRange c d :: class_items rest'
          else ILit c :: class_items rest
      | _ => ILit c :: class_items rest
      end
  end.

(** The characters up to the next ["]"], and what follows it. *)
Fixpoint until_close (s : list ascii) : option (list ascii * list ascii) :=
  match s with
  | [] => None
  | c :: rest =>
      if Ascii.eqb c "]" then Some ([], rest)
      else '(stuff, rest') ← until_close rest; Some (c :: stuff, rest')
  end.

(** What follows a ["["]: an optional ["!"], an optional ["]"] that
    counts as a member, and the members up to the closing ["]"]; [None]
    when the bracket is never closed. *)
Definition bracket (s : list ascii) : option (token * list ascii) :=
  let '(negated, s) :=
    match s with
    | c :: s' => if Ascii.eqb c "!" then (true, s') else (false, s)
    | [] => (false, s)
    end in
  let '(first, s) :=
    match s with
    | c :: s' => if Ascii.eqb c "]" then ([c], s') else ([], s)
    | [] => ([], s)
    end in
  '(stuff, rest) ← until_close s;
  Some (TClass negated (class_items (first ++ stuff)), rest).

(** [fnmatch.translate]: a ["["] that is never closed stands for
    itself. *)
Fixpoint translate_go (fuel : nat) (pat : list ascii) : list token :=
  match fuel, pat with
  | S fuel, c :: pat' =>
      if Ascii.eqb c "*" then TStar :: translate_go fuel pat'
      else if Ascii.eqb c "?" then TAny :: translate_go fuel pat'
      else if Ascii.eqb c "[" then
        match bracket pat' with
        | Some (class, rest) => class :: translate_go fuel rest
        | None => TLit c :: translate_go fuel pat'
        end
      else TLit c :: translate_go fuel pat'
  | _, _ => []
  end.

Definition translate (pat : string) : list token :=
  translate_go (String.length pat) (String.list_ascii_of_string pat).

Definition item_match (x : ascii) (item : class_item) : bool :=
  match item with
  | ILit c => Ascii.eqb c x
  | IRange lo hi =>
      bool_decide (N_of_ascii lo ≤ N_of_ascii x ≤ N_of_ascii hi)%N
  end.

Fixpoint match_tokens (tokens : list token) : string → bool :=
  match tokens with
  | [] => λ name, bool_decide (name = EmptyString)
  | TStar :: tokens' =>
      fix star (name : string) : bool :=
        match_tokens tokens' name
        || match name with
           | EmptyString => false
           | String _ name' => star name'
           end
  | TAny :: tokens' =>
      λ name,
        match name with
        | EmptyString => false
        | String _ name' => match_tokens tokens' name'
        end
  | TLit c :: tokens' =>
      λ name,
        match name with
        | EmptyString => false
        | String x name' => Ascii.eqb c x && match_tokens tokens' name'
        end
  | TClass negated items :: tokens' =>
      λ name,
        match name with
        | EmptyString => false
        | String x name' =>
            xorb negated (existsb (item_match x) items)
            && match_tokens tokens' name'
        end
  end.

(** [fnmatch.fnmatchcase(name, pat)] *)
Definition fnmatch (pat name : string) : bool :=
  match_tokens (translate pat) name.

(** *** Paths and glob

    A path is the string the program writes, and a file is kept under
    the path it was written to: two spellings of one path (a doubled
    separator, a component [.]) count as two paths.  Every path of the
    two functions is the work dir joined with a name, or a path that
    [glob] has found.  A directory is there when a file has it in its
    path: what [glob] finds here are files. *)

Definition is_sep (c : ascii) : bool := Ascii.eqb c "/".

Definition starts_with (c : ascii) (s : string) : bool :=
  match s with
  | String x _ => Ascii.eqb x c
  | EmptyString => false
  end.

Fixpoint ends_with (c : ascii) (s : string) : bool :=
  match s with
  | EmptyString => false
  | String x EmptyString => Ascii.eqb x c
  | String _ s' => ends_with c s'
  end.

(** [os.path.join(a, b)] *)
Definition join (a b : string) : string :=
  if starts_with "/" b then b
  else if bool_decide (a = EmptyString) || ends_with "/" a then a +:+ b
  else a +:+ "/" +:+ b.

(** The components of a path, between the separators. *)
Fixpoint split_path (path : string) : list string :=
  match path with
  | EmptyString => [EmptyString]
  | String c path' =>
      if is_sep c then EmptyString :: split_path path'
      else match split_path path' with
           | first :: others => String c first :: others
           | [] => [String c EmptyString]
           end
  end.

(** [glob.has_magic]: one of the characters [*], [?], ["["] occurs. *)
Fixpoint has_magic (s : string) : bool :=
  match s with
  | EmptyString => false
  | String c s' =>
      Ascii.eqb c "*" || Ascii.eqb c "?" || Ascii.eqb c "[" || has_magic s'
  end.

(** How [glob] takes one component of the pattern: a component with a
    metacharacter is matched by [fnmatch], and finds a name that starts
    with a dot only if it starts with a dot itself; any other component
    stands for the entry of that name. *)
Definition component_match (pattern name : string) : bool :=
  if has_magic pattern
  then fnmatch pattern name
       && (starts_with "." pattern || negb (starts_with "." name))
  else bool_decide (pattern = name).

(** [glob] walks the pathname component by component: what it finds
    has as many components as the pathname, each matching its own. *)
Fixpoint components_match (patterns names : list string) : bool :=
  match patterns, names with
  | [], [] => true
  | pattern :: patterns', name :: names' =>
      component_match pattern name && components_match patterns' names'
  | _, _ => false
  end.

Definition path_match (pathname path : string) : bool :=
  components_match (split_path pathname) (split_path path).

Section Files.
(** A file system maps the paths of its files to their contents. *)
Context {F : Type}.

(** [glob(pathname)]: the paths that match, component by component, in
    the order the file system lists them.  The pathname is not
    escaped: a metacharacter in a directory component makes [glob]
    look into every directory that matches it, and not into a
    directory that is named like the component. *)
Definition glob (pathname : string) (fs : gmap string F) : list string :=
  elements (filter (λ path, path_match pathname path = true) (dom fs)).

(** [os.rename(src, dst)]: [dst] is replaced silently. *)
Definition rename (src dst : string) (fs : gmap string F) : gmap string F :=
  match fs !! src with
  | Some content => <[dst := content]> (delete src fs)
  | None => fs
  end.
End Files.

Definition best_pattern : string := "checkpoint_best_epoch_*.pth".
Definition last_pattern : string := "checkpoint_last_epoch_*.pth".
Definition best_name (epoch : Z) : string :=
  "checkpoint_best_epoch_" +:+ pretty epoch +:+ ".pth".
Definition last_name (epoch : Z) : string :=
  "checkpoint_last_epoch_" +:+ pretty epoch +:+ ".pth".

(** Truth value of a string or [None] setting. *)
Definition truthy (s : option string) : bool :=
  match s with
  | Some s => negb (bool_decide (s = EmptyString))
  | None => false
  end.

Record cfg : Type := Cfg {
  info_work_dir : string;
  trainer_resume : option string;
  trainer_save_interval : Z;
  env_amp : bool;
  env_device : option string;
}.

Section Trainer.
(** [SD]: the state dicts of model, optimizer, scheduler and scaler;
    [MV]: the values of a metrics dict.  The code stores and reloads
    both without looking inside. *)
Context {SD MV : Type}.

Inductive ckpt_value : Type :=
| CInt (n : Z)
| CState (sd : SD)
| CMetrics (m : gmap string MV).

Record trainer_status : Type := TrainerStatus {
  epoch : Z;
  start_epoch : Z;
  train_iters : Z;
  metrics : gmap string MV;
  best_metrics : gmap string MV;
  model_without_ddp : SD;
  optimizer : SD;
  lr_scheduler : SD;
  scaler : SD;
  len_train_loader : Z;
}.

Definition set_best_metrics (m : gmap string MV) (ts : trainer_status) :=
  TrainerStatus (epoch ts) (start_epoch ts) (train_iters ts) (metrics ts) m
    (model_without_ddp ts) (optimizer ts) (lr_scheduler ts) (scaler ts)
    (len_train_loader ts).
Definition set_metrics (m : gmap string MV) (ts : trainer_status) :=
  TrainerStatus (epoch ts) (start_epoch ts) (train_iters ts) m (best_metrics ts)
    (model_without_ddp ts) (optimizer ts) (lr_scheduler ts) (scaler ts)
    (len_train_loader ts).
Definition set_start_epoch (n : Z) (ts : trainer_status) :=
  TrainerStatus (epoch ts) n (train_iters ts) (metrics ts) (best_metrics ts)
    (model_without_ddp ts) (optimizer ts) (lr_scheduler ts) (scaler ts)
    (len_train_loader ts).
Definition set_train_iters (n : Z) (ts : trainer_status) :=
  TrainerStatus (epoch ts) (start_epoch ts) n (metrics ts) (best_metrics ts)
    (model_without_ddp ts) (optimizer ts) (lr_scheduler ts) (scaler ts)
    (len_train_loader ts).
Definition set_model (sd : SD) (ts : trainer_status) :=
  TrainerStatus (epoch ts) (start_epoch ts) (train_iters ts) (metrics ts)
    (best_metrics ts) sd (optimizer ts) (lr_scheduler ts) (scaler ts)
    (len_train_loader ts).
Definition set_optimizer (sd : SD) (ts : trainer_status) :=
  TrainerStatus (epoch ts) (start_epoch ts) (train_iters ts) (metrics ts)
    (best_metrics ts) (model_without_ddp ts) sd (lr_scheduler ts) (scaler ts)
    (len_train_loader ts).
Definition set_lr_scheduler (sd : SD) (ts : trainer_status) :=
  TrainerStatus (epoch ts) (start_epoch ts) (train_iters ts) (metrics ts)
    (best_metrics ts) (model_without_ddp ts) (optimizer ts) sd (scaler ts)
    (len_train_loader ts).
Definition set_scaler (sd : SD) (ts : trainer_status) :=
  TrainerStatus (epoch ts) (start_epoch ts) (train_iters ts) (metrics ts)
    (best_metrics ts) (model_without_ddp ts) (optimizer ts) (lr_scheduler ts) sd
    (len_train_loader ts).

(** The process state the two functions act on: the [trainer_status]
    dict, mutated in place, and the files, each under its path. *)
Record run_state : Type := RunState {
  status : trainer_status;
  files : gmap string (gmap string ckpt_value);
}.

(** Statements run in order on the world; an exception keeps the
    effects of the statements before it. *)
Definition stmt (A : Type) : Type := run_state → result A * run_state.

#[global] Instance stmt_ret : MRet stmt := λ A a w, (Ok a, w).
#[global] Instance stmt_bind : MBind stmt := λ A B k m w,
  match m w with
  | (Ok a, w') => k a w'
  | (Raise e, w') => (Raise e, w')
  end.

Definition raise {A} (e : exn) : stmt A := λ w, (Raise e, w).
Definition lift {A} (r : result A) : stmt A := λ w, (r, w).
Definition get_status : stmt trainer_status := λ w, (Ok (status w), w).
Definition update_status (f : trainer_status → trainer_status) : stmt unit :=
  λ w, (Ok (), RunState (f (status w)) (files w)).
Definition get_files : stmt (gmap string (gmap string ckpt_value)) :=
  λ w, (Ok (files w), w).
Definition update_files
    (f : gmap string (gmap string ckpt_value) → gmap string (gmap string ckpt_value))
  : stmt unit :=
  λ w, (Ok (), RunState (status w) (f (files w))).
Definition assert (b : bool) : stmt unit :=
  if b then mret () else raise AssertionError.

(** [torch.save(obj, path)] and [torch.load(path)]: the framework's
    serialisation, which gives back what was saved. *)
Definition torch_save (obj : gmap string ckpt_value) (path : string) : stmt unit :=
  update_files (<[path := obj]>).
Definition torch_load (path : string) : stmt (gmap string ckpt_value) :=
  fs ← get_files;
  match fs !! path with
  | Some obj => mret obj
  | None => raise RuntimeError
  end.

(** [metric_criterion.choose_best(metrics, best_metrics)]. *)
Context (choose_best : gmap string MV → gmap string MV → gmap string MV * bool).

(** The block that [save_checkpoint] runs once for the best and once
    for the last checkpoint: glob, assert, save over the old file and
    rename it, or save a new file. *)
Definition save_over (pathname new_path : string)
    (save_files : gmap string ckpt_value) : stmt unit :=
  fs ← get_files;
  let found := glob pathname fs in
  assert (bool_decide (length found ≤ 1)%nat);;
  match found with
  | [old] =>
      torch_save save_files old;;
      update_files (rename old new_path)
  | _ => torch_save save_files new_path
  end.

(** The dict [save_files] as first built, and after the two
    [save_files.update] calls of the last-checkpoint branch. *)
Definition save_files_best (ts : trainer_status) : gmap string ckpt_value :=
  <["epoch" := CInt (epoch ts)]>
    (<["best_metrics" := CMetrics (best_metrics ts)]>
       (<["model" := CState (model_without_ddp ts)]> ∅)).

Definition save_files_last (c : cfg) (ts : trainer_status)
  : gmap string ckpt_value :=
  let save_files :=
    <["last_metric" := CMetrics (metrics ts)]>
      (<["lr_scheduler" := CState (lr_scheduler ts)]>
         (<["optimizer" := CState (optimizer ts)]> (save_files_best ts))) in
  if env_amp c && truthy (env_device c)
  then <["scaler" := CState (scaler ts)]> save_files
  else save_files.

(** [a % b == 0] on Python ints; [%] raises on a zero divisor and
    otherwise takes the sign of the divisor, as [Z.modulo] does. *)
Definition mod_is_zero (a b : Z) : stmt bool :=
  if bool_decide (b = 0) then raise ZeroDivisionError
  else mret (bool_decide (a `mod` b = 0)).

Definition save_checkpoint (d : dist) (c : cfg) : stmt unit :=
  if is_main_process d then
    ts ← get_status;
    let epoch_finished := epoch ts in
    let '(best, save_flag) := choose_best (metrics ts) (best_metrics ts) in
    update_status (set_best_metrics best);;
    ts ← get_status;
    (if save_flag
     then save_over (join (info_work_dir c) best_pattern)
            (join (info_work_dir c) (best_name epoch_finished))
            (save_files_best ts)
     else mret ());;
    due ← mod_is_zero (epoch ts + 1) (trainer_save_interval c);
    if (due : bool)
    then save_over (join (info_work_dir c) last_pattern)
           (join (info_work_dir c) (last_name epoch_finished))
           (save_files_last c ts)
    else mret ()
  else mret ().

(** Reading an entry of the loaded checkpoint at the type its use needs. *)
Definition as_state (v : ckpt_value) : result SD :=
  match v with CState sd => Ok sd | _ => Raise TypeError end.
Definition as_int (v : ckpt_value) : result Z :=
  match v with CInt n => Ok n | _ => Raise TypeError end.
Definition as_metrics (v : ckpt_value) : result (gmap string MV) :=
  match v with CMetrics m => Ok m | _ => Raise TypeError end.

(** [checkpoint.get(key, {})] *)
Definition get_metrics (checkpoint : gmap string ckpt_value) (key : string)
  : result (gmap string MV) :=
  match checkpoint !! key with
  | Some v => as_metrics v
  | None => Ok ∅
  end.

Definition resume_training (c : cfg) : stmt unit :=
  if truthy (trainer_resume c) then
    fs ← get_files;
    let checkpoint_path := glob (join (info_work_dir c) last_pattern) fs in
    assert (bool_decide (length checkpoint_path = 1%nat));;
    checkpoint ← torch_load (default EmptyString (head checkpoint_path));
    sd ← lift (getitem checkpoint "model" ≫= as_state);
    update_status (set_model sd);;
    sd ← lift (getitem checkpoint "optimizer" ≫= as_state);
    update_status (set_optimizer sd);;
    sd ← lift (getitem checkpoint "lr_scheduler" ≫= as_state);
    update_status (set_lr_scheduler sd);;
    (if env_amp c then
       sd ← lift (getitem checkpoint "scaler" ≫= as_state);
       update_status (set_scaler sd)
     else mret ());;
    n ← lift (getitem checkpoint "epoch" ≫= as_int);
    update_status (set_start_epoch (n + 1));;
    m ← lift (get_metrics checkpoint "best_metrics");
    update_status (set_best_metrics m);;
    m ← lift (get_metrics checkpoint "last_metrics");
    update_status (set_metrics m);;
    n ← lift (getitem checkpoint "epoch" ≫= as_int);
    ts ← get_status;
    update_status (set_train_iters (n * len_train_loader ts))
  else mret ().

(** Statements that leave the file at [path] as it is. *)
Definition leaves_file {A} (path : string) (m : stmt A) : Prop :=
  ∀ w : run_state, files (m w).2 !! path = files w !! path.
End Trainer.
#[global] Arguments ckpt_value : clear implicits.
#[global] Arguments trainer_status : clear implicits.
#[global] Arguments run_state : clear implicits.
End TrainerMisc.

(** ** The files of a directory

    What the statements about the work dir speak of: the files that are in
    the directory, as opposed to the paths that [glob] finds for the
    directory joined with a pattern. *)

Module WorkDir.
Import TrainerMisc.

(** No separator in [s]. *)
Fixpoint no_sep (s : string) : bool :=
  match s with
  | EmptyString => true
  | String c s' => negb (is_sep c) && no_sep s'
  end.

(** [os.path.basename(path)] *)
Definition basename (path : string) : string :=
  default EmptyString (last (split_path path)).

(** [path] is a file of the directory [dir], and the name of the file
    matches [pattern]: the directory is taken as it is written. *)
Definition in_dir (dir pattern path : string) : bool :=
  bool_decide (path = join dir (basename path))
  && fnmatch pattern (basename path).

(** The files of [dir] whose name matches [pattern]. *)
Definition listing {F : Type} (dir pattern : string) (fs : gmap string F)
  : list string :=
  elements (filter (λ path, in_dir dir pattern path = true) (dom fs)).

(** One of the two patterns of [save_checkpoint]. *)
Definition checkpoint_pattern (pattern : string) : Prop :=
  pattern = best_pattern ∨ pattern = last_pattern.

(** The components of a path put together again. *)
Fixpoint unsplit (components : list string) : string :=
  match components with
  | [] => EmptyString
  | [name] => name
  | name :: others => name +:+ "/" +:+ unsplit others
  end.
End WorkDir.

(** ** TesterMisc: loading a checkpoint for inference *)

Module TesterMisc.
Import Py DistMisc TrainerMisc.

Section Tester.
Context {SD MV : Type}.

(** What [load_model] hands to [print]: the checkpoint path, or a label
    and a value of the checkpoint. *)
Inductive printed : Type :=
| PrintPath (path : string)
| PrintValue (label : string) (v : ckpt_value SD MV).

(** What [load_model] acts on: the state of
    [tester_status['model_without_ddp']], the tuple
    [cfg.info.wandb_run.tags], the calls of [print] so far and the files
    of the train work dir. *)
Record tester : Type := Tester {
  tester_model : SD;
  wandb_run_tags : list string;
  stdout : list printed;
  tester_files : gmap string (gmap string (ckpt_value SD MV));
}.

(** How an f-string shows a value of the checkpoint. *)
Context (format : ckpt_value SD MV → string).

Definition print (p : printed) : stateful tester unit :=
  modify_state (λ t, Tester (tester_model t) (wandb_run_tags t)
                       (stdout t ++ [p]) (tester_files t)).

(** [torch.load(path)]: gives back what was saved at [path]. *)
Definition torch_load_checkpoint (path : string)
  : stateful tester (gmap string (ckpt_value SD MV)) :=
  t ← get_state;
  match tester_files t !! path with
  | Some obj => mret obj
  | None => throw RuntimeError
  end.

(** [checkpoint.get(key, {})] *)
Definition get_or_empty (checkpoint : gmap string (ckpt_value SD MV))
    (key : string) : ckpt_value SD MV :=
  default (CMetrics ∅) (checkpoint !! key).

Definition load_model (d : dist) (checkpoint_path : string)
  : stateful tester unit :=
  checkpoint ← torch_load_checkpoint checkpoint_path;
  sd ← pure_result (getitem checkpoint "model" ≫= as_state);
  modify_state (λ t, Tester sd (wandb_run_tags t) (stdout t) (tester_files t));;
  print (PrintPath checkpoint_path);;
  print (PrintValue "best_trainer_metric" (get_or_empty checkpoint "best_metric"));;
  (if is_main_process d then
     match checkpoint !! "epoch" with
     | Some epoch =>
         print (PrintValue "Epoch:" epoch);;
         modify_state (λ t, Tester (tester_model t)
                              (wandb_run_tags t ++ ["Epoch: " +:+ format epoch])
                              (stdout t) (tester_files t))
     | None => mret ()
     end
   else mret ());;
  print (PrintValue "last_trainer_metric" (get_or_empty checkpoint "last_metric")).
End Tester.
#[global] Arguments printed : clear implicits.
#[global] Arguments tester : clear implicits.
End TesterMisc.

(** ** OptimizerMisc: parameter groups *)

Module OptimizerMisc.
Import Py.

(** [keyword in name] on strings: [keyword] occurs in [name]. *)
Fixpoint str_in (keyword name : string) : bool :=
  if String.prefix keyword name then true
  else match name with
       | EmptyString => false
       | String _ rest => str_in keyword rest
       end.

(** What [for keyword in s] runs through when [s] is a string: its
    characters, each a string of length one. *)
Definition iter_str (s : string) : list string :=
  (λ c, String c EmptyString) <$> String.list_ascii_of_string s.

Fixpoint match_name_keywords (name : string) (name_keywords : list string) : bool :=
  match name_keywords with
  | [] => false
  | keyword :: name_keywords =>
      if str_in keyword name then true
      else match_name_keywords name name_keywords
  end.

Section Groups.
(** [P]: the parameters of the model; [V]: learning rates. *)
Context {P V : Type} (requires_grad : P → bool).

(** [cfg.trainer]: the attributes the function looks at, each of which
    may be missing. *)
Record lr_groups_cfg : Type := LrGroups {
  main : option V;
  backbone : option V;
}.
Record trainer_cfg : Type := TrainerCfg {
  lr : option V;
  lr_groups : option lr_groups_cfg;
}.

Record param_dict : Type := ParamDict {
  params : list P;
  param_lr : V;
}.

Definition get_param_dicts_with_specific_lr (cfg_trainer : trainer_cfg)
    (named_parameters : list (string * P)) : result (list param_dict) :=
  match lr cfg_trainer with
  | None =>
      match lr_groups cfg_trainer with
      | None => Raise AssertionError
      | Some groups =>
          let params_main :=
            (List.filter
               (λ '(n, p), negb (match_name_keywords n (iter_str "backbone"))
                           && requires_grad p)
               named_parameters).*2 in
          lr_main ← getattr (main groups) "main";
          let params_backbone :=
            (List.filter
               (λ '(n, p), match_name_keywords n (iter_str "backbone")
                           && requires_grad p)
               named_parameters).*2 in
          lr_backbone ← getattr (backbone groups) "backbone";
          Ok [ParamDict params_main lr_main;
              ParamDict params_backbone lr_backbone]
      end
  | Some lr =>
      Ok [ParamDict
            (List.filter (λ '(n, p), requires_grad p) named_parameters).*2
            lr]
  end.
End Groups.
#[global] Arguments lr_groups_cfg V : clear implicits.
#[global] Arguments trainer_cfg V : clear implicits.
#[global] Arguments param_dict P V : clear implicits.
End OptimizerMisc.

(** ** DataModuleBase: collating a batch *)

Module DataModule.
Import Py Torch.

Section Collate.
Context `{Elem T}.

(** What a dataset item may hold.  Tensors, strings and dicts of these
    are the acceptable types; lists and numbers stand for the others.
    A list is also what the collated strings become. *)
#[warnings="-register-all"]
Inductive sample : Type :=
| VTensor (t : tensor T)
| VStr (s : string)
| VDict (items : list (string * sample))
| VList (xs : list sample)
| VInt (n : Z).

(** [d[k]] on an element of the batch, for a string [k]: a dict looks
    the key up, a tensor refuses a string index with IndexError, and a
    string, a list or a number raises TypeError. *)
Definition sample_getitem (k : string) (d : sample) : result sample :=
  match d with
  | VDict items => getitem_assoc items k
  | VTensor _ => Raise IndexError
  | _ => Raise TypeError
  end.

(** [torch.stack] takes tensors only. *)
Definition as_tensor (v : sample) : result (tensor T) :=
  match v with
  | VTensor t => Ok t
  | _ => Raise TypeError
  end.

(** Modelled from the spec: [TensorMisc.NoCudaList] is not among the
    sources; the collated strings are "the list of that key's strings
    over the batch". *)
Definition NoCudaList (xs : list sample) : sample := VList xs.

(** The body of the loop for one entry [(k, v)] of [data[0]];
    [collate_fn] is the function called on the nested dicts. *)
Definition collate_entry (collate_fn : sample → list sample → result sample)
    (data : list sample) (k : string) (v : sample) : result sample :=
  match v with
  | VTensor _ =>
      column ← mapM (sample_getitem k) data;
      tensors ← mapM as_tensor column;
      VTensor <$> stack tensors
  | VStr _ =>
      column ← mapM (sample_getitem k) data;
      Ok (NoCudaList column)
  | VDict _ =>
      column ← mapM (sample_getitem k) data;
      collate_fn v column
  | _ => Raise NotImplementedError
  end.

(** The loop over [data[0].items()], filling [batch] in order. *)
Definition collate_items (collate_fn : sample → list sample → result sample)
    (data : list sample)
  : list (string * sample) → result (list (string * sample)) :=
  fix loop (items : list (string * sample)) :=
    match items with
    | [] => Ok []
    | (k, v) :: items' =>
        x ← collate_entry collate_fn data k v;
        batch ← loop items';
        Ok ((k, x) :: batch)
    end.

(** [collate_fn(data)] for [data] whose first element is [first].  In
    the nested call the first element of the column is the value [v] at
    hand, [data[0][k]]. *)
Fixpoint collate_first (first : sample) (data : list sample) : result sample :=
  match first with
  | VDict items => VDict <$> collate_items collate_first data items
  | _ => Raise (AttributeError "items")
  end.

Definition collate_fn (data : list sample) : result sample :=
  match data with
  | [] => Raise IndexError
  | first :: _ => collate_first first data
  end.

(** [w] has the type of [v], its shape if a tensor and, if a dict, the
    keys of [v] with values like those of [v]. *)
Fixpoint similar (v w : sample) : bool :=
  match v with
  | VTensor t =>
      match w with
      | VTensor t' => bool_decide (shape t' = shape t)
      | _ => false
      end
  | VStr _ => match w with VStr _ => true | _ => false end
  | VDict items =>
      match w with
      | VDict items' =>
          forallb (λ kv, match assoc items' kv.1 with
                         | Some w' => similar kv.2 w'
                         | None => false
                         end) items
      | _ => false
      end
  | _ => true
  end.

(** Only acceptable types, at every depth. *)
Fixpoint supported (v : sample) : bool :=
  match v with
  | VTensor _ | VStr _ => true
  | VDict items => forallb (λ kv, supported kv.2) items
  | _ => false
  end.

(** A dict has each key once. *)
Fixpoint unique_keys (v : sample) : bool :=
  match v with
  | VDict items =>
      bool_decide (NoDup items.*1) && forallb (λ kv, unique_keys kv.2) items
  | _ => true
  end.

(** What [collate_fn(data)] stores for the entry [kv] of [data[0]]:
    [kx] carries the key of [kv] and, by the type of the value, the stack
    of the column with a new leading dimension, the list of the column,
    or the collated column. *)
Definition batched (data : list sample) (kv kx : string * sample) : Prop :=
  kx.1 = kv.1
  ∧ ∃ column,
      mapM (sample_getitem kv.1) data = Ok column
      ∧ length column = length data
      ∧ match kv.2 with
        | VTensor t =>
            ∃ tensors,
              mapM as_tensor column = Ok tensors
              ∧ kx.2 = VTensor (TStack tensors)
              ∧ shape (TStack tensors) = length data :: shape t
        | VStr _ =>
            kx.2 = VList column ∧ Forall (λ w, ∃ s, w = VStr s) column
        | VDict _ => collate_fn column = Ok kx.2
        | _ => False
        end.
End Collate.
#[global] Arguments sample T : clear implicits.

(** *** InfiniteDataLoaderX and _RepeatSampler *)

(** What a call of [next] on a generator does.  [NoAnswer] is a call
    that was given too little fuel to come back. *)
Inductive step (S X : Type) : Type :=
| Yield (x : X) (s : S)
| Stop
| NoAnswer.
#[global] Arguments Yield {S X} x s.
#[global] Arguments Stop {S X}.
#[global] Arguments NoAnswer {S X}.

Section Loader.
(** [I]: what the batch sampler yields, the indices of one batch;
    [B]: a collated batch. *)
Context {I B : Type}.

(** A sampler: its [len] and the finite sequence that its [n]-th
    [iter] runs through (a shuffling sampler differs from pass to
    pass). *)
Record sampler : Type := Sampler {
  sampler_len : nat;
  sampler_iter : nat → list I;
}.

(** The generator [_RepeatSampler(sampler).__iter__()]: how many times
    it has called [iter(self.sampler)], and what the running inner
    iterator has left.  A new generator has called it zero times. *)
Record repeat_state : Type := RepeatState {
  passes : nat;
  remaining : list I;
}.

(** [while True: yield from iter(self.sampler)]: when the inner iterator
    is exhausted the loop starts the next one; each turn of the loop
    that yields nothing uses one unit of fuel. *)
Fixpoint repeat_next (fuel : nat) (smp : sampler) (st : repeat_state)
  : step repeat_state I :=
  match remaining st with
  | x :: xs => Yield x (RepeatState (passes st) xs)
  | [] =>
      match fuel with
      | O => NoAnswer
      | S fuel' =>
          repeat_next fuel' smp
            (RepeatState (S (passes st)) (sampler_iter smp (passes st)))
      end
  end.

(** The iterator of the base [DataLoader]: it takes the next indices
    from the batch sampler and fetches the batch. *)
Context (fetch : I → B).

Definition loader_next (fuel : nat) (smp : sampler) (st : repeat_state)
  : step repeat_state B :=
  match repeat_next fuel smp st with
  | Yield indices st' => Yield (fetch indices) st'
  | Stop => Stop
  | NoAnswer => NoAnswer
  end.

(** The loader keeps the sampler it wrapped ([batch_sampler.sampler])
    and the one iterator made in [__init__]. *)
Record infinite_loader : Type := InfiniteLoader {
  batch_sampler : sampler;
  iterator : repeat_state;
}.

Definition InfiniteDataLoaderX (smp : sampler) : infinite_loader :=
  InfiniteLoader smp (RepeatState 0 []).

Definition loader_len (loader : infinite_loader) : nat :=
  sampler_len (batch_sampler loader).

(** [for _ in range(n): yield next(self.iterator)], run to its end: the
    batches yielded and the iterator afterwards.  A [StopIteration]
    inside a generator surfaces as [RuntimeError]. *)
Fixpoint take_batches (fuel : nat) (smp : sampler) (n : nat)
    (st : repeat_state) : option (result (list B) * repeat_state) :=
  match n with
  | O => Some (Ok [], st)
  | S n' =>
      match loader_next fuel smp st with
      | Yield b st' =>
          match take_batches fuel smp n' st' with
          | Some (Ok bs, st'') => Some (Ok (b :: bs), st'')
          | other => other
          end
      | Stop => Some (Raise RuntimeError, st)
      | NoAnswer => None
      end
  end.

(** [list(iter(loader))] *)
Definition loader_iter (fuel : nat) (loader : infinite_loader)
  : option (result (list B) * infinite_loader) :=
  match take_batches fuel (batch_sampler loader) (loader_len loader)
          (iterator loader) with
  | Some (r, st) => Some (r, InfiniteLoader (batch_sampler loader) st)
  | None => None
  end.

(** [epochs] iterations of the loader, one after the other. *)
Fixpoint loader_epochs (fuel : nat) (epochs : nat) (loader : infinite_loader)
  : option (result (list (list B)) * infinite_loader) :=
  match epochs with
  | O => Some (Ok [], loader)
  | S epochs' =>
      match loader_iter fuel loader with
      | Some (Ok bs, loader') =>
          match loader_epochs fuel epochs' loader' with
          | Some (Ok bss, loader'') => Some (Ok (bs :: bss), loader'')
          | other => other
          end
      | Some (Raise e, loader') => Some (Raise e, loader')
      | None => None
      end
  end.
End Loader.
#[global] Arguments sampler I : clear implicits.
#[global] Arguments repeat_state I : clear implicits.
#[global] Arguments infinite_loader I : clear implicits.

(** *** What the iterator has yet to yield *)

Section Upcoming.
Context {I : Type}.
(** What the iterator has yet to yield, as far as the next [n] passes
    go: the rest of the running pass, then the passes to come. *)
Definition upcoming (smp : sampler I) (st : repeat_state I) (n : nat) : list I :=
  remaining st ++ concat (sampler_iter smp <$> seq (passes st) n).
End Upcoming.

(** *** get_worker_init_fn *)

(** The generators a worker process seeds: Python's [random] and NumPy's
    global one, each with the seed that determines its state. *)
Record worker_rng : Type := WorkerRng {
  random_seed : option Z;
  np_random_seed : option Z;
}.

(** [random.seed] takes any integer and seeds with its absolute value, so
    [s] and [-s] give one state; [np.random.seed] takes a seed between 0
    and 2**32 - 1 and raises ValueError for any other. *)
Definition _seed_worker (worker_id rank_seed : Z) : stateful worker_rng unit :=
  let worker_seed := rank_seed + worker_id in
  modify_state (λ rng, WorkerRng (Some (Z.abs worker_seed)) (np_random_seed rng));;
  (if bool_decide (0 ≤ worker_seed < 2 ^ 32)
   then modify_state (λ rng, WorkerRng (random_seed rng) (Some worker_seed))
   else throw ValueError).

(** [partial(_seed_worker, rank_seed=...)]: the rank is read when the
    function is made, in the process that builds the loader. *)
Definition get_worker_init_fn (seed_base num_workers : Z) (d : DistMisc.dist)
  : Z → stateful worker_rng unit :=
  let rank_seed := seed_base + num_workers * DistMisc.get_rank d in
  λ worker_id, _seed_worker worker_id rank_seed.

(** *** get_dataset *)

Inductive split : Type := Train | Val | Test | OtherSplit (name : string).

Section Datasets.
(** [D]: datasets; [None] is Python's [None].  [W]: what building a
    dataset may read and change. *)
Context {D W : Type}.

Record data_module : Type := DataModuleBase {
  train_dataset : option D;
  val_dataset : option D;
  test_dataset : option D;
}.

(** The [build_*_dataset] methods of the subclass; those of the base
    class raise NotImplementedError. *)
Context (build_train_dataset build_val_dataset build_test_dataset
           : stateful W (option D)).

(** Runs a builder on the world next to the module. *)
Definition build (b : stateful W (option D))
  : stateful (data_module * W) (option D) :=
  λ s, let '(r, w) := b s.2 in (r, (s.1, w)).

Definition get_dataset (sp : split) : stateful (data_module * W) (option D) :=
  match sp with
  | Train =>
      s ← get_state;
      (if train_dataset s.1 is None then
         ds ← build build_train_dataset;
         modify_state (λ s, (DataModuleBase ds (val_dataset s.1) (test_dataset s.1), s.2))
       else mret ());;
      s ← get_state;
      mret (train_dataset s.1)
  | Val =>
      s ← get_state;
      (if val_dataset s.1 is None then
         ds ← build build_val_dataset;
         modify_state (λ s, (DataModuleBase (train_dataset s.1) ds (test_dataset s.1), s.2))
       else mret ());;
      s ← get_state;
      mret (val_dataset s.1)
  | Test =>
      s ← get_state;
      (if test_dataset s.1 is None then
         ds ← build build_test_dataset;
         modify_state (λ s, (DataModuleBase (train_dataset s.1) (val_dataset s.1) ds, s.2))
       else mret ());;
      s ← get_state;
      mret (test_dataset s.1)
  | OtherSplit _ => throw NotImplementedError
  end.

(** The attribute of the module for a split. *)
Definition cached (sp : split) (m : data_module) : option D :=
  match sp with
  | Train => train_dataset m
  | Val => val_dataset m
  | Test => test_dataset m
  | OtherSplit _ => None
  end.
End Datasets.
#[global] Arguments data_module D : clear implicits.

End DataModule.

(** ** Concrete inputs *)

Module Inputs.
Import Py.



(** A process without [torch.distributed], and rank 1 of 2. *)
Definition no_dist : DistMisc.dist := DistMisc.Dist false None.
Definition rank1_of_2 : DistMisc.dist :=
  DistMisc.Dist true (Some (DistMisc.ProcessGroup 1 2)).

(** Tensors of rationals: a scalar, and what two ranks hold. *)
Definition q (n : Z) : Torch.tensor Q := Torch.TScalar (inject_Z n).
Definition local_tensor : Torch.tensor Q := Torch.TStack [q 1; q 2].
Definition peer_tensors : list (Torch.tensor Q) :=
  [Torch.TStack [q 10; q 20]; local_tensor].
Definition tensor_store : gmap nat (Torch.tensor Q) := {[ 0%nat := local_tensor ]}.

(** The loss dicts of two ranks, filled in different orders. *)
Definition losses_rank0 : list (string * Torch.tensor Q) :=
  [("acc", q 5); ("loss", q 2)].
Definition losses_rank1 : list (string * Torch.tensor Q) :=
  [("loss", q 1); ("acc", q 3)].
Definition dict_store : gmap nat (list (string * Torch.tensor Q)) :=
  {[ 0%nat := losses_rank1 ]}.

(** Strings pickled as their bytes; fresh memory reads as zero. *)
Definition dumps_str (s : string) : list byte := String.list_byte_of_string s.
Definition loads_str (b : list byte) : result string := Ok (String.string_of_list_byte b).
Definition zero_memory (rank offset : nat) : byte := x00.

(** A framework whose calls succeed, a process before
    [init_distributed_mode], and two environments. *)
Definition ok_set_device (gpu : Z) : result unit := Ok ().
Definition ok_init_process_group (backend url : string) (world_size rank : Z)
  : result DistMisc.process_group :=
  Ok (DistMisc.ProcessGroup (Z.to_nat rank) (Z.to_nat world_size)).
Definition fresh_process : DistMisc.process :=
  DistMisc.Process (DistMisc.Cfg None None None None None "env://" 8 None)
    (DistMisc.Dist true None) None None.
Definition env_torchrun : gmap string string :=
  <["RANK" := "1"]> (<["WORLD_SIZE" := "2"]> (<["LOCAL_RANK" := "1"]> ∅)).
Definition env_no_local_rank : gmap string string :=
  <["RANK" := "0"]> (<["WORLD_SIZE" := "2"]> ∅).
Definition env_slurm : gmap string string := {["SLURM_PROCID" := "5"]}.

Definition fetch_batch (indices : list nat) : list nat := indices.

(** Two dataset items with an image, a name and a nested dict, and an
    item with an integer label. *)
Definition item0 : list (string * DataModule.sample Q) :=
  [("image", DataModule.VTensor (Torch.TStack [q 1; q 2]));
   ("name", DataModule.VStr "a.png");
   ("meta", DataModule.VDict [("depth", DataModule.VTensor (q 7))])].
Definition item1 : list (string * DataModule.sample Q) :=
  [("name", DataModule.VStr "b.png");
   ("meta", DataModule.VDict [("depth", DataModule.VTensor (q 9))]);
   ("image", DataModule.VTensor (Torch.TStack [q 3; q 4]))].
Definition labelled_item : list (string * DataModule.sample Q) :=
  [("image", DataModule.VTensor (q 1)); ("label", DataModule.VInt 3)].

(** A run whose state dicts are numbered and whose metrics are integers;
    the criterion keeps the higher accuracy. *)
Definition higher_acc (metrics best : gmap string Z) : gmap string Z * bool :=
  match metrics !! "acc", best !! "acc" with
  | Some a, Some b => if bool_decide (b < a) then (metrics, true) else (best, false)
  | Some _, None => (metrics, true)
  | _, _ => (best, false)
  end.

Definition work_dir : string := "outputs/run1".
Definition train_cfg : TrainerMisc.cfg :=
  TrainerMisc.Cfg work_dir None 1 false (Some "cuda").
Definition resume_cfg : TrainerMisc.cfg :=
  TrainerMisc.Cfg work_dir (Some "outputs/run1/cfg.yaml") 1 false (Some "cuda").

Definition status_epoch (epoch acc : Z) : TrainerMisc.trainer_status Z Z :=
  TrainerMisc.TrainerStatus epoch 1 0 {["acc" := acc]} ∅ 11 12 13 14 100.

(** The work dir after epoch 1 of a new run. *)
Definition run_after_epoch1 : TrainerMisc.run_state Z Z :=
  (TrainerMisc.save_checkpoint higher_acc no_dist train_cfg
     (TrainerMisc.RunState (status_epoch 1 90) ∅)).2.

(** Work dirs: one with the saved config only, one with two best and one
    with two last checkpoints left behind. *)
Definition dir_with_config : gmap string (gmap string (TrainerMisc.ckpt_value Z Z)) :=
  {["outputs/run1/cfg.yaml" := ∅]}.
Definition dir_with_two_best : gmap string (gmap string (TrainerMisc.ckpt_value Z Z)) :=
  <["outputs/run1/checkpoint_best_epoch_3.pth" := ∅]>
    {["outputs/run1/checkpoint_best_epoch_7.pth" := ∅]}.
Definition dir_with_two_last : gmap string (gmap string (TrainerMisc.ckpt_value Z Z)) :=
  <["outputs/run1/checkpoint_last_epoch_3.pth" := ∅]>
    {["outputs/run1/checkpoint_last_epoch_7.pth" := ∅]}.

(** Configs with a zero save interval, and with amp on a falsy device. *)
Definition zero_interval_cfg : TrainerMisc.cfg :=
  TrainerMisc.Cfg work_dir None 0 false (Some "cuda").
Definition amp_cpu_cfg : TrainerMisc.cfg :=
  TrainerMisc.Cfg work_dir (Some "outputs/run1/cfg.yaml") 1 true None.

(** A run whose work dir is named after the batch sizes it sweeps, and
    its files after epoch 1. *)
Definition sweep_dir : string := "outputs/bs_[64, 128]".
Definition sweep_cfg : TrainerMisc.cfg :=
  TrainerMisc.Cfg sweep_dir None 1 false (Some "cuda").
Definition sweep_resume_cfg : TrainerMisc.cfg :=
  TrainerMisc.Cfg sweep_dir (Some "outputs/bs_[64, 128]/cfg.yaml") 1 false
    (Some "cuda").
Definition sweep_after_epoch1 : TrainerMisc.run_state Z Z :=
  (TrainerMisc.save_checkpoint higher_acc no_dist sweep_cfg
     (TrainerMisc.RunState (status_epoch 1 90) ∅)).2.

(** The status of a freshly built trainer, before resuming. *)
Definition fresh_status : TrainerMisc.trainer_status Z Z :=
  TrainerMisc.TrainerStatus 0 1 0 ∅ ∅ 0 0 0 0 100.

(** Nested namespaces: a base config, an update for it and what the
    update leaves; a namespace whose attribute [trainer] is a number; and
    one with the name [epochs] at two depths. *)
Definition cfg_base_example : gmap string (ConfigMisc.cfg_value Z) :=
  <["seed" := ConfigMisc.Leaf 1]>
    {["trainer" := ConfigMisc.Namespace
        (<["epochs" := ConfigMisc.Leaf 20]> {["lr" := ConfigMisc.Leaf 3]})]}.
Definition cfg_new_example : gmap string (ConfigMisc.cfg_value Z) :=
  <["trainer" := ConfigMisc.Namespace {["epochs" := ConfigMisc.Leaf 50]}]>
    {["data" := ConfigMisc.Namespace {["batch" := ConfigMisc.Leaf 8]}]}.
Definition cfg_updated_example : gmap string (ConfigMisc.cfg_value Z) :=
  <["seed" := ConfigMisc.Leaf 1]>
    (<["trainer" := ConfigMisc.Namespace
         (<["epochs" := ConfigMisc.Leaf 50]> {["lr" := ConfigMisc.Leaf 3]})]>
       {["data" := ConfigMisc.Namespace {["batch" := ConfigMisc.Leaf 8]}]}).
Definition cfg_plain_example : gmap string (ConfigMisc.cfg_value Z) :=
  <["seed" := ConfigMisc.Leaf 1]>
    (<["epochs" := ConfigMisc.Leaf 20]> {["lr" := ConfigMisc.Leaf 3]}).
(** The attributes that come with the class [Namespace]. *)
Definition namespace_class_attr (name : string) : bool :=
  bool_decide (name ∈ [
    "__class__"; "__contains__"; "__delattr__"; "__dict__"; "__dir__";
    "__doc__"; "__eq__"; "__format__"; "__ge__"; "__getattribute__";
    "__getstate__"; "__gt__"; "__hash__"; "__init__"; "__init_subclass__";
    "__le__"; "__lt__"; "__module__"; "__ne__"; "__new__"; "__reduce__";
    "__reduce_ex__"; "__repr__"; "__setattr__"; "__sizeof__"; "__str__";
    "__subclasshook__"; "__weakref__"; "_get_args"; "_get_kwargs"]).

Definition cfg_number_trainer : gmap string (ConfigMisc.cfg_value Z) :=
  {["trainer" := ConfigMisc.Leaf 5]}.
Definition cfg_epochs_twice : gmap string (ConfigMisc.cfg_value Z) :=
  <["epochs" := ConfigMisc.Leaf 1]>
    {["trainer" := ConfigMisc.Namespace {["epochs" := ConfigMisc.Leaf 20]}]}.

(** Items that lack a key of [item0], and one with a wider image. *)
Definition item_no_meta : list (string * DataModule.sample Q) :=
  [("image", DataModule.VTensor (Torch.TStack [q 5; q 6]));
   ("name", DataModule.VStr "c.png")].
Definition item_no_image : list (string * DataModule.sample Q) :=
  [("name", DataModule.VStr "c.png");
   ("meta", DataModule.VDict [("depth", DataModule.VTensor (q 8))])].
Definition item_wide : list (string * DataModule.sample Q) :=
  [("image", DataModule.VTensor (Torch.TStack [q 1; q 2; q 3]));
   ("name", DataModule.VStr "d.png");
   ("meta", DataModule.VDict [("depth", DataModule.VTensor (q 8))])].

(** A batch sampler that says 2 and yields 3 batches in every pass, and
    one whose passes are empty. *)
Definition three_per_pass : DataModule.sampler (list nat) :=
  DataModule.Sampler 2 (λ e, [[10 * e]; [10 * e + 1]; [10 * e + 2]]%nat).
Definition empty_passes : DataModule.sampler (list nat) :=
  DataModule.Sampler 2 (λ _, []).

(** A builder that numbers the datasets it builds. *)
Definition build_numbered : stateful nat (option nat) :=
  λ built, (Ok (Some (S built)), S built).

(** Four parameters, one of them frozen, and a config with two learning
    rates. *)
Definition named_parameters : list (string * nat) :=
  [("backbone.conv.weight", 0); ("head.weight", 1); ("fc", 2); ("ff.frozen", 3)]%nat.
Definition trainable (p : nat) : bool := bool_decide (p ≠ 3%nat).
Definition grouped_lr : OptimizerMisc.trainer_cfg Z :=
  OptimizerMisc.TrainerCfg None (Some (OptimizerMisc.LrGroups (Some 10) (Some 1))).

(** A tester in front of a last checkpoint of epoch 1, and an f-string
    that shows integers. *)
Definition tester_before : TesterMisc.tester Z Z :=
  TesterMisc.Tester 0 [] []
    {["checkpoint_last_epoch_1.pth" :=
        TrainerMisc.save_files_last train_cfg
          (TrainerMisc.set_best_metrics {["acc" := 95]} (status_epoch 1 90))]}.
Definition format_int (v : TrainerMisc.ckpt_value Z Z) : string :=
  match v with
  | TrainerMisc.CInt n => pretty n
  | _ => "..."
  end.

End Inputs.
(** * Properties *)

Module PyFacts.
Import Py.

(** Unfolds the statements of a [stateful] run. *)
Ltac run_stateful :=
  cbv [mbind mret stateful_bind stateful_ret throw pure_result get_state
       modify_state DistMisc.alloc]; cbn [fst snd].

Lemma mapM_cons {A B} (f : A → result B) x xs :
  mapM f (x :: xs) = (y ← f x; ys ← mapM f xs; Ok (y :: ys)).
Proof. reflexivity. Qed.

Lemma mapM_ok {A B} (f : A → result B) (g : A → B) xs :
  (∀ x, x ∈ xs → f x = Ok (g x)) → mapM f xs = Ok (g <$> xs).
Proof.
  induction xs as [|x xs IH]; intros Hf; [done|].
  rewrite mapM_cons, Hf, IH by set_solver. done.
Qed.

Section Store.
Context {X : Type}.
Implicit Types (h : gmap nat X).

Lemma fresh_unused h : h !! fresh (dom h) = None.
Proof. apply not_elem_of_dom, is_fresh. Qed.

Lemma alloc_extends h x : h ⊆ <[fresh (dom h) := x]> h.
Proof. apply insert_subseteq, fresh_unused. Qed.
End Store.
End PyFacts.

Module ConfigMiscFacts.
Import Py ConfigMisc.
Section Facts.
Context {A : Type}.
Implicit Types (v : cfg_value A) (d ns : gmap string (cfg_value A)).

Lemma value_size_lookup d k v :
  d !! k = Some v →
  (value_size v ≤ map_fold (λ _ v acc, value_size v + acc) 0 d)%nat.
Proof.
  revert k v.
  apply (map_fold_weak_ind (λ r m, ∀ k v, m !! k = Some v → (value_size v ≤ r)%nat)).
  - intros k v. by rewrite lookup_empty.
  - intros i x m r _ IH k v. rewrite lookup_insert.
    case_decide; [intros [= ->]; lia | intros Hk; apply IH in Hk; lia].
Qed.

Lemma value_nested_ind (P : cfg_value A → Prop) :
  (∀ a, P (Leaf a)) →
  (∀ d, map_Forall (λ _, P) d → P (Dict d)) →
  (∀ ns, map_Forall (λ _, P) ns → P (Namespace ns)) →
  ∀ v, P v.
Proof.
  intros Hleaf Hdict Hns v.
  remember (value_size v) as n eqn:Hn. revert v Hn.
  induction (lt_wf n) as [n _ IH]. intros [a|d|ns] ->; [done | |].
  - apply Hdict. intros k v Hk. eapply IH; [|done].
    simpl. apply value_size_lookup in Hk. lia.
  - apply Hns. intros k v Hk. eapply IH; [|done].
    simpl. apply value_size_lookup in Hk. lia.
Qed.







(** With a key ['self'] in the dict itself it raises TypeError. *)
Lemma nested_dict_to_nested_namespace_self d :
  is_Some (d !! "self") →
  nested_dict_to_nested_namespace (Dict d) = Raise TypeError.
Proof. intros Hself. cbn. by rewrite bool_decide_true. Qed.


End Facts.



End ConfigMiscFacts.

Module ConfigMoreFacts.
Import Py ConfigMisc ConfigMiscFacts.

Section Facts.
Context {A : Type}.
Implicit Types (v : cfg_value A) (d ns base new : gmap string (cfg_value A)).


Lemma namespace_as_dict_value v :
  ∀ ns, v = Namespace ns →
    nested_namespace_to_nested_dict v = Ok (namespace_as_dict <$> ns).
Proof.
  induction v as [a|d _|ns IH] using value_nested_ind; [done..|].
  intros ? [= <-]. cbn [nested_namespace_to_nested_dict]. revert IH.
  apply (map_fold_weak_ind (λ r m,
    map_Forall _ m → r = Ok (namespace_as_dict <$> m))).
  - intros _. by rewrite fmap_empty.
  - intros i x m r Hi IHm [Hx Hm]%map_Forall_insert; [|done].
    rewrite (IHm Hm), fmap_insert. cbn.
    destruct x as [a|dx|nx]; [done..|].
    by rewrite (Hx nx eq_refl).
Qed.

(** [nested_namespace_to_nested_dict] never raises on a Namespace: it
    returns its attributes, with every Namespace reached through
    Namespaces turned into a dict and the other values (dicts
    included) left as they are. *)
Theorem nested_namespace_to_nested_dict_total ns :
  nested_namespace_to_nested_dict (Namespace ns)
  = Ok (namespace_as_dict <$> ns).
Proof. by apply namespace_as_dict_value. Qed.




Lemma update_fold_entries base new r :
  update_nested_namespace (Namespace base) (Namespace new) = Ok r →
  ∃ updated,
    r = Namespace updated
    ∧ ∀ name, updated_entry base name (new !! name) (updated !! name).
Proof.
  cbn [update_nested_namespace]. revert r.
  apply (map_fold_weak_ind (λ acc m, ∀ r, acc = Ok r →
    ∃ updated, r = Namespace updated
      ∧ ∀ name, updated_entry base name (m !! name) (updated !! name))).
  - intros r [= <-]. exists base. split; [done|]. intros name.
    by rewrite lookup_empty.
  - intros i x m acc Hi IH r. destruct acc as [cfg_b|e]; [|done].
    destruct (IH cfg_b eq_refl) as (u & -> & Hu). cbn.
    assert (u !! i = base !! i) as Hui.
    { specialize (Hu i). by rewrite Hi in Hu. }
    destruct x as [a|dx|nx].
    + intros [= <-]. eexists. split; [done|]. intros name.
      rewrite !lookup_insert. case_decide; [done|apply Hu].
    + intros [= <-]. eexists. split; [done|]. intros name.
      rewrite !lookup_insert. case_decide; [done|apply Hu].
    + rewrite Hui.
      destruct (update_nested_namespace _ (Namespace nx)) as [sub|] eqn:Hsub;
        [|done].
      intros [= <-]. eexists. split; [done|]. intros name.
      rewrite !lookup_insert. case_decide; [|apply Hu].
      subst name. by exists sub.
Qed.

Lemma update_settles new :
  map_Forall (λ _ value, ∀ cfg_base r,
    update_nested_namespace cfg_base value = Ok r →
    update_nested_namespace r value = Ok r) new →
  ∀ cfg_base r,
    update_nested_namespace cfg_base (Namespace new) = Ok r →
    ∀ name value, new !! name = Some value → settled r name value.
Proof.
  intros IH cfg_base. cbn [update_nested_namespace]. revert IH.
  apply (map_fold_weak_ind (λ acc m,
    map_Forall _ m → ∀ r, acc = Ok r →
    ∀ name value, m !! name = Some value → settled r name value)).
  - intros _ r _ name value. by rewrite lookup_empty.
  - intros i x m acc Hi IHm [Hx Hm]%map_Forall_insert r; [|done].
    destruct acc as [r0|e]; [|done]. cbn.
    specialize (IHm Hm r0 eq_refl).
    assert (∀ u0 y, r0 = Namespace u0 →
              ∀ name value, m !! name = Some value →
                settled (Namespace (<[i := y]> u0)) name value) as Hkeep.
    { intros u0 y -> name value Hname.
      destruct (IHm name value Hname) as (u & [= <-] & Hu).
      exists (<[i := y]> u0). split; [done|].
      assert (i ≠ name) by (intros ->; congruence).
      destruct value; rewrite lookup_insert_ne by done; done. }
    destruct x as [a|dx|nx]; (destruct r0 as [|?|u0]; [done..|]).
    + intros [= <-] name value. rewrite lookup_insert. case_decide.
      * intros [= <-]. subst. eexists. split; [done|]. apply lookup_insert_eq.
      * by apply Hkeep.
    + intros [= <-] name value. rewrite lookup_insert. case_decide.
      * intros [= <-]. subst. eexists. split; [done|]. apply lookup_insert_eq.
      * by apply Hkeep.
    + destruct (update_nested_namespace _ (Namespace nx)) as [sub|] eqn:Hsub;
        [|done].
      intros [= <-] name value. rewrite lookup_insert. case_decide.
      * intros [= <-]. subst. eexists. split; [done|]. exists sub.
        split; [apply lookup_insert_eq|]. by eapply Hx.
      * by apply Hkeep.
Qed.

Lemma update_settled r new :
  (∀ name value, new !! name = Some value → settled r name value) →
  update_nested_namespace r (Namespace new) = Ok r.
Proof.
  cbn [update_nested_namespace].
  apply (map_fold_weak_ind (λ acc m,
    (∀ name value, m !! name = Some value → settled r name value) →
    acc = Ok r)); [done|].
  intros i x m acc Hi IHm Hall. rewrite IHm; last first.
  { intros name value Hname. apply Hall. rewrite lookup_insert_ne; [done|].
    intros ->. congruence. }
  destruct (Hall i x (lookup_insert_eq _ _ _)) as (u & -> & Hu).
  cbv [mbind result_bind bind].
  destruct x as [a|dx|nx].
  - by rewrite insert_id.
  - by rewrite insert_id.
  - destruct Hu as (sub & Hsub & Hfix). rewrite Hsub. cbn [default id].
    rewrite Hfix. by rewrite insert_id.
Qed.

(** Updating is idempotent: when [update_nested_namespace] has
    returned, a second call with the same [cfg_new] returns too and
    changes nothing. *)
Theorem update_nested_namespace_idempotent (cfg_new : cfg_value A) :
  ∀ cfg_base r,
    update_nested_namespace cfg_base cfg_new = Ok r →
    update_nested_namespace r cfg_new = Ok r.
Proof.
  induction cfg_new as [a|d _|new IH] using value_nested_ind; [done..|].
  intros cfg_base r Hr. apply update_settled.
  by eapply update_settles.
Qed.

Lemma update_non_namespace_base (cfg_base : cfg_value A) new :
  (∀ base, cfg_base ≠ Namespace base) → new ≠ ∅ →
  ∃ e, update_nested_namespace cfg_base (Namespace new) = Raise e.
Proof.
  intros Hbase Hnew. cbn [update_nested_namespace].
  match goal with
  | |- ∃ e, ?t = Raise e =>
      enough ((new = ∅ ∧ t = Ok cfg_base) ∨ ∃ e, t = Raise e) as [[? _]|?];
        [done|done|]
  end.
  apply (map_fold_weak_ind (λ acc m,
    (m = ∅ ∧ acc = Ok cfg_base) ∨ ∃ e, acc = Raise e)); [by left|].
  intros i x m acc Hi [[_ ->]|[e ->]]; right; [|by exists e].
  cbn. destruct x, cfg_base; try by eauto. all: by destruct (Hbase _ eq_refl).
Qed.

(** When [update_nested_namespace] returns, [cfg_base] has the
    attributes it had and those of [cfg_new], and each one is: what it
    was, where [cfg_new] has no such attribute; the value of
    [cfg_new], where that is no Namespace (a Namespace of [cfg_base]
    is replaced, not merged); and otherwise the old attribute (a new
    empty Namespace if there was none) updated in turn. *)
Theorem update_nested_namespace_entries base new r :
  update_nested_namespace (Namespace base) (Namespace new) = Ok r →
  ∃ updated,
    r = Namespace updated
    ∧ dom updated = dom base ∪ dom new
    ∧ ∀ name, updated_entry base name (new !! name) (updated !! name).
Proof.
  intros (updated & -> & Hu)%update_fold_entries.
  exists updated. split; [done|]. split; [|done].
  apply set_eq. intros name. rewrite elem_of_union, !elem_of_dom.
  specialize (Hu name). unfold updated_entry in Hu.
  destruct (new !! name) as [[a|d|sub]|].
  - rewrite Hu. split; [by right|done].
  - rewrite Hu. split; [by right|done].
  - destruct Hu as (r & _ & ->). split; [by right|done].
  - rewrite Hu. split; [by left|]. by intros [?|[? [=]]].
Qed.

(** An attribute of [cfg_base] that is no Namespace cannot be updated
    by a Namespace with attributes: the recursive call on it raises,
    and so does the whole update. *)
Theorem update_nested_namespace_over_value base new name value sub :
  base !! name = Some value → is_namespace value = false →
  new !! name = Some (Namespace sub) → sub ≠ ∅ →
  ∃ e, update_nested_namespace (Namespace base) (Namespace new) = Raise e.
Proof.
  intros Hb Hv Hn Hsub.
  destruct (update_nested_namespace (Namespace base) (Namespace new))
    as [r|e] eqn:Hr; [|by exists e].
  apply update_fold_entries in Hr as (updated & -> & Hu).
  specialize (Hu name). rewrite Hn in Hu. unfold updated_entry in Hu.
  destruct Hu as (r & Hr & _). rewrite Hb in Hr. cbn [default id] in Hr.
  destruct (update_non_namespace_base value sub) as [e He]; [|done|].
  - intros b ->. done.
  - rewrite He in Hr. done.
Qed.
End Facts.


Lemma update_nested_namespace_idempotent_witness :
  update_nested_namespace (Namespace Inputs.cfg_base_example)
    (Namespace Inputs.cfg_new_example)
  = Ok (Namespace Inputs.cfg_updated_example)
  ∧ update_nested_namespace (Namespace Inputs.cfg_updated_example)
      (Namespace Inputs.cfg_new_example)
    = Ok (Namespace Inputs.cfg_updated_example).
Proof.
  split; [vm_compute; reflexivity|].
  apply (update_nested_namespace_idempotent _ (Namespace Inputs.cfg_base_example)).
  vm_compute; reflexivity.
Defined.

Lemma update_nested_namespace_entries_witness :
  ∃ updated,
    Namespace Inputs.cfg_updated_example = Namespace updated
    ∧ dom updated = dom Inputs.cfg_base_example ∪ dom Inputs.cfg_new_example
    ∧ ∀ name, updated_entry Inputs.cfg_base_example name
                (Inputs.cfg_new_example !! name) (updated !! name).
Proof.
  apply update_nested_namespace_entries. vm_compute; reflexivity.
Defined.

Lemma update_nested_namespace_over_value_witness :
  ∃ e, update_nested_namespace (Namespace Inputs.cfg_number_trainer)
         (Namespace Inputs.cfg_new_example) = Raise e.
Proof.
  apply (update_nested_namespace_over_value _ _ "trainer" (Leaf 5)
           {["epochs" := Leaf 50]}).
  - vm_compute; reflexivity.
  - reflexivity.
  - vm_compute; reflexivity.
  - intros Hempty. apply (f_equal (λ m, m !! "epochs")) in Hempty.
    vm_compute in Hempty. discriminate Hempty.
Defined.

End ConfigMoreFacts.

Module PlainNamespaceFacts.
Import Py ConfigMisc ConfigMiscFacts.

Section Facts.
Context {A : Type}.
Context (class_attr : string → bool).
Implicit Types (v x : cfg_value A)
  (ns plain sub m : gmap string (cfg_value A)).

#[local] Abbreviation setattr_safely := (setattr_safely class_attr).
#[local] Abbreviation nested_namespace_to_plain_namespace :=
  (nested_namespace_to_plain_namespace class_attr).
#[local] Abbreviation piece := (piece class_attr).
#[local] Abbreviation own_names := (own_names class_attr).
#[local] Abbreviation plain_fold_ok := (plain_fold_ok class_attr).
#[local] Abbreviation plain_fold_raise := (plain_fold_raise class_attr).

Lemma own_names_insert i x m :
  m !! i = None →
  own_names (<[i := x]> m) ↔ class_attr i = false ∧ own_names m.
Proof. intros Hi. cbv [ConfigMisc.own_names]. by rewrite map_Forall_insert. Qed.

Lemma own_names_singleton i x :
  own_names {[i := x]} ↔ class_attr i = false.
Proof. cbv [ConfigMisc.own_names]. by rewrite map_Forall_singleton. Qed.

Lemma own_names_union m1 m2 :
  own_names m1 → own_names m2 → own_names (m1 ∪ m2).
Proof.
  intros H1 H2 k x [Hk|[_ Hk]]%lookup_union_Some_raw; [by eapply H1|by eapply H2].
Qed.

(** The inner loop copies a plain sub-namespace, unless a name is
    taken, by the plain namespace so far or by the class. *)
Lemma merge_safely plain psub :
  map_fold
    (λ subname subvalue (acc : result (gmap string (cfg_value A))),
       plain_namespace ← acc;
       setattr_safely plain_namespace subname subvalue)
    (Ok plain) psub
  = if decide (psub ##ₘ plain ∧ own_names psub)
    then Ok (psub ∪ plain) else Raise AssertionError.
Proof.
  refine (map_fold_weak_ind (λ acc m,
    acc = if decide (m ##ₘ plain ∧ own_names m)
          then Ok (m ∪ plain) else Raise AssertionError)
    _ _ _ _ _).
  - rewrite decide_True by (split; [apply map_disjoint_empty_l|apply map_Forall_empty]).
    by rewrite (left_id_L ∅ (∪)).
  - intros i x m acc Hi ->.
    destruct (decide (m ##ₘ plain ∧ own_names m)) as [[Hd Ho]|Hd].
    + cbn. cbv [ConfigMisc.setattr_safely hasattr].
      rewrite lookup_union, Hi, (left_id_L None _).
      destruct (class_attr i) eqn:Hc; cbn.
      { rewrite decide_False; [done|].
        intros [_ [? _]%own_names_insert]; [congruence|done]. }
      destruct (plain !! i) as [y|] eqn:Hp.
      * rewrite bool_decide_true by done.
        rewrite decide_False; [done|].
        intros [Hdis%map_disjoint_insert_l _]. destruct Hdis as [? _]. congruence.
      * rewrite bool_decide_false by by intros [].
        rewrite decide_True.
        -- by rewrite insert_union_l.
        -- split; [by apply map_disjoint_insert_l_2|by apply own_names_insert].
    + cbn. rewrite decide_False; [done|].
      intros [Hdis%map_disjoint_insert_l [_ ?]%own_names_insert]; [|done].
      apply Hd. by destruct Hdis.
Qed.

(** One turn of the outer loop. *)
Lemma plain_step name value plain :
  (plain_namespace ← Ok plain;
   match value with
   | Namespace _ =>
       plain_subnamespace ← nested_namespace_to_plain_namespace value;
       map_fold
         (λ subname subvalue (acc : result (gmap string (cfg_value A))),
            plain_namespace ← acc;
            setattr_safely plain_namespace subname subvalue)
         (Ok plain_namespace) plain_subnamespace
   | _ => setattr_safely plain_namespace name value
   end)
  = (pc ← piece name value;
     if decide (pc ##ₘ plain ∧ own_names pc)
     then Ok (pc ∪ plain) else Raise AssertionError).
Proof.
  assert (∀ value', setattr_safely plain name value'
            = if decide ({[name := value']} ##ₘ plain ∧ own_names {[name := value']})
              then Ok ({[name := value']} ∪ plain) else Raise AssertionError)
    as Hleaf.
  { intros value'. cbv [ConfigMisc.setattr_safely hasattr].
    destruct (class_attr name) eqn:Hc; cbn.
    { rewrite decide_False; [done|].
      intros [_ ?%own_names_singleton]. congruence. }
    destruct (plain !! name) eqn:Hp.
    - rewrite bool_decide_true by done. rewrite decide_False; [done|].
      intros [Hd%map_disjoint_singleton_l _]. congruence.
    - rewrite bool_decide_false by by intros [].
      rewrite decide_True.
      + by rewrite insert_union_singleton_l.
      + split; [by apply map_disjoint_singleton_l|by apply own_names_singleton]. }
  cbn. destruct value as [a|d|nx]; cbn; [apply Hleaf..|].
  destruct (map_fold _ _ nx) as [psub|e]; [|done]. cbn. apply merge_safely.
Qed.

Lemma plain_fold ns :
  match nested_namespace_to_plain_namespace (Namespace ns) with
  | Ok plain => plain_fold_ok ns plain
  | Raise e => plain_fold_raise ns e
  end.
Proof.
  cbn [nested_namespace_to_plain_namespace].
  refine (map_fold_weak_ind (λ acc m,
    match acc with
    | Ok plain => plain_fold_ok m plain
    | Raise e => plain_fold_raise m e
    end) _ _ _ _ _).
  - split_and!; [intros *; by rewrite ?lookup_empty..|apply map_Forall_empty].
  - intros i x m acc Hi IH. destruct acc as [plain0|e].
    2:{ cbn. destruct IH as [(name & value & Hl & Hp)|[(-> & n1 & v1 & p1 & n2 & v2 & p2 & Hne & H1 & H2 & Hrest)|(-> & name & value & pc & Hl & Hp & Hown)]].
        - left. exists name, value. split; [|done].
          rewrite lookup_insert_ne; [done|]. intros ->. congruence.
        - right. left. split; [done|]. exists n1, v1, p1, n2, v2, p2.
          split; [done|]. rewrite !lookup_insert_ne; [done| |].
          + intros ->. congruence.
          + intros ->. congruence.
        - right. right. split; [done|]. exists name, value, pc.
          split; [|done]. rewrite lookup_insert_ne; [done|]. intros ->. congruence. }
    rewrite plain_step. destruct IH as (Hsub & Hdis & Hsrc & Hown0).
    destruct (piece i x) as [pc|e] eqn:Hpc; cbn.
    2:{ left. exists i, x. by rewrite lookup_insert_eq. }
    destruct (decide (own_names pc)) as [Hown|Hown].
    2:{ rewrite decide_False by by intros [_ ?].
        right. right. split; [done|]. exists i, x, pc.
        by rewrite lookup_insert_eq. }
    destruct (decide (pc ##ₘ plain0)) as [Hd|Hd].
    + rewrite decide_True by done. split_and!; [| | |by apply own_names_union].
      * intros name value. rewrite lookup_insert. case_decide as Hn.
        -- intros [= <-]. subst name. exists pc. split; [done|].
           by apply map_union_subseteq_l.
        -- intros Hl. destruct (Hsub _ _ Hl) as (pc' & ? & ?).
           exists pc'. split; [done|]. etrans; [done|].
           by apply map_union_subseteq_r.
      * intros n1 v1 p1 n2 v2 p2 Hne. rewrite !lookup_insert.
        repeat case_decide; subst.
        -- done.
        -- intros [= <-] H2 Hp1 Hp2. rewrite Hpc in Hp1. injection Hp1 as <-.
           destruct (Hsub _ _ H2) as (pc' & Hp' & Hs'). rewrite Hp2 in Hp'.
           injection Hp' as <-. eapply map_disjoint_weaken_r; done.
        -- intros H1 [= <-] Hp1 Hp2. rewrite Hpc in Hp2. injection Hp2 as <-.
           destruct (Hsub _ _ H1) as (pc' & Hp' & Hs'). rewrite Hp1 in Hp'.
           injection Hp' as <-. symmetry. eapply map_disjoint_weaken_r; done.
        -- by apply Hdis.
      * intros k y [Hk|Hk]%lookup_union_Some; [| |done].
        -- exists i, x, pc. by rewrite lookup_insert_eq.
        -- destruct (Hsrc _ _ Hk) as (name & value & pc' & Hl & ? & ?).
           exists name, value, pc'. split; [|done].
           rewrite lookup_insert_ne; [done|]. intros ->. congruence.
    + rewrite decide_False by by intros [? _].
      right. left. split; [done|].
      assert (∃ k y z, pc !! k = Some y ∧ plain0 !! k = Some z) as (k & y & z & Hy & Hz).
      { by apply map_not_disjoint. }
      destruct (Hsrc _ _ Hz) as (name & value & pc' & Hl & Hp' & Hk').
      assert (name ≠ i) by (intros ->; congruence).
      exists i, x, pc, name, value, pc'. rewrite lookup_insert_eq.
      rewrite lookup_insert_ne by done. repeat split; [done..|].
      intros Hdd. by eapply (map_disjoint_spec pc pc').
Qed.

Lemma piece_leaf name (value : cfg_value A) :
  is_namespace value = false → piece name value = Ok {[name := value]}.
Proof. by destruct value. Qed.

Lemma piece_namespace name (sub : gmap string (cfg_value A)) :
  piece name (Namespace sub) = nested_namespace_to_plain_namespace (Namespace sub).
Proof. done. Qed.

Lemma plain_namespace_raises v :
  ∀ ns e, v = Namespace ns →
    nested_namespace_to_plain_namespace v = Raise e → e = AssertionError.
Proof.
  induction v as [a|d _|ns IH] using value_nested_ind; [done..|].
  intros ? e [= <-] Hr. pose proof (plain_fold ns) as Hf. rewrite Hr in Hf.
  destruct Hf as [(name & value & Hl & Hp)|[[-> _]|[-> _]]]; [|done..].
  destruct value as [a|d|sub]; [done..|].
  by eapply (IH _ _ Hl).
Qed.

Lemma plain_namespace_is_plain v :
  ∀ ns plain, v = Namespace ns →
    nested_namespace_to_plain_namespace v = Ok plain →
    map_Forall (λ _ x, is_namespace x = false) plain.
Proof.
  induction v as [a|d _|ns IH] using value_nested_ind; [done..|].
  intros ? plain [= <-] Hr. pose proof (plain_fold ns) as Hf. rewrite Hr in Hf.
  destruct Hf as (_ & _ & Hsrc & _). intros k x Hk.
  destruct (Hsrc _ _ Hk) as (name & value & pc & Hl & Hp & Hx).
  destruct value as [a|d|sub].
  - injection Hp as <-. apply lookup_singleton_Some in Hx as [_ <-]. done.
  - injection Hp as <-. apply lookup_singleton_Some in Hx as [_ <-]. done.
  - by eapply (IH _ _ Hl sub pc eq_refl Hp k x).
Qed.

Lemma plain_namespace_flat ns :
  map_Forall (λ _ x, is_namespace x = false) ns →
  own_names ns →
  nested_namespace_to_plain_namespace (Namespace ns) = Ok ns.
Proof.
  intros Hflat Hown. pose proof (plain_fold ns) as Hf.
  destruct (nested_namespace_to_plain_namespace (Namespace ns)) as [plain|e].
  - destruct Hf as (Hsub & _ & Hsrc & _). f_equal. apply map_eq. intros k.
    destruct (plain !! k) as [x|] eqn:Hk.
    + destruct (Hsrc _ _ Hk) as (name & value & pc & Hl & Hp & Hx).
      rewrite piece_leaf in Hp by by eapply Hflat. injection Hp as <-.
      apply lookup_singleton_Some in Hx as [<- <-]. done.
    + destruct (ns !! k) as [x|] eqn:Hl; [|done].
      destruct (Hsub _ _ Hl) as (pc & Hp & Hs).
      rewrite piece_leaf in Hp by by eapply Hflat. injection Hp as <-.
      apply map_singleton_subseteq_l in Hs. congruence.
  - exfalso. destruct Hf as [(name & value & Hl & Hp)|[(_ & n1 & v1 & p1 & n2 & v2 & p2 & Hne & H1 & H2 & Hp1 & Hp2 & Hnd)|(_ & name & value & pc & Hl & Hp & Hnown)]].
    + rewrite piece_leaf in Hp by by eapply Hflat. done.
    + rewrite piece_leaf in Hp1 by by eapply Hflat.
      rewrite piece_leaf in Hp2 by by eapply Hflat.
      injection Hp1 as <-. injection Hp2 as <-. apply Hnd.
      by apply map_disjoint_singleton_l, lookup_singleton_None.
    + rewrite piece_leaf in Hp by by eapply Hflat. injection Hp as <-.
      apply Hnown, own_names_singleton. by eapply Hown.
Qed.

(** Flattening returns a namespace without sub-namespaces, which
    flattening again leaves as it is. *)
Theorem plain_namespace_idempotent ns plain :
  nested_namespace_to_plain_namespace (Namespace ns) = Ok plain →
  map_Forall (λ _ x, is_namespace x = false) plain
  ∧ nested_namespace_to_plain_namespace (Namespace plain) = Ok plain.
Proof.
  intros Hr. assert (map_Forall (λ _ x, is_namespace x = false) plain) as Hp.
  { by eapply plain_namespace_is_plain. }
  split; [done|]. apply plain_namespace_flat; [done|].
  pose proof (plain_fold ns) as Hf. rewrite Hr in Hf.
  by destruct Hf as (_ & _ & _ & Hown).
Qed.

(** Every attribute that is not a namespace, at whatever depth,
    contributes its name: an attribute of the namespace that is not a
    namespace and an attribute of the same name inside one of its
    sub-namespaces fail the assertion of [setattr_safely]. *)
Theorem plain_namespace_conflict ns name v1 inner sub v2 :
  ns !! name = Some v1 → is_namespace v1 = false →
  ns !! inner = Some (Namespace sub) →
  sub !! name = Some v2 → is_namespace v2 = false →
  nested_namespace_to_plain_namespace (Namespace ns) = Raise AssertionError.
Proof.
  intros H1 Hv1 H2 Hs Hv2.
  destruct (nested_namespace_to_plain_namespace (Namespace ns)) as [plain|e] eqn:Hr.
  2:{ f_equal. by eapply plain_namespace_raises. }
  exfalso. pose proof (plain_fold ns) as Hf. rewrite Hr in Hf.
  destruct Hf as (Hsub & Hdis & _).
  destruct (Hsub _ _ H2) as (psub & Hp2 & _).
  assert (name ≠ inner) as Hne by (intros ->; rewrite H1 in H2; by simplify_eq).
  pose proof (Hdis _ _ _ _ _ _ Hne H1 H2 (piece_leaf _ _ Hv1) Hp2) as Hd.
  apply map_disjoint_singleton_l in Hd.
  rewrite piece_namespace in Hp2.
  pose proof (plain_fold sub) as Hf. rewrite Hp2 in Hf.
  destruct Hf as (Hsub' & _ & _).
  destruct (Hsub' _ _ Hs) as (pc & Hpc & Hin).
  rewrite piece_leaf in Hpc by done. injection Hpc as <-.
  apply map_singleton_subseteq_l in Hin. congruence.
Qed.

(** A name that comes with the class fails the assertion too:
    [hasattr] finds [__dict__] or [_get_kwargs] on the empty plain
    namespace already. *)
Lemma plain_namespace_class_attr ns name value :
  ns !! name = Some value → is_namespace value = false →
  class_attr name = true →
  nested_namespace_to_plain_namespace (Namespace ns) = Raise AssertionError.
Proof.
  intros Hl Hv Hc.
  destruct (nested_namespace_to_plain_namespace (Namespace ns)) as [plain|e] eqn:Hr.
  2:{ f_equal. by eapply plain_namespace_raises. }
  exfalso. pose proof (plain_fold ns) as Hf. rewrite Hr in Hf.
  destruct Hf as (Hsub & _ & _ & Hown).
  destruct (Hsub _ _ Hl) as (pc & Hpc & Hin).
  rewrite piece_leaf in Hpc by done. injection Hpc as <-.
  apply map_singleton_subseteq_l in Hin.
  specialize (Hown _ _ Hin). cbn in Hown. congruence.
Qed.

(** On success the plain namespace holds exactly what the attributes
    contribute: an attribute that is not a namespace itself, a
    sub-namespace its own flattening. *)
Theorem plain_namespace_contents ns plain k x :
  nested_namespace_to_plain_namespace (Namespace ns) = Ok plain →
  plain !! k = Some x ↔
  ∃ name value pc, ns !! name = Some value ∧ piece name value = Ok pc
                   ∧ pc !! k = Some x.
Proof.
  intros Hr. pose proof (plain_fold ns) as Hf. rewrite Hr in Hf.
  destruct Hf as (Hsub & _ & Hsrc & _). split; [apply Hsrc|].
  intros (name & value & pc & Hl & Hp & Hx).
  destruct (Hsub _ _ Hl) as (pc' & Hp' & Hs). rewrite Hp in Hp'.
  injection Hp' as <-. by eapply lookup_weaken.
Qed.
End Facts.

Lemma plain_namespace_idempotent_witness :
  nested_namespace_to_plain_namespace Inputs.namespace_class_attr
    (Namespace Inputs.cfg_base_example)
  = Ok Inputs.cfg_plain_example
  ∧ map_Forall (λ _ x, is_namespace x = false) Inputs.cfg_plain_example
  ∧ nested_namespace_to_plain_namespace Inputs.namespace_class_attr
      (Namespace Inputs.cfg_plain_example)
    = Ok Inputs.cfg_plain_example.
Proof.
  split; [vm_compute; reflexivity|].
  apply (plain_namespace_idempotent Inputs.namespace_class_attr
           Inputs.cfg_base_example).
  vm_compute; reflexivity.
Defined.

Lemma plain_namespace_conflict_witness :
  nested_namespace_to_plain_namespace Inputs.namespace_class_attr
    (Namespace Inputs.cfg_epochs_twice)
  = Raise AssertionError.
Proof.
  apply (plain_namespace_conflict _ _ "epochs" (Leaf 1) "trainer"
           {["epochs" := Leaf 20]} (Leaf 20));
    vm_compute; reflexivity.
Defined.

Lemma plain_namespace_contents_witness :
  Inputs.cfg_plain_example !! "lr" = Some (Leaf 3)
  ↔ ∃ name value pc,
      Inputs.cfg_base_example !! name = Some value
      ∧ piece Inputs.namespace_class_attr name value = Ok pc
      ∧ pc !! "lr" = Some (Leaf 3).
Proof.
  apply plain_namespace_contents. vm_compute; reflexivity.
Defined.

End PlainNamespaceFacts.

Module DistMiscFacts.
Import Py DistMisc.

Lemma not_initialized_guard d :
  dist_is_available d = false ∨ dist_group d = None →
  is_dist_avail_and_initialized d = false.
Proof.
  unfold is_dist_avail_and_initialized, dist_is_initialized.
  intros [-> | ->]; [done | by destruct (dist_is_available d)].
Qed.

Lemma get_world_size_group d g :
  dist_is_available d = true → dist_group d = Some g →
  get_world_size d = Z.of_nat (pg_world_size g).
Proof.
  intros Ha Hg.
  unfold get_world_size, is_dist_avail_and_initialized, dist_is_initialized,
    dist_get_world_size.
  by rewrite Ha, Hg.
Qed.

(** C7. Without an initialised process group (package unavailable, or
    available but not initialised) the world size is 1, the rank is 0 and
    the process is the main one; and in every state the process is the main
    one exactly when its rank is 0. *)
Theorem single_process_defaults (d : dist) :
  (dist_is_available d = false ∨ dist_group d = None →
     get_world_size d = 1 ∧ get_rank d = 0 ∧ is_main_process d = true)
  ∧ (is_main_process d = true ↔ get_rank d = 0).
Proof.
  split.
  - intros Hd. apply not_initialized_guard in Hd.
    unfold is_main_process, get_world_size, get_rank. rewrite Hd.
    by rewrite bool_decide_eq_true.
  - unfold is_main_process. apply bool_decide_eq_true.
Qed.

Lemma single_process_defaults_witness :
  get_world_size Inputs.no_dist = 1
  ∧ get_rank Inputs.no_dist = 0
  ∧ is_main_process Inputs.no_dist = true.
Proof.
  apply (proj1 (single_process_defaults Inputs.no_dist)). by left.
Defined.

End DistMiscFacts.

Module ReduceFacts.
Import Py PyFacts Torch DistMisc.

Section Reduce.
Context `{Elem T}.
Implicit Types (t : tensor T) (h : gmap nat (tensor T)).

Lemma reduce_sum_single d peers l h :
  get_world_size d < 2 → reduce_sum d peers l h = (Ok l, h).
Proof. intros Hws. unfold reduce_sum. by rewrite bool_decide_true. Qed.

Lemma reduce_sum_group d peers l h t :
  2 ≤ get_world_size d → h !! l = Some t →
  reduce_sum d peers l h =
    match collective d peers t ≫= reduce_op_sum with
    | Ok total => (Ok (fresh (dom h)), <[fresh (dom h) := total]> h)
    | Raise e => (Raise e, <[fresh (dom h) := t]> h)
    end.
Proof.
  intros Hws Hl. unfold reduce_sum. rewrite bool_decide_false by lia.
  run_stateful. unfold getitem_ref. rewrite Hl.
  destruct (result_bind _ _ _ _); [|done].
  by rewrite insert_insert_eq.
Qed.

Lemma reduce_sum_extends d peers l h t r h' :
  h !! l = Some t → reduce_sum d peers l h = (r, h') → h ⊆ h'.
Proof.
  intros Hl. destruct (decide (get_world_size d < 2)) as [Hws|Hws].
  - rewrite reduce_sum_single by done. by intros [= _ <-].
  - rewrite (reduce_sum_group _ _ _ _ t) by (done || lia).
    destruct (collective d peers t ≫= reduce_op_sum);
      intros [= _ <-]; apply alloc_extends.
Qed.

(** C9. [reduce_sum] hands back the very tensor it was given when the
    world has fewer than two processes, and otherwise a fresh clone
    overwritten by the [SUM] all-reduce; the store it leaves extends the
    one it found, so the input tensor keeps its value.  Whenever
    [reduce_sum] returns a total, [reduce_mean] returns a fresh tensor
    holding that total cast to float and divided by the world size, and
    it leaves the input tensor untouched as well. *)
Theorem reduce_mean_scales_reduce_sum d peers l h t :
  h !! l = Some t →
  (get_world_size d < 2 → reduce_sum d peers l h = (Ok l, h))
  ∧ (2 ≤ get_world_size d →
       h !! fresh (dom h) = None
       ∧ reduce_sum d peers l h =
           match collective d peers t ≫= reduce_op_sum with
           | Ok total => (Ok (fresh (dom h)), <[fresh (dom h) := total]> h)
           | Raise e => (Raise e, <[fresh (dom h) := t]> h)
           end)
  ∧ (∀ r h', reduce_sum d peers l h = (r, h') → h' !! l = Some t)
  ∧ (∀ total h1 s,
       reduce_sum d peers l h = (Ok total, h1) → h1 !! total = Some s →
       ∃ mean,
         h1 !! mean = None
         ∧ reduce_mean d peers l h
           = (Ok mean, <[mean := tdiv (tfloat s) (get_world_size d)]> h1))
  ∧ (∀ r h', reduce_mean d peers l h = (r, h') → h' !! l = Some t).
Proof.
  intros Hl. split_and!.
  - apply reduce_sum_single.
  - intros Hws. split; [apply fresh_unused|by apply reduce_sum_group].
  - intros r h' Hrun. eapply lookup_weaken; [done|].
    by eapply reduce_sum_extends.
  - intros total h1 s Hrun Hs. exists (fresh (dom h1)).
    split; [apply fresh_unused|].
    unfold reduce_mean. run_stateful. rewrite Hrun.
    unfold getitem_ref. by rewrite Hs.
  - intros r h'. unfold reduce_mean. run_stateful.
    destruct (reduce_sum d peers l h) as [[total|e] h1] eqn:Hrun.
    + pose proof (reduce_sum_extends _ _ _ _ _ _ _ Hl Hrun) as Hext.
      unfold getitem_ref. destruct (h1 !! total) as [s|]; intros [= _ <-].
      * eapply lookup_weaken; [|apply alloc_extends].
        by eapply lookup_weaken.
      * by eapply lookup_weaken.
    + intros [= _ <-]. eapply lookup_weaken; [done|].
      by eapply reduce_sum_extends.
Qed.
End Reduce.

Lemma reduce_mean_scales_reduce_sum_witness :
  (reduce_sum Inputs.rank1_of_2 Inputs.peer_tensors 0 Inputs.tensor_store).2
    !! 0%nat = Some Inputs.local_tensor
  ∧ (reduce_mean Inputs.rank1_of_2 Inputs.peer_tensors 0 Inputs.tensor_store).2
    !! 0%nat = Some Inputs.local_tensor.
Proof.
  destruct (reduce_mean_scales_reduce_sum Inputs.rank1_of_2
              Inputs.peer_tensors 0 Inputs.tensor_store Inputs.local_tensor)
    as (_ & _ & Hsum & _ & Hmean); [reflexivity|].
  split; [eapply Hsum|eapply Hmean]; apply surjective_pairing.
Defined.
End ReduceFacts.

Module StrOrderFacts.
Import Py Torch DistMisc.

Lemma ascii_compare_N a b :
  Ascii.compare a b = (N_of_ascii a ?= N_of_ascii b)%N.
Proof. reflexivity. Qed.

Lemma ascii_compare_lt_trans a b c :
  Ascii.compare a b = Lt → Ascii.compare b c = Lt → Ascii.compare a c = Lt.
Proof.
  rewrite !ascii_compare_N, !N.compare_lt_iff. apply N.lt_trans.
Qed.

Lemma string_compare_refl s : String.compare s s = Eq.
Proof.
  induction s as [|c s IH]; [done|]. simpl.
  by rewrite ascii_compare_N, N.compare_refl.
Qed.

Lemma string_compare_lt_trans s1 s2 s3 :
  String.compare s1 s2 = Lt → String.compare s2 s3 = Lt →
  String.compare s1 s3 = Lt.
Proof.
  revert s2 s3. induction s1 as [|c1 s1 IH]; intros [|c2 s2] [|c3 s3]; try done.
  simpl.
  destruct (Ascii.compare c1 c2) eqn:H12; [|clear IH|done].
  - apply Ascii.compare_eq_iff in H12 as ->.
    destruct (Ascii.compare c2 c3); [apply IH|done|done].
  - intros _. destruct (Ascii.compare c2 c3) eqn:H23; [| |done].
    + apply Ascii.compare_eq_iff in H23 as <-. by rewrite H12.
    + by rewrite (ascii_compare_lt_trans _ _ _ H12 H23).
Qed.

Lemma str_le_lt_or_eq a b : str_le a b ↔ String.compare a b = Lt ∨ a = b.
Proof.
  unfold str_le, String.leb. split.
  - destruct (String.compare a b) eqn:Hc; [|by left|done].
    right. by apply String.compare_eq_iff.
  - intros [Hlt|Heq]; [by rewrite Hlt|]. subst. by rewrite string_compare_refl.
Qed.

#[global] Instance str_le_trans : Transitive str_le.
Proof.
  intros a b c. rewrite !str_le_lt_or_eq.
  intros [Hab|Hab] [Hbc|Hbc]; subst; eauto using string_compare_lt_trans.
Qed.

#[global] Instance str_le_total : Total str_le.
Proof. intros a b. apply String.leb_total. Qed.

#[global] Instance str_le_antisym : AntiSymm eq str_le.
Proof. intros a b. apply String.leb_antisym. Qed.

(** Sorting the keys erases the insertion order. *)
Lemma sorted_keys_perm `{Elem T} (d1 d2 : list (string * tensor T)) :
  d1.*1 ≡ₚ d2.*1 → sorted_keys d1 = sorted_keys d2.
Proof.
  intros Hperm. unfold sorted_keys.
  apply (Sorted_unique str_le); [apply Sorted_merge_sort, _..|].
  by rewrite !merge_sort_Permutation.
Qed.
End StrOrderFacts.

Module ReduceDictFacts.
Import Py PyFacts Torch DistMisc DistMiscFacts StrOrderFacts.

Section ReduceDict.
Context `{Elem T} `{Dtype T}.
Implicit Types (t : tensor T) (p dict : list (string * tensor T))
  (world : list (list (string * tensor T))) (names : list string).

Lemma assoc_is_Some p k : k ∈ p.*1 → is_Some (assoc p k).
Proof.
  induction p as [|[k' t] p IH]; simpl; [by intros ?%elem_of_nil|].
  case_decide; [by eauto|]. intros [?|?]%elem_of_cons; [done|by apply IH].
Qed.

Lemma assoc_elem_of p k t : assoc p k = Some t → (k, t) ∈ p.
Proof.
  induction p as [|[k' t'] p IH]; simpl; [done|].
  case_decide; [intros [= ->]; subst; by left|]. intros ?. right. by apply IH.
Qed.

Lemma getitem_names p names :
  names ⊆ p.*1 → mapM (getitem_assoc p) names = Ok (item p <$> names).
Proof.
  intros Hsub. apply mapM_ok. intros k Hk.
  destruct (assoc_is_Some p k) as [t Ht]; [set_solver|].
  unfold getitem_assoc, item. by rewrite Ht.
Qed.

Lemma same_shape_items sh t0 p names :
  shape t0 = sh →
  Forall (λ kt, shape kt.2 = sh) p → names ⊆ p.*1 →
  same_shape t0 (item p <$> names) = true.
Proof.
  intros Ht0 Hp Hsub. unfold same_shape. apply forallb_forall.
  intros t [k [<- Hk]]%in_map_iff. apply bool_decide_eq_true.
  apply list_elem_of_In in Hk.
  destruct (assoc_is_Some p k) as [t Ht]; [set_solver|].
  unfold item. rewrite Ht. simpl.
  apply assoc_elem_of in Ht. rewrite Forall_forall in Hp.
  rewrite Ht0. apply (Hp _ Ht).
Qed.

Lemma stacked_values_items sh p names :
  names ≠ [] → sorted_keys p = names →
  Forall (λ kt, shape kt.2 = sh) p →
  stacked_values p = Ok (TStack (item p <$> names))
  ∧ shape (TStack (item p <$> names)) = length names :: sh.
Proof.
  intros Hne Hnames Hp.
  assert (names ⊆ p.*1) as Hsub.
  { rewrite <-Hnames. unfold sorted_keys.
    intros k. by rewrite merge_sort_Permutation. }
  unfold stacked_values. rewrite Hnames, getitem_names by done.
  destruct names as [|k names]; [done|].
  assert (shape (item p k) = sh) as Hk.
  { destruct (assoc_is_Some p k) as [t Ht]; [set_solver|].
    unfold item. rewrite Ht. simpl.
    apply assoc_elem_of in Ht. rewrite Forall_forall in Hp.
    apply (Hp _ Ht). }
  simpl. unfold stack.
  rewrite (same_shape_items sh) by (done || set_solver).
  by rewrite length_fmap, Hk.
Qed.

Lemma zip_with_fmap_same {A B C D} (g : B → C → D) (f1 : A → B) (f2 : A → C)
    (xs : list A) :
  zip_with g (f1 <$> xs) (f2 <$> xs) = (λ x, g (f1 x) (f2 x)) <$> xs.
Proof. induction xs as [|x xs IH]; [done|]. csimpl. by rewrite IH. Qed.

(** Adding stacks row by row: the row of a key is the sum of the rows
    of that key. *)
Lemma foldl_tadd_stack (f0 : string → tensor T) names world :
  foldl tadd (TStack (f0 <$> names))
    ((λ p, TStack (item p <$> names)) <$> world)
  = TStack ((λ k, foldl tadd (f0 k) ((λ p, item p k) <$> world)) <$> names).
Proof.
  revert f0. induction world as [|p world IH]; intros f0; [done|].
  csimpl. unfold tadd at 2. cbn [tzip].
  rewrite zip_with_fmap_same. apply IH.
Qed.

Lemma zip_fmap_names {B} (F : string → B) names :
  zip names (F <$> names) = (λ k, (k, F k)) <$> names.
Proof. induction names as [|k names IH]; [done|]. csimpl. by rewrite IH. Qed.

Lemma assoc_fmap_names {B} (F : string → B) names k :
  k ∈ names → assoc ((λ k, (k, F k)) <$> names) k = Some (F k).
Proof.
  induction names as [|k' names IH]; [by intros ?%elem_of_nil|].
  csimpl. case_decide; [by subst|].
  intros [?|?]%elem_of_cons; [done|by apply IH].
Qed.

Lemma Forall2_item world k :
  Forall (λ p, k ∈ p.*1) world →
  Forall2 (λ p t, assoc p k = Some t) world ((λ p, item p k) <$> world).
Proof.
  induction 1 as [|p world Hp _ IH]; [constructor|].
  csimpl. constructor; [|done].
  destruct (assoc_is_Some p k Hp) as [t Ht]. unfold item. by rewrite Ht.
Qed.

Lemma item_shape sh p k :
  Forall (λ kt, shape kt.2 = sh) p → k ∈ p.*1 → shape (item p k) = sh.
Proof.
  intros Hp Hk. destruct (assoc_is_Some p k Hk) as [t Ht].
  unfold item. rewrite Ht. simpl.
  apply assoc_elem_of in Ht. rewrite Forall_forall in Hp. apply (Hp _ Ht).
Qed.

Lemma reduce_dict_single d peers average l h :
  get_world_size d < 2 → reduce_dict d peers average l h = (Ok l, h).
Proof. intros Hws. unfold reduce_dict. by rewrite bool_decide_true. Qed.

Lemma reduce_dict_group d g peers average l h dict sh :
  h !! l = Some dict →
  dist_is_available d = true → dist_group d = Some g →
  (2 ≤ pg_world_size g)%nat → (pg_rank g < pg_world_size g)%nat →
  length peers = pg_world_size g →
  dict ≠ [] →
  let world := <[pg_rank g := dict]> peers in
  Forall (λ p, p.*1 ≡ₚ dict.*1 ∧ Forall (λ kt, shape kt.2 = sh) p) world →
  ∃ reduced,
    reduce_dict d peers average l h
    = (if average && negb can_cast_float
       then (Raise RuntimeError, h)
       else (Ok (fresh (dom h)), <[fresh (dom h) := reduced]> h))
    ∧ reduced.*1 ≡ₚ dict.*1
    ∧ ∀ k, k ∈ dict.*1 →
        ∃ ts total,
          Forall2 (λ p t, assoc p k = Some t) world ts
          ∧ reduce_op_sum ts = Ok total
          ∧ assoc reduced k
            = Some (if average
                    then tdiv total (Z.of_nat (pg_world_size g))
                    else total).
Proof.
  intros Hl Ha Hg Hws Hrank Hlen Hne world Hworld.
  set (names := sorted_keys dict).
  assert (names ≡ₚ dict.*1) as Hnames by apply merge_sort_Permutation.
  assert (names ≠ []) as Hnames_ne.
  { intros Hnil. rewrite Hnil in Hnames. apply Permutation_nil_l in Hnames.
    by destruct dict. }
  assert (world !! pg_rank g = Some dict) as Hown.
  { apply list_lookup_insert_eq. lia. }
  assert (∀ p, p ∈ world →
            stacked_values p = Ok (TStack (item p <$> names))
            ∧ shape (TStack (item p <$> names)) = length names :: sh
            ∧ names ⊆ p.*1 ∧ Forall (λ kt, shape kt.2 = sh) p) as Hstacked.
  { intros p Hp. rewrite Forall_forall in Hworld.
    destruct (Hworld p Hp) as [Hperm Hsh].
    destruct (stacked_values_items sh p names) as [? ?];
      [done|by apply sorted_keys_perm|done|].
    split_and!; [done..| |done].
    intros k. by rewrite Hnames, Hperm. }
  destruct world as [|p0 ps] eqn:Hw; [done|].
  set (colsum := λ k, foldl tadd (item p0 k) ((λ p, item p k) <$> ps)).
  set (F := λ k, if average
                 then tdiv (colsum k) (Z.of_nat (pg_world_size g))
                 else colsum k).
  assert (∀ k, k ∈ names →
            reduce_op_sum ((λ p, item p k) <$> p0 :: ps) = Ok (colsum k))
    as Hcol.
  { intros k Hk. csimpl. unfold reduce_op_sum.
    assert (same_shape (item p0 k) ((λ p, item p k) <$> ps) = true) as ->; [|done].
    unfold same_shape. apply forallb_forall.
    intros t [p [<- Hp]]%in_map_iff. apply bool_decide_eq_true.
    apply list_elem_of_In in Hp.
    destruct (Hstacked p0) as (_ & _ & Hs0 & Hsh0); [by left|].
    destruct (Hstacked p) as (_ & _ & Hs & Hsh); [by right|].
    rewrite (item_shape sh p0), (item_shape sh p); auto. }
  exists ((λ k, (k, F k)) <$> names). split_and!.
  - unfold reduce_dict.
    rewrite (get_world_size_group d g) by done.
    rewrite bool_decide_false by lia.
    run_stateful. unfold getitem_ref. rewrite Hl.
    destruct (Hstacked dict) as (-> & _); [by eapply list_elem_of_lookup_2|].
    unfold collective. rewrite Hg, bool_decide_true by done.
    fold world. rewrite Hw.
    cbv [mbind result_bind bind].
    rewrite (mapM_ok stacked_values (λ p, TStack (item p <$> names)))
      by (intros p Hp; by destruct (Hstacked p Hp) as (-> & _)).
    csimpl. unfold reduce_op_sum.
    assert (same_shape (TStack (item p0 <$> names))
              ((λ p, TStack (item p <$> names)) <$> ps) = true) as ->.
    { unfold same_shape. apply forallb_forall.
      intros t [p [<- Hp]]%in_map_iff. apply bool_decide_eq_true.
      apply list_elem_of_In in Hp.
      destruct (Hstacked p0) as (_ & -> & _); [by left|].
      by destruct (Hstacked p) as (_ & -> & _); [by right|]. }
    rewrite foldl_tadd_stack. fold colsum.
    destruct (average && negb can_cast_float) eqn:Hraise.
    { apply andb_true_iff in Hraise as [-> Hcast%negb_true_iff].
      unfold div_. by rewrite Hcast. }
    assert ((if average
             then div_ (TStack (colsum <$> names)) (Z.of_nat (pg_world_size g))
             else Ok (TStack (colsum <$> names)))
            = Ok (TStack (F <$> names))) as ->.
    { unfold F, div_. destruct average; [|done].
      apply negb_false_iff in Hraise. rewrite Hraise.
      unfold tdiv. cbn [tmap]. do 2 f_equal. by rewrite <-list_fmap_compose. }
    cbn [iter_rows]. fold names. by rewrite zip_fmap_names.
  - by rewrite <-list_fmap_compose, list_fmap_id.
  - intros k Hk. rewrite <-Hnames in Hk.
    exists ((λ p, item p k) <$> p0 :: ps), (colsum k). split_and!.
    + apply Forall2_item. apply Forall_forall. intros p Hp.
      destruct (Hstacked p Hp) as (_ & _ & Hsub & _). by apply Hsub.
    + by apply Hcol.
    + by apply assoc_fmap_names.
Qed.

(** C2 (amended). [reduce_dict] returns the input dict itself, and leaves
    the store alone, when the world has fewer than two processes.  In a
    group of at least two, for a non-empty dict, when the dicts of all
    ranks have exactly its keys (in any insertion order) and tensors
    of one shape, of a dtype that holds floats if [average] is set, it
    returns a new dict with the keys of the input, and the value at
    each key is that key's tensors summed over the ranks, divided by
    the world size exactly when [average] is set. *)
Theorem reduce_dict_sums_per_key d g peers average l h dict sh :
  h !! l = Some dict →
  (get_world_size d < 2 → reduce_dict d peers average l h = (Ok l, h))
  ∧ (dist_is_available d = true → dist_group d = Some g →
     (2 ≤ pg_world_size g)%nat → (pg_rank g < pg_world_size g)%nat →
     length peers = pg_world_size g →
     dict ≠ [] →
     (average = true → can_cast_float = true) →
     let world := <[pg_rank g := dict]> peers in
     Forall (λ p, p.*1 ≡ₚ dict.*1 ∧ Forall (λ kt, shape kt.2 = sh) p) world →
     ∃ reduced,
       h !! fresh (dom h) = None
       ∧ reduce_dict d peers average l h
         = (Ok (fresh (dom h)), <[fresh (dom h) := reduced]> h)
       ∧ reduced.*1 ≡ₚ dict.*1
       ∧ ∀ k, k ∈ dict.*1 →
           ∃ ts total,
             Forall2 (λ p t, assoc p k = Some t) world ts
             ∧ reduce_op_sum ts = Ok total
             ∧ assoc reduced k
               = Some (if average
                       then tdiv total (Z.of_nat (pg_world_size g))
                       else total)).
Proof.
  intros Hl. split; [apply reduce_dict_single|].
  intros Ha Hg Hws Hrank Hlen Hne Hfloat world Hworld.
  destruct (reduce_dict_group d g peers average l h dict sh)
    as (reduced & Hrun & ? & ?); [done..|].
  assert (average && negb can_cast_float = false) as Hcast.
  { destruct average; [|done]. by rewrite Hfloat. }
  rewrite Hcast in Hrun.
  exists reduced. split_and!; [apply fresh_unused|done..].
Qed.

(** The average of tensors that cannot hold a float, integers say: the
    sum over the ranks is taken, the division in place raises, and no
    dict is made. *)
Lemma reduce_dict_average_raises d g peers l h dict sh :
  h !! l = Some dict →
  dist_is_available d = true → dist_group d = Some g →
  (2 ≤ pg_world_size g)%nat → (pg_rank g < pg_world_size g)%nat →
  length peers = pg_world_size g →
  dict ≠ [] →
  can_cast_float = false →
  Forall (λ p, p.*1 ≡ₚ dict.*1 ∧ Forall (λ kt, shape kt.2 = sh) p)
    (<[pg_rank g := dict]> peers) →
  reduce_dict d peers true l h = (Raise RuntimeError, h).
Proof.
  intros Hl Ha Hg Hws Hrank Hlen Hne Hcast Hworld.
  destruct (reduce_dict_group d g peers true l h dict sh)
    as (reduced & Hrun & _); [done..|].
  by rewrite Hcast in Hrun.
Qed.
End ReduceDict.

Lemma reduce_dict_sums_per_key_witness :
  ∃ reduced,
    Inputs.dict_store !! fresh (dom Inputs.dict_store) = None
    ∧ reduce_dict Inputs.rank1_of_2 [Inputs.losses_rank0; []] true 0
        Inputs.dict_store
      = (Ok (fresh (dom Inputs.dict_store)),
         <[fresh (dom Inputs.dict_store) := reduced]> Inputs.dict_store)
    ∧ reduced.*1 ≡ₚ Inputs.losses_rank1.*1
    ∧ ∀ k, k ∈ Inputs.losses_rank1.*1 →
        ∃ ts total,
          Forall2 (λ p t, assoc p k = Some t)
            [Inputs.losses_rank0; Inputs.losses_rank1] ts
          ∧ reduce_op_sum ts = Ok total
          ∧ assoc reduced k = Some (tdiv total 2).
Proof.
  apply (proj2 (reduce_dict_sums_per_key Inputs.rank1_of_2
                  (ProcessGroup 1 2) [Inputs.losses_rank0; []] true 0
                  Inputs.dict_store Inputs.losses_rank1 [] eq_refl));
    [reflexivity|reflexivity|simpl; lia|simpl; lia|reflexivity|done
    |reflexivity|].
  repeat constructor.
Defined.

(** C2, the claim as stated fails: on rank 1 of 2 the empty dict makes
    [torch.stack] refuse the empty list of values, and [reduce_dict]
    raises instead of returning a new dict with the (empty) key set. *)
Lemma reduce_dict_empty_dict_raises :
  2 ≤ get_world_size Inputs.rank1_of_2
  ∧ reduce_dict (T := Q) Inputs.rank1_of_2 [[]; []] true 0 {[ 0%nat := [] ]}
    = (Raise RuntimeError, {[ 0%nat := [] ]}).
Proof. split; [by vm_compute|]. vm_compute. reflexivity. Qed.
End ReduceDictFacts.

Module GatherFacts.
Import Py PyFacts Torch DistMisc DistMiscFacts.

Section Gather.
Context {Data : Type}.
Context (dumps : Data → list byte) (loads : list byte → result Data).
Context (uninitialized : nat → nat → byte).

(** Cutting the gathered buffer back to the transmitted size gives the
    pickle. *)
Lemma take_padded rank data max_size :
  take (length (dumps data)) (padded dumps uninitialized rank data max_size)
  = dumps data.
Proof.
  unfold padded. case_bool_decide.
  - by rewrite take_app_length.
  - by rewrite firstn_all.
Qed.

Lemma length_padded rank data max_size :
  (length (dumps data) ≤ max_size)%nat →
  length (padded dumps uninitialized rank data max_size) = max_size.
Proof.
  intros Hle. unfold padded. case_bool_decide as Hne.
  - rewrite length_app, length_fmap, length_seq. lia.
  - done.
Qed.

Lemma unpickle_all {B} (f : Data → nat) (g : nat → Data → B)
    (h : nat * B → result Data) (l : list Data) :
  (∀ i x, l !! i = Some x → h (f x, g i x) = Ok x) →
  mapM h (zip (f <$> l) (imap g l)) = Ok l.
Proof.
  revert g. induction l as [|x l IH]; intros g Hh; [done|].
  rewrite fmap_cons, imap_cons.
  change (mapM h (zip (f x :: (f <$> l)) (g 0%nat x :: imap (g ∘ S) l)))
    with (y ← h (f x, g 0%nat x);
          ys ← mapM h (zip (f <$> l) (imap (g ∘ S) l)); Ok (y :: ys)).
  rewrite (Hh 0%nat x eq_refl), IH; [done|].
  intros i y Hy. apply (Hh (S i) y Hy).
Qed.

(** C5. With a world of one process [all_gather] returns [[data]]
    without pickling anything.  In a group of at least two, when every
    rank's input survives a pickle round trip, the result is the list of
    the ranks' inputs in rank order, as long as the world, because each
    gathered buffer cut to its rank's size is that rank's pickle. *)
Theorem all_gather_returns_inputs d g peers data :
  (get_world_size d = 1 →
     all_gather dumps loads uninitialized d peers data = Ok [data])
  ∧ (dist_is_available d = true → dist_group d = Some g →
     (2 ≤ pg_world_size g)%nat → (pg_rank g < pg_world_size g)%nat →
     length peers = pg_world_size g →
     let world := <[pg_rank g := data]> peers in
     Forall (λ p, loads (dumps p) = Ok p) world →
     all_gather dumps loads uninitialized d peers data = Ok world
     ∧ length world = pg_world_size g
     ∧ world !! pg_rank g = Some data
     ∧ ∀ rank p max_size,
         take (length (dumps p)) (padded dumps uninitialized rank p max_size)
         = dumps p).
Proof.
  split.
  - intros Hws. unfold all_gather. by rewrite bool_decide_true.
  - intros Ha Hg Hws Hrank Hlen world Hpickle.
    split_and!.
    + unfold all_gather. rewrite (get_world_size_group d g) by done.
      rewrite bool_decide_false by lia.
      unfold collective. rewrite Hg, bool_decide_true by done.
      cbv [mbind result_bind bind]. fold world.
      apply unpickle_all. intros i p Hp. rewrite take_padded.
      rewrite Forall_forall in Hpickle. apply Hpickle.
      by eapply list_elem_of_lookup_2.
    + unfold world. by rewrite length_insert.
    + apply list_lookup_insert_eq. lia.
    + intros. apply take_padded.
Qed.
End Gather.

Lemma all_gather_returns_inputs_witness :
  all_gather Inputs.dumps_str Inputs.loads_str Inputs.zero_memory
    Inputs.rank1_of_2 ["a"; "longer"] "mid"
  = Ok ["a"; "mid"].
Proof.
  apply (proj2 (all_gather_returns_inputs Inputs.dumps_str Inputs.loads_str
                  Inputs.zero_memory Inputs.rank1_of_2 (ProcessGroup 1 2)
                  ["a"; "longer"] "mid"));
    [reflexivity|reflexivity|simpl; lia|simpl; lia|reflexivity|].
  repeat constructor.
Defined.
End GatherFacts.

Module InitFacts.
Import Py PyFacts Torch DistMisc.

Section Init.
Context (int : string → result Z).
Context (device_count : Z).
Context (set_device : Z → result unit).
Context (init_process_group : string → string → Z → Z → result process_group).

#[local] Abbreviation init := (init_distributed_mode int device_count set_device init_process_group).
#[local] Abbreviation tail := (init_distributed_tail set_device init_process_group).

(** The tail sets the two attributes before it calls the framework. *)
Lemma init_distributed_tail_cfg p w b :
  env_world_size (proc_cfg p) = Some w →
  data_batch_size_per_rank (proc_cfg p) = b →
  let c' := proc_cfg (tail p).2 in
  env_distributed c' = Some true
  ∧ env_world_size c' = Some w
  ∧ data_batch_size_total c' = Some (b * w).
Proof.
  intros Hw <-. unfold init_distributed_tail, update_cfg, get_cfg,
    setup_for_distributed.
  run_stateful. cbn. rewrite Hw. cbn.
  destruct (env_gpu (proc_cfg p)) as [gpu|]; cbn; [|done].
  destruct (set_device gpu); cbn; [|done].
  destruct (env_rank (proc_cfg p)) as [rank|]; cbn; [|done].
  by destruct (init_process_group _ _ _ _).
Qed.

Lemma is_Some_bool {V} (o : option V) :
  bool_decide (is_Some o) = match o with Some _ => true | None => false end.
Proof. destruct o; [by rewrite bool_decide_true|]. apply bool_decide_false, is_Some_None. Qed.

(** C6 (amended). Without both RANK and WORLD_SIZE and without a usable
    SLURM_PROCID, [init_distributed_mode] returns after setting
    [distributed] to false and [batch_size_total] to
    [batch_size_per_rank], and leaves the process group alone.  With
    RANK and WORLD_SIZE, when these and LOCAL_RANK are integers, and
    with a usable SLURM_PROCID that is an integer, at least one CUDA
    device and [cfg.env.world_size] already set, it sets [distributed]
    to true and [batch_size_total] to [batch_size_per_rank] times
    [cfg.env.world_size], whatever the framework calls that follow
    do. *)
Theorem init_distributed_mode_batch_size environ p :
  let launcher :=
    is_Some (environ !! "RANK") ∧ is_Some (environ !! "WORLD_SIZE") in
  let slurm :=
    is_Some (environ !! "SLURM_PROCID") ∧ environ !! "SLURM_PTY_PORT" = None in
  let c := proc_cfg p in
  let c' := proc_cfg (init environ p).2 in
  (¬ launcher → ¬ slurm →
     init environ p
     = (Ok (),
        Process
          (set_data_batch_size_total (data_batch_size_per_rank c)
             (set_env_distributed false c))
          (proc_dist p) (proc_cuda_device p) (proc_print_master p)))
  ∧ (launcher →
     ∀ rank world_size gpu,
       getitem environ "RANK" ≫= int = Ok rank →
       getitem environ "WORLD_SIZE" ≫= int = Ok world_size →
       getitem environ "LOCAL_RANK" ≫= int = Ok gpu →
       env_distributed c' = Some true
       ∧ env_world_size c' = Some world_size
       ∧ data_batch_size_total c'
         = Some (data_batch_size_per_rank c * world_size))
  ∧ (¬ launcher → slurm →
     ∀ rank world_size,
       getitem environ "SLURM_PROCID" ≫= int = Ok rank →
       device_count ≠ 0 →
       env_world_size c = Some world_size →
       env_distributed c' = Some true
       ∧ env_world_size c' = Some world_size
       ∧ data_batch_size_total c'
         = Some (data_batch_size_per_rank c * world_size)).
Proof.
  cbv zeta. unfold init_distributed_mode. rewrite !is_Some_bool.
  split_and!.
  - intros Hl Hs.
    destruct (environ !! "RANK"), (environ !! "WORLD_SIZE");
      try (exfalso; apply Hl; by eauto); cbn [andb];
      destruct (environ !! "SLURM_PROCID"), (environ !! "SLURM_PTY_PORT");
      try (exfalso; apply Hs; by eauto); reflexivity.
  - intros [[sr Hr] [sw Hw]] rank world_size gpu Hrank Hws Hgpu.
    rewrite Hr, Hw. cbn [andb].
    cbv [mbind] in Hrank, Hws, Hgpu.
    unfold update_cfg. run_stateful. rewrite Hrank, Hws, Hgpu.
    by apply init_distributed_tail_cfg.
  - intros Hl [[sp Hp] Hpty] rank world_size Hrank Hdev Hws.
    assert ((match environ !! "RANK" with Some _ => true | None => false end
             && match environ !! "WORLD_SIZE" with Some _ => true | None => false end)
            = false) as ->.
    { destruct (environ !! "RANK"), (environ !! "WORLD_SIZE"); try done.
      exfalso; apply Hl; by eauto. }
    rewrite Hp, Hpty. cbn [andb negb].
    cbv [mbind] in Hrank.
    unfold update_cfg. run_stateful. rewrite Hrank.
    rewrite bool_decide_false by done. cbn.
    by apply init_distributed_tail_cfg.
Qed.
End Init.

Lemma init_distributed_mode_batch_size_witness :
  let out :=
    init_distributed_mode int_of_decimal 1 Inputs.ok_set_device
      Inputs.ok_init_process_group Inputs.env_torchrun Inputs.fresh_process in
  env_distributed (proc_cfg out.2) = Some true
  ∧ env_world_size (proc_cfg out.2) = Some 2
  ∧ data_batch_size_total (proc_cfg out.2) = Some (8 * 2).
Proof.
  apply (proj1 (proj2 (init_distributed_mode_batch_size int_of_decimal 1
           Inputs.ok_set_device Inputs.ok_init_process_group
           Inputs.env_torchrun Inputs.fresh_process))
           (conj (mk_is_Some _ _ eq_refl) (mk_is_Some _ _ eq_refl)) 1 2 1);
    reflexivity.
Defined.

(** C6, the claim as stated fails: with RANK and WORLD_SIZE in the
    environment and no LOCAL_RANK the call is in the "otherwise" case, yet
    it raises [KeyError] and [cfg.env.distributed] and
    [cfg.data.batch_size_total] stay unset. *)
Lemma init_distributed_mode_without_local_rank :
  let out :=
    init_distributed_mode int_of_decimal 1 Inputs.ok_set_device
      Inputs.ok_init_process_group Inputs.env_no_local_rank
      Inputs.fresh_process in
  Inputs.env_no_local_rank !! "RANK" = Some "0"
  ∧ Inputs.env_no_local_rank !! "WORLD_SIZE" = Some "2"
  ∧ out.1 = Raise (KeyError "LOCAL_RANK")
  ∧ env_distributed (proc_cfg out.2) ≠ Some true
  ∧ data_batch_size_total (proc_cfg out.2) = None.
Proof. vm_compute. by split_and!. Qed.
End InitFacts.

Module GlobFacts.
Import TrainerMisc WorkDir.

(** *** Strings *)

Lemma split_path_nonempty s : split_path s ≠ [].
Proof. destruct s as [|c s]; [done|]. cbn. destruct (is_sep c); [done|]. by destruct (split_path s). Qed.

Lemma split_path_app_sep a b :
  split_path (a +:+ "/" +:+ b) = split_path a ++ split_path b.
Proof.
  induction a as [|c a IH]; [done|].
  change (String c a +:+ "/" +:+ b) with (String c (a +:+ "/" +:+ b)).
  cbn [split_path]. rewrite IH. destruct (is_sep c); [done|].
  pose proof (split_path_nonempty a). by destruct (split_path a).
Qed.

Lemma split_path_no_sep x : no_sep x = true → split_path x = [x].
Proof.
  induction x as [|c x IH]; [done|]. cbn.
  intros [Hc Hx]%andb_true_iff. apply negb_true_iff in Hc. rewrite Hc.
  by rewrite IH.
Qed.

Lemma string_app_assoc (a b c : string) : (a +:+ b) +:+ c = a +:+ b +:+ c.
Proof.
  induction a as [|x a IH]; [done|].
  change ((String x a +:+ b) +:+ c) with (String x ((a +:+ b) +:+ c)).
  by rewrite IH.
Qed.

Lemma ends_with_sep a : ends_with "/" a = true → ∃ a0, a = a0 +:+ "/".
Proof.
  induction a as [|c a IH]; [done|]. cbn. destruct a as [|c' a].
  - intros ->%Ascii.eqb_eq. by exists EmptyString.
  - intros Ha. destruct (IH Ha) as [a0 ->]. by exists (String c a0).
Qed.

Lemma has_magic_app a b : has_magic (a +:+ b) = has_magic a || has_magic b.
Proof.
  induction a as [|c a IH]; [done|].
  change (String c a +:+ b) with (String c (a +:+ b)). cbn [has_magic].
  rewrite IH. by rewrite !orb_assoc.
Qed.

Lemma has_magic_components a :
  has_magic a = false → Forall (λ c, has_magic c = false) (split_path a).
Proof.
  induction a as [|c a IH]; [by repeat constructor|]. cbn.
  intros [[[H1 H2]%orb_false_iff H3]%orb_false_iff Ha]%orb_false_iff.
  specialize (IH Ha). destruct (is_sep c); [by constructor|].
  destruct (split_path a) as [|first others]; [repeat constructor; cbn; by rewrite H1, H2, H3|].
  apply Forall_cons in IH as [Hf Ho]. constructor; [|done].
  cbn. by rewrite H1, H2, H3, Hf.
Qed.

(** The components of a joined path: those of the directory, then those
    of what was joined to it. *)
Lemma join_components dir :
  ∃ dirs,
    (has_magic dir = false → Forall (λ c, has_magic c = false) dirs)
    ∧ ∀ y, starts_with "/" y = false →
        split_path (join dir y) = dirs ++ split_path y.
Proof.
  destruct (decide (dir = EmptyString)) as [->|Hne].
  { exists []. split; [done|]. intros y Hy. unfold join. by rewrite Hy. }
  destruct (ends_with "/" dir) eqn:Hend.
  - destruct (ends_with_sep dir Hend) as [d0 ->]. exists (split_path d0). split.
    + rewrite has_magic_app. intros [H0 _]%orb_false_iff.
      by apply has_magic_components.
    + intros y Hy. unfold join. rewrite Hy, Hend, orb_true_r.
      rewrite string_app_assoc. apply split_path_app_sep.
  - exists (split_path dir). split; [apply has_magic_components|].
    intros y Hy. unfold join. rewrite Hy, Hend, bool_decide_false by done.
    apply split_path_app_sep.
Qed.

(** *** The digits of an epoch *)

Lemma no_sep_app a b : no_sep (a +:+ b) = no_sep a && no_sep b.
Proof.
  induction a as [|c a IH]; [done|].
  change (String c a +:+ b) with (String c (a +:+ b)). cbn [no_sep].
  by rewrite IH, andb_assoc.
Qed.

Lemma no_sep_pretty_N_go x s : no_sep s = true → no_sep (pretty_N_go x s) = true.
Proof.
  revert s. induction (N.lt_wf_0 x) as [x _ IH]; intros s Hs.
  assert (x = 0 ∨ 0 < x)%N as [->|?] by lia.
  - by rewrite pretty_N_go_0.
  - rewrite pretty_N_go_step by done. apply IH; [by apply N.div_lt|].
    cbn [no_sep]. rewrite Hs, andb_true_r.
    unfold pretty_N_char. by repeat case_match.
Qed.

Lemma no_sep_pretty (e : Z) : no_sep (pretty e) = true.
Proof.
  assert (∀ p : positive, no_sep (pretty p) = true) as Hpos.
  { intros p. unfold pretty, pretty_positive, pretty, pretty_N.
    case_decide; [done|]. by apply no_sep_pretty_N_go. }
  destruct e as [|p|p]; [done|apply Hpos|].
  unfold pretty, pretty_Z. rewrite no_sep_app. by rewrite Hpos.
Qed.

Lemma no_sep_best_name e : no_sep (best_name e) = true.
Proof. unfold best_name. by rewrite !no_sep_app, no_sep_pretty. Qed.

Lemma no_sep_last_name e : no_sep (last_name e) = true.
Proof. unfold last_name. by rewrite !no_sep_app, no_sep_pretty. Qed.

(** *** Matching of the checkpoint names *)

Lemma match_literal c tokens name :
  match_tokens (TLit c :: tokens) name = true →
  ∃ name', name = String c name' ∧ match_tokens tokens name' = true.
Proof.
  destruct name as [|x name']; [done|]. cbn.
  intros [Hc ?]%andb_true_iff. apply Ascii.eqb_eq in Hc as ->. eauto.
Qed.

Lemma match_star tokens mid name :
  match_tokens tokens name = true →
  match_tokens (TStar :: tokens) (mid +:+ name) = true.
Proof.
  intros Hm. induction mid as [|c mid IH].
  - change (EmptyString +:+ name) with name.
    destruct name; simpl in *; by rewrite Hm.
  - change (String c mid +:+ name) with (String c (mid +:+ name)).
    simpl in *. rewrite IH. apply orb_true_r.
Qed.

Lemma match_literals (prefix : string) tokens name :
  match_tokens tokens name = true →
  match_tokens ((TLit <$> String.list_ascii_of_string prefix) ++ tokens)
    (prefix +:+ name) = true.
Proof.
  intros Hm. induction prefix as [|c prefix IH]; [done|].
  change (String c prefix +:+ name) with (String c (prefix +:+ name)).
  change (match_tokens ((TLit <$> String.list_ascii_of_string (String c prefix)) ++ tokens)
            (String c (prefix +:+ name)))
    with (Ascii.eqb c c
          && match_tokens ((TLit <$> String.list_ascii_of_string prefix) ++ tokens)
               (prefix +:+ name)).
  by rewrite Ascii.eqb_refl, IH.
Qed.

Lemma translate_best_pattern :
  translate best_pattern
  = (TLit <$> String.list_ascii_of_string "checkpoint_best_epoch_")
      ++ TStar :: (TLit <$> String.list_ascii_of_string ".pth").
Proof. vm_compute. reflexivity. Qed.

Lemma translate_last_pattern :
  translate last_pattern
  = (TLit <$> String.list_ascii_of_string "checkpoint_last_epoch_")
      ++ TStar :: (TLit <$> String.list_ascii_of_string ".pth").
Proof. vm_compute. reflexivity. Qed.

Lemma best_name_matches e : fnmatch best_pattern (best_name e) = true.
Proof.
  unfold fnmatch, best_name. rewrite translate_best_pattern.
  apply match_literals. apply (match_star _ (pretty e) ".pth").
  vm_compute. reflexivity.
Qed.

Lemma last_name_matches e : fnmatch last_pattern (last_name e) = true.
Proof.
  unfold fnmatch, last_name. rewrite translate_last_pattern.
  apply match_literals. apply (match_star _ (pretty e) ".pth").
  vm_compute. reflexivity.
Qed.

Lemma best_not_last name :
  fnmatch best_pattern name = true → fnmatch last_pattern name = false.
Proof.
  intros Hb. apply not_true_is_false. intros Hl. revert Hb Hl.
  unfold fnmatch. rewrite translate_best_pattern, translate_last_pattern.
  cbn [String.list_ascii_of_string fmap list_fmap app]. intros Hb Hl.
  do 11 (apply match_literal in Hb as (? & -> & Hb);
         apply match_literal in Hl as (? & [= ->] & Hl)).
  apply match_literal in Hb as (? & -> & Hb).
  by apply match_literal in Hl as (? & [=] & Hl).
Qed.

Lemma last_not_best name :
  fnmatch last_pattern name = true → fnmatch best_pattern name = false.
Proof.
  intros Hl. destruct (fnmatch best_pattern name) eqn:Hb; [|done].
  apply best_not_last in Hb. congruence.
Qed.

Lemma checkpoint_not_hidden pattern name :
  checkpoint_pattern pattern → fnmatch pattern name = true →
  starts_with "." name = false.
Proof.
  intros [-> | ->]; unfold fnmatch.
  - rewrite translate_best_pattern.
    intros (? & -> & _)%(match_literal "c"). reflexivity.
  - rewrite translate_last_pattern.
    intros (? & -> & _)%(match_literal "c"). reflexivity.
Qed.

Lemma checkpoint_pattern_plain pattern :
  checkpoint_pattern pattern →
  no_sep pattern = true ∧ starts_with "/" pattern = false.
Proof. intros [-> | ->]; split; reflexivity. Qed.

(** [glob] matches the last component of a checkpoint pattern as
    [fnmatch] does. *)
Lemma component_match_checkpoint pattern name :
  checkpoint_pattern pattern →
  component_match pattern name = fnmatch pattern name.
Proof.
  intros Hp. unfold component_match.
  assert (has_magic pattern = true) as -> by (destruct Hp as [-> | ->]; reflexivity).
  assert (starts_with "." pattern = false) as ->
    by (destruct Hp as [-> | ->]; reflexivity).
  cbn [orb]. destruct (fnmatch pattern name) eqn:Hm; [|reflexivity].
  rewrite (checkpoint_not_hidden pattern name Hp Hm). reflexivity.
Qed.

(** *** Components *)

Lemma unsplit_split path : unsplit (split_path path) = path.
Proof.
  induction path as [|c path IH]; [reflexivity|]. cbn [split_path].
  pose proof (split_path_nonempty path) as Hne.
  unfold is_sep. destruct (Ascii.eqb_spec c "/") as [->|_].
  - destruct (split_path path) as [|first others]; [done|].
    change (unsplit (EmptyString :: first :: others))
      with (String "/" (unsplit (first :: others))).
    by rewrite IH.
  - destruct (split_path path) as [|first [|second others]]; [done|..].
    + cbn in *. by rewrite IH.
    + change (unsplit (String c first :: second :: others))
        with (String c (unsplit (first :: second :: others))).
      by rewrite IH.
Qed.

Lemma split_path_inj a b : split_path a = split_path b → a = b.
Proof. intros Hab. by rewrite <-(unsplit_split a), Hab, unsplit_split. Qed.

Lemma split_path_components path :
  Forall (λ c, no_sep c = true) (split_path path).
Proof.
  induction path as [|c path IH]; [by repeat constructor|]. cbn [split_path].
  destruct (is_sep c) eqn:Hc; [by constructor|].
  destruct (split_path path) as [|first others]; [repeat constructor; cbn; by rewrite Hc|].
  apply Forall_cons in IH as [Hf Ho]. constructor; [|done].
  cbn. by rewrite Hc, Hf.
Qed.

Lemma no_sep_basename path : no_sep (basename path) = true.
Proof.
  unfold basename. pose proof (split_path_components path) as Hall.
  destruct (last (split_path path)) as [name|] eqn:Hlast; [|reflexivity].
  apply last_Some in Hlast as [l' Hl]. rewrite Hl in Hall.
  by apply Forall_app in Hall as [_ [? _]%Forall_cons].
Qed.

Lemma starts_with_no_sep name : no_sep name = true → starts_with "/" name = false.
Proof.
  destruct name as [|c name]; [done|]. cbn. unfold is_sep.
  by intros [->%negb_true_iff _]%andb_true_iff.
Qed.

(** A pattern of several components matches component by component. *)
Lemma components_match_app dirs pattern names :
  components_match (dirs ++ [pattern]) names = true →
  ∃ names' name, names = names' ++ [name]
    ∧ length names' = length dirs
    ∧ component_match pattern name = true.
Proof.
  revert names. induction dirs as [|dir dirs IH]; intros [|n names]; cbn; try done.
  - destruct names; [|by rewrite andb_false_r].
    rewrite andb_true_r. intros Hm. by exists [], n.
  - intros [_ Hm]%andb_true_iff.
    destruct (IH names Hm) as (names' & name & -> & Hlen & Hc).
    exists (n :: names'), name. cbn. by rewrite Hlen.
Qed.

Lemma components_match_literal dirs pattern names :
  Forall (λ c, has_magic c = false) dirs →
  components_match (dirs ++ [pattern]) names = true
  ↔ ∃ name, names = dirs ++ [name] ∧ component_match pattern name = true.
Proof.
  intros Hdirs. revert names.
  induction Hdirs as [|dir dirs Hdir _ IH]; intros names.
  - destruct names as [|n [|??]]; cbn.
    + split; [done|]. by intros (? & [=] & _).
    + rewrite andb_true_r. split; [by exists n|]. by intros (? & [= ->] & ?).
    + rewrite andb_false_r. split; [done|]. by intros (? & [=] & _).
  - destruct names as [|n names]; cbn [components_match app].
    + split; [done|]. by intros (? & [=] & _).
    + unfold component_match at 1. rewrite Hdir, andb_true_iff, bool_decide_eq_true, IH.
      split.
      * intros [-> (name & -> & ?)]. by exists name.
      * intros (name & [= -> ->] & ?). split; [done|]. by exists name.
Qed.

(** *** Paths under the work dir *)

Section Paths.
Implicit Types (dir pattern path name : string).

Lemma basename_join dir name :
  no_sep name = true → basename (join dir name) = name.
Proof.
  intros Hname. destruct (join_components dir) as (dirs & _ & Hsplit).
  unfold basename. rewrite Hsplit by by apply starts_with_no_sep.
  rewrite split_path_no_sep by done. by rewrite last_snoc.
Qed.

(** Whatever the directory, [glob] finds only paths whose last
    component matches the pattern. *)
Lemma path_match_basename dir pattern path :
  checkpoint_pattern pattern →
  path_match (join dir pattern) path = true →
  fnmatch pattern (basename path) = true.
Proof.
  intros Hpattern.
  destruct (checkpoint_pattern_plain pattern Hpattern) as [Hsep Hstart].
  destruct (join_components dir) as (dirs & _ & Hsplit).
  unfold path_match, basename. rewrite (Hsplit pattern Hstart).
  rewrite (split_path_no_sep pattern Hsep).
  intros (names' & name & -> & _ & Hc)%components_match_app.
  rewrite last_snoc. cbn. by rewrite <-component_match_checkpoint.
Qed.

(** In a directory whose path has no metacharacter, [glob] finds the
    files of the directory whose name matches the pattern. *)
Lemma path_match_in_dir dir pattern path :
  checkpoint_pattern pattern → has_magic dir = false →
  path_match (join dir pattern) path = in_dir dir pattern path.
Proof.
  intros Hpattern Hdir.
  destruct (checkpoint_pattern_plain pattern Hpattern) as [Hsep Hstart].
  destruct (join_components dir) as (dirs & Hdirs & Hsplit).
  specialize (Hdirs Hdir).
  apply eq_true_iff_eq. unfold path_match, in_dir.
  rewrite (Hsplit pattern Hstart), (split_path_no_sep pattern Hsep).
  rewrite components_match_literal by done.
  rewrite andb_true_iff, bool_decide_eq_true. split.
  - intros (name & Hpath & Hc).
    assert (basename path = name) as Hbase.
    { unfold basename. by rewrite Hpath, last_snoc. }
    assert (no_sep name = true) as Hname.
    { rewrite <-Hbase. apply no_sep_basename. }
    rewrite Hbase. split; [|by rewrite <-component_match_checkpoint].
    apply split_path_inj. rewrite Hpath.
    rewrite Hsplit by by apply starts_with_no_sep.
    by rewrite split_path_no_sep.
  - intros [Hpath Hm]. exists (basename path).
    pose proof (no_sep_basename path) as Hname. split.
    + rewrite Hpath at 1. rewrite Hsplit by by apply starts_with_no_sep.
      by rewrite split_path_no_sep.
    + by rewrite component_match_checkpoint.
Qed.
End Paths.

Section Listing.
Context {F : Type}.
Implicit Types (fs : gmap string F).

Lemma glob_listing dir pattern fs :
  checkpoint_pattern pattern → has_magic dir = false →
  glob (join dir pattern) fs = listing dir pattern fs.
Proof.
  intros Hp Hdir. unfold glob, listing. f_equal. apply set_eq. intros path.
  rewrite !elem_of_filter. by rewrite path_match_in_dir.
Qed.
End Listing.

Lemma path_match_best_name dir e :
  has_magic dir = false →
  path_match (join dir best_pattern) (join dir (best_name e)) = true.
Proof.
  intros Hdir. rewrite path_match_in_dir by (done || by left).
  unfold in_dir. rewrite basename_join by apply no_sep_best_name.
  by rewrite bool_decide_true, best_name_matches.
Qed.

Lemma path_match_last_name dir e :
  has_magic dir = false →
  path_match (join dir last_pattern) (join dir (last_name e)) = true.
Proof.
  intros Hdir. rewrite path_match_in_dir by (done || by right).
  unfold in_dir. rewrite basename_join by apply no_sep_last_name.
  by rewrite bool_decide_true, last_name_matches.
Qed.

(** A path that [glob] finds for one kind of checkpoint is not found
    for the other, whatever the directory. *)
Lemma path_best_not_last dir path :
  path_match (join dir best_pattern) path = true →
  path_match (join dir last_pattern) path = false.
Proof.
  intros Hb%path_match_basename; [|by left].
  apply not_true_is_false. intros Hl%path_match_basename; [|by right].
  apply best_not_last in Hb. congruence.
Qed.

Lemma path_last_not_best dir path :
  path_match (join dir last_pattern) path = true →
  path_match (join dir best_pattern) path = false.
Proof.
  intros Hl. destruct (path_match (join dir best_pattern) path) eqn:Hb; [|done].
  apply path_best_not_last in Hb. congruence.
Qed.
End GlobFacts.
Module TrainerMiscFacts.
Import Py DistMisc TrainerMisc WorkDir GlobFacts.

#[local] Arguments fnmatch : simpl never.
#[local] Arguments path_match : simpl never.
#[local] Arguments join : simpl never.

Section Statements.
Context {SD MV : Type}.

Lemma bind_ok {A B} (m : stmt A) (k : A → stmt B) (w w1 : run_state SD MV) a :
  m w = (Ok a, w1) → (m ≫= k) w = k a w1.
Proof. unfold mbind, stmt_bind. by intros ->. Qed.

Lemma bind_raise {A B} (m : stmt A) (k : A → stmt B) (w w1 : run_state SD MV) e :
  m w = (Raise e, w1) → (m ≫= k) w = (Raise e, w1).
Proof. unfold mbind, stmt_bind. by intros ->. Qed.
End Statements.

(** Runs the statements at the head of a goal. *)
Ltac run_stmt :=
  repeat (progress (cbv [mbind mret stmt_bind stmt_ret raise lift assert
                           get_status get_files update_status update_files
                           torch_save torch_load mod_is_zero]; cbn)).

(** *** What glob finds *)

Section Files.
Context {F : Type}.
Implicit Types (fs : gmap string F) (path pathname : string).

Lemma elem_of_glob pathname fs name :
  name ∈ glob pathname fs ↔ path_match pathname name = true ∧ is_Some (fs !! name).
Proof. unfold glob. by rewrite elem_of_elements, elem_of_filter, elem_of_dom. Qed.

Lemma glob_ext pathname fs fs' :
  (∀ name, path_match pathname name = true → fs' !! name = fs !! name) →
  glob pathname fs' = glob pathname fs.
Proof.
  intros Hsame. unfold glob. f_equal. apply set_eq. intros name.
  rewrite !elem_of_filter, !elem_of_dom.
  split; intros [Hm ?]; (split; [done|]); by rewrite ?Hsame in * by done.
Qed.

Lemma glob_empty_inv pathname fs name :
  glob pathname fs = [] → path_match pathname name = true → fs !! name = None.
Proof.
  intros Hg Hm. apply eq_None_not_Some. intros Hsome.
  assert (name ∈ glob pathname fs) as Hin by by apply elem_of_glob.
  rewrite Hg in Hin. by apply elem_of_nil in Hin.
Qed.

Lemma glob_singleton_inv pathname fs old name :
  glob pathname fs = [old] → path_match pathname name = true → name ≠ old →
  fs !! name = None.
Proof.
  intros Hg Hm Hne. apply eq_None_not_Some. intros Hsome.
  assert (name ∈ glob pathname fs) as Hin by by apply elem_of_glob.
  rewrite Hg in Hin. by apply list_elem_of_singleton in Hin.
Qed.

(** A file system in which [name] is the only match. *)
Lemma glob_only pathname fs name :
  path_match pathname name = true → is_Some (fs !! name) →
  (∀ other, path_match pathname other = true → other ≠ name → fs !! other = None) →
  glob pathname fs = [name].
Proof.
  intros Hm Hsome Hother. unfold glob.
  assert (filter (λ n, path_match pathname n = true) (dom fs) = {[name]}) as ->.
  { apply set_eq. intros n.
    rewrite elem_of_filter, elem_of_dom, elem_of_singleton. split.
    - intros [Hn Hs]. destruct (decide (n = name)) as [|Hne]; [done|].
      rewrite (Hother n Hn Hne) in Hs. by destruct Hs.
    - by intros ->. }
  apply elements_singleton.
Qed.
End Files.

(** *** Saving over the previous checkpoint *)

Section Trainer.
Context {SD MV : Type}.
Context (choose_best : gmap string MV → gmap string MV → gmap string MV * bool).
Implicit Types (ts : trainer_status SD MV)
  (fs : gmap string (gmap string (ckpt_value SD MV))).

Lemma save_over_spec pathname new_path save_files ts fs :
  (length (glob pathname fs) ≤ 1)%nat →
  path_match pathname new_path = true →
  ∃ fs',
    save_over pathname new_path save_files (RunState ts fs)
    = (Ok (), RunState ts fs')
    ∧ glob pathname fs' = [new_path]
    ∧ fs' !! new_path = Some save_files
    ∧ ∀ path, path_match pathname path = false → fs' !! path = fs !! path.
Proof.
  intros Hlen Hnew. unfold save_over. run_stmt.
  rewrite bool_decide_true by done. run_stmt.
  destruct (glob pathname fs) as [|old [|??]] eqn:Hg; [| |simpl in Hlen; lia].
  - exists (<[new_path := save_files]> fs). run_stmt.
    split_and!; [done| |by rewrite lookup_insert_eq|].
    + apply glob_only; [done|by rewrite lookup_insert_eq|].
      intros other Hm Hne. rewrite lookup_insert_ne by done.
      by eapply glob_empty_inv.
    + intros path Hpath. apply lookup_insert_ne. by intros <-; congruence.
  - assert (path_match pathname old = true) as Hold.
    { apply (elem_of_glob pathname fs). rewrite Hg. by left. }
    exists (<[new_path := save_files]> (delete old (<[old := save_files]> fs))).
    run_stmt. unfold rename. rewrite lookup_insert_eq.
    split_and!; [done| |by rewrite lookup_insert_eq|].
    + apply glob_only; [done|by rewrite lookup_insert_eq|].
      intros other Hm Hne. rewrite lookup_insert_ne by done.
      destruct (decide (other = old)) as [->|Hne'].
      * by rewrite lookup_delete_eq.
      * rewrite lookup_delete_ne, lookup_insert_ne by done.
        by eapply glob_singleton_inv.
    + intros path Hpath.
      rewrite lookup_insert_ne by (intros <-; congruence).
      rewrite lookup_delete_ne by (intros <-; congruence).
      apply lookup_insert_ne. intros <-; congruence.
Qed.

(** [save_checkpoint] in terms of what [glob] finds, for a work dir
    whose own path [glob] reads as it is written. *)
Lemma save_checkpoint_globs d c ts fs r w' :
  has_magic (info_work_dir c) = false →
  is_main_process d = true →
  (length (glob (join (info_work_dir c) best_pattern) fs) ≤ 1)%nat →
  (length (glob (join (info_work_dir c) last_pattern) fs) ≤ 1)%nat →
  save_checkpoint choose_best d c (RunState ts fs) = (r, w') →
  let best_paths := join (info_work_dir c) best_pattern in
  let last_paths := join (info_work_dir c) last_pattern in
  let best_path := join (info_work_dir c) (best_name (epoch ts)) in
  let last_path := join (info_work_dir c) (last_name (epoch ts)) in
  let fs' := files w' in
  let save_flag := (choose_best (metrics ts) (best_metrics ts)).2 in
  (length (glob best_paths fs') ≤ 1)%nat
  ∧ (length (glob last_paths fs') ≤ 1)%nat
  ∧ (trainer_save_interval c ≠ 0 → r = Ok ())
  ∧ (save_flag = true →
       glob best_paths fs' = [best_path]
       ∧ fs' !! best_path = Some (save_files_best (status w')))
  ∧ (save_flag = false →
       ∀ path, path_match best_paths path = true → fs' !! path = fs !! path)
  ∧ (trainer_save_interval c ≠ 0 →
     (trainer_save_interval c | epoch ts + 1) →
       glob last_paths fs' = [last_path]
       ∧ fs' !! last_path = Some (save_files_last c (status w')))
  ∧ (¬ (trainer_save_interval c | epoch ts + 1) →
       ∀ path, path_match last_paths path = true → fs' !! path = fs !! path)
  ∧ status w' = set_best_metrics (choose_best (metrics ts) (best_metrics ts)).1 ts.
Proof.
  intros Hdir Hmain Hbest Hlast. unfold save_checkpoint. rewrite Hmain.
  erewrite bind_ok by reflexivity.
  cbn [status files].
  destruct (choose_best (metrics ts) (best_metrics ts)) as [best save_flag].
  cbv beta iota zeta. do 2 (erewrite bind_ok by reflexivity).
  cbn [status files fst snd].
  change (epoch (set_best_metrics best ts)) with (epoch ts).
  set (ts1 := set_best_metrics best ts).
  set (best_paths := join (info_work_dir c) best_pattern) in *.
  set (last_paths := join (info_work_dir c) last_pattern) in *.
  set (best_path := join (info_work_dir c) (best_name (epoch ts))).
  set (last_path := join (info_work_dir c) (last_name (epoch ts))).
  assert (path_match best_paths best_path = true) as Hbest_path
    by by apply path_match_best_name.
  assert (path_match last_paths last_path = true) as Hlast_path
    by by apply path_match_last_name.
  (* the best checkpoint *)
  assert (∃ fs1,
    (if save_flag
     then save_over best_paths best_path (save_files_best ts1)
     else mret ()) (RunState ts1 fs) = (Ok (), RunState ts1 fs1)
    ∧ (length (glob best_paths fs1) ≤ 1)%nat
    ∧ (save_flag = true →
         glob best_paths fs1 = [best_path]
         ∧ fs1 !! best_path = Some (save_files_best ts1))
    ∧ (save_flag = false → fs1 = fs)
    ∧ (∀ path, path_match best_paths path = false → fs1 !! path = fs !! path))
    as (fs1 & Hrun1 & Hbest1 & Hsaved & Hkept & Hother).
  { destruct save_flag.
    - destruct (save_over_spec best_paths best_path
                  (save_files_best ts1) ts1 fs Hbest Hbest_path)
        as (fs1 & Hrun & Hg & Hl & Ho).
      exists fs1. rewrite Hg.
      split_and!; [exact Hrun|simpl; lia|by intros _|by intros [=]|exact Ho].
    - exists fs.
      split_and!; [reflexivity|exact Hbest|by intros [=]|by intros _|by intros]. }
  rewrite (bind_ok _ _ _ _ _ Hrun1). clear Hrun1.
  assert (glob last_paths fs1 = glob last_paths fs) as Hlast1.
  { apply glob_ext. intros path Hn. apply Hother. by apply path_last_not_best. }
  (* the last checkpoint *)
  unfold mod_is_zero.
  destruct (decide (trainer_save_interval c = 0)) as [Hz|Hnz].
  - rewrite bool_decide_true by done.
    erewrite bind_raise by reflexivity. intros [= <- <-]. cbn [status files].
    rewrite Hlast1. split_and!; try done.
    + intros ->. by rewrite (Hkept eq_refl).
    + intros _ path Hn. apply Hother. by apply path_last_not_best.
  - rewrite bool_decide_false by done. erewrite bind_ok by reflexivity.
    destruct (decide ((epoch ts + 1) `mod` trainer_save_interval c = 0))
      as [Hdue|Hdue].
    + rewrite bool_decide_true by done.
      destruct (save_over_spec last_paths last_path
                  (save_files_last c ts1) ts1 fs1) as (fs2 & -> & Hg & Hl & Ho);
        [by rewrite Hlast1|exact Hlast_path|].
      intros [= <- <-]. cbn [status files].
      assert (glob best_paths fs2 = glob best_paths fs1) as Hbest2.
      { apply glob_ext. intros path Hn. apply Ho. by apply path_best_not_last. }
      rewrite Hbest2, Hg. split_and!; try done.
      * intros Hf. destruct (Hsaved Hf) as [? Hl1]. split; [done|].
        rewrite Ho; [done|]. by apply path_best_not_last.
      * intros -> path Hn. rewrite Ho by by apply path_best_not_last.
        by rewrite (Hkept eq_refl).
      * intros Hndiv. by apply Z.mod_divide in Hdue.
    + rewrite bool_decide_false by done. intros [= <- <-]. cbn [status files].
      rewrite Hlast1. split_and!; try done.
      * intros ->. by rewrite (Hkept eq_refl).
      * intros _ Hdiv. by apply Z.mod_divide in Hdiv.
      * intros _ path Hn. apply Hother. by apply path_last_not_best.
Qed.

(** C3 (amended). For a work dir whose path has none of the characters
    [*], [?] and ["["]: on the main process, from a work dir with at
    most one best and at most one last checkpoint, [save_checkpoint]
    leaves at most one of each.  It fails only on a zero
    [save_interval].  When the criterion asks for a save, the one best
    checkpoint afterwards is the file named after the finished epoch,
    holding the new content; otherwise the best checkpoint is
    untouched.  The same holds for the last checkpoint when
    [save_interval] divides [epoch + 1], and when it does not divide it
    no last checkpoint is written. *)
Theorem save_checkpoint_one_of_each_kind d c ts fs r w' :
  has_magic (info_work_dir c) = false →
  is_main_process d = true →
  (length (listing (info_work_dir c) best_pattern fs) ≤ 1)%nat →
  (length (listing (info_work_dir c) last_pattern fs) ≤ 1)%nat →
  save_checkpoint choose_best d c (RunState ts fs) = (r, w') →
  let work_dir := info_work_dir c in
  let fs' := files w' in
  let finished := epoch ts in
  let save_flag := (choose_best (metrics ts) (best_metrics ts)).2 in
  (length (listing work_dir best_pattern fs') ≤ 1)%nat
  ∧ (length (listing work_dir last_pattern fs') ≤ 1)%nat
  ∧ (trainer_save_interval c ≠ 0 → r = Ok ())
  ∧ (save_flag = true →
       listing work_dir best_pattern fs' = [join work_dir (best_name finished)]
       ∧ fs' !! join work_dir (best_name finished)
         = Some (save_files_best (status w')))
  ∧ (save_flag = false →
       ∀ path, in_dir work_dir best_pattern path = true →
         fs' !! path = fs !! path)
  ∧ (trainer_save_interval c ≠ 0 →
     (trainer_save_interval c | finished + 1) →
       listing work_dir last_pattern fs' = [join work_dir (last_name finished)]
       ∧ fs' !! join work_dir (last_name finished)
         = Some (save_files_last c (status w')))
  ∧ (¬ (trainer_save_interval c | finished + 1) →
       ∀ path, in_dir work_dir last_pattern path = true →
         fs' !! path = fs !! path).
Proof.
  intros Hdir Hmain Hbest Hlast Hrun. cbv zeta.
  assert (checkpoint_pattern best_pattern) as Hbp by by left.
  assert (checkpoint_pattern last_pattern) as Hlp by by right.
  rewrite <-(glob_listing _ _ _ Hbp Hdir) in Hbest.
  rewrite <-(glob_listing _ _ _ Hlp Hdir) in Hlast.
  rewrite <-!(glob_listing _ _ _ Hbp Hdir), <-!(glob_listing _ _ _ Hlp Hdir).
  destruct (save_checkpoint_globs d c ts fs r w' Hdir Hmain Hbest Hlast Hrun)
    as (H1 & H2 & H3 & H4 & H5 & H6 & H7 & _).
  split_and!; [exact H1|exact H2|exact H3|exact H4| |exact H6|].
  - intros Hf path Hin. apply (H5 Hf). by rewrite path_match_in_dir.
  - intros Hf path Hin. apply (H7 Hf). by rewrite path_match_in_dir.
Qed.
End Trainer.

Lemma save_checkpoint_one_of_each_kind_witness :
  let work_dir := Inputs.work_dir in
  let fs := files Inputs.run_after_epoch1 in
  let out :=
    save_checkpoint Inputs.higher_acc Inputs.no_dist Inputs.train_cfg
      (RunState (Inputs.status_epoch 2 95) fs) in
  listing work_dir best_pattern fs = ["outputs/run1/checkpoint_best_epoch_1.pth"]
  ∧ listing work_dir last_pattern fs = ["outputs/run1/checkpoint_last_epoch_1.pth"]
  ∧ listing work_dir best_pattern (files out.2)
    = ["outputs/run1/checkpoint_best_epoch_2.pth"]
  ∧ listing work_dir last_pattern (files out.2)
    = ["outputs/run1/checkpoint_last_epoch_2.pth"].
Proof.
  cbv zeta.
  split; [vm_compute; reflexivity|]. split; [vm_compute; reflexivity|].
  set (out := save_checkpoint _ _ _ _).
  destruct (save_checkpoint_one_of_each_kind Inputs.higher_acc
    Inputs.no_dist Inputs.train_cfg (Inputs.status_epoch 2 95)
    (files Inputs.run_after_epoch1) out.1 out.2)
    as (_ & _ & _ & Hb & _ & Hl & _).
  - reflexivity.
  - reflexivity.
  - vm_compute. lia.
  - vm_compute. lia.
  - symmetry. apply surjective_pairing.
  - split.
    + apply Hb. vm_compute; reflexivity.
    + apply Hl; [done|]. exists 3. reflexivity.
Defined.

(** C3 as it stands fails for a work dir named with a bracket: [glob]
    reads the bracket as a set of characters and finds neither
    checkpoint of the work dir, so the save after epoch 2 adds a second
    best and a second last checkpoint to those of epoch 1. *)
Lemma save_checkpoint_second_file :
  let work_dir := info_work_dir Inputs.sweep_cfg in
  let fs := files Inputs.sweep_after_epoch1 in
  let out :=
    save_checkpoint Inputs.higher_acc Inputs.no_dist Inputs.sweep_cfg
      (RunState (Inputs.status_epoch 2 95) fs) in
  work_dir = "outputs/bs_[64, 128]"
  ∧ is_main_process Inputs.no_dist = true
  ∧ listing work_dir best_pattern fs
    = ["outputs/bs_[64, 128]/checkpoint_best_epoch_1.pth"]
  ∧ listing work_dir last_pattern fs
    = ["outputs/bs_[64, 128]/checkpoint_last_epoch_1.pth"]
  ∧ glob (join work_dir best_pattern) fs = []
  ∧ out.1 = Ok ()
  ∧ listing work_dir best_pattern (files out.2)
    = ["outputs/bs_[64, 128]/checkpoint_best_epoch_1.pth";
        "outputs/bs_[64, 128]/checkpoint_best_epoch_2.pth"]
  ∧ listing work_dir last_pattern (files out.2)
    = ["outputs/bs_[64, 128]/checkpoint_last_epoch_1.pth";
        "outputs/bs_[64, 128]/checkpoint_last_epoch_2.pth"].
Proof.
  cbv zeta. split_and!; vm_compute; reflexivity.
Qed.

End TrainerMiscFacts.

Module TrainerResumeFacts.
Import Py DistMisc TrainerMisc WorkDir GlobFacts TrainerMiscFacts.

#[local] Arguments fnmatch : simpl never.
#[local] Arguments path_match : simpl never.
#[local] Arguments join : simpl never.

Section Trainer.
Context {SD MV : Type}.
Context (choose_best : gmap string MV → gmap string MV → gmap string MV * bool).
Implicit Types (ts : trainer_status SD MV)
  (fs : gmap string (gmap string (ckpt_value SD MV))).

Lemma save_files_last_lookup c ts :
  let sf := save_files_last c ts in
  sf !! "model" = Some (CState (model_without_ddp ts))
  ∧ sf !! "optimizer" = Some (CState (optimizer ts))
  ∧ sf !! "lr_scheduler" = Some (CState (lr_scheduler ts))
  ∧ sf !! "epoch" = Some (CInt (epoch ts))
  ∧ sf !! "best_metrics" = Some (CMetrics (best_metrics ts))
  ∧ sf !! "last_metric" = Some (CMetrics (metrics ts))
  ∧ sf !! "last_metrics" = None
  ∧ sf !! "scaler" =
      (if env_amp c && truthy (env_device c)
       then Some (CState (scaler ts)) else None).
Proof.
  cbv zeta. unfold save_files_last, save_files_best.
  destruct (env_amp c && truthy (env_device c)); by simplify_map_eq.
Qed.

Lemma torch_load_run path ts fs obj :
  fs !! path = Some obj →
  torch_load path (RunState ts fs) = (Ok obj, RunState ts fs).
Proof.
  intros Hf. unfold torch_load, get_files, mbind, stmt_bind. cbn [files].
  by rewrite Hf.
Qed.

(** What [resume_training] loads from the one last checkpoint. *)
Lemma resume_training_loads c ts0 fs path ck sd_m sd_o sd_l sd_s n bm lm :
  truthy (trainer_resume c) = true →
  glob (join (info_work_dir c) last_pattern) fs = [path] →
  fs !! path = Some ck →
  ck !! "model" = Some (CState sd_m) →
  ck !! "optimizer" = Some (CState sd_o) →
  ck !! "lr_scheduler" = Some (CState sd_l) →
  (env_amp c = true → ck !! "scaler" = Some (CState sd_s)) →
  ck !! "epoch" = Some (CInt n) →
  get_metrics ck "best_metrics" = Ok bm →
  get_metrics ck "last_metrics" = Ok lm →
  resume_training c (RunState ts0 fs)
  = (Ok (),
     RunState
       (TrainerStatus (epoch ts0) (n + 1) (n * len_train_loader ts0) lm bm
          sd_m sd_o sd_l (if env_amp c then sd_s else scaler ts0)
          (len_train_loader ts0))
       fs).
Proof.
  intros Hres Hglob Hfile Hm Ho Hl Hs He Hbm Hlm.
  unfold resume_training. rewrite Hres.
  erewrite bind_ok by reflexivity. cbn [files]. rewrite Hglob.
  erewrite bind_ok by reflexivity. cbn [head default].
  erewrite bind_ok by (by apply torch_load_run).
  unfold getitem. rewrite Hm, Ho, Hl, He, Hbm, Hlm.
  destruct (env_amp c); [rewrite (Hs eq_refl)|]; reflexivity.
Qed.

(** The assertion of [resume_training] fails exactly when [glob] does
    not find one path. *)
Lemma resume_training_asserts c ts0 fs :
  truthy (trainer_resume c) = true →
  (resume_training c (RunState ts0 fs)).1 = Raise AssertionError
  ↔ length (glob (join (info_work_dir c) last_pattern) fs) ≠ 1%nat.
Proof.
  intros Hres. unfold resume_training. rewrite Hres.
  erewrite bind_ok by reflexivity. cbn [files].
  set (found := glob _ fs).
  destruct (decide (length found = 1%nat)) as [Hone|Hne].
  - rewrite bool_decide_true by done. erewrite bind_ok by reflexivity.
    split; [|done]. intros Hraise. exfalso. revert Hraise.
    generalize (default EmptyString (head found)).
    intros path. clear Hone.
    cbv [mbind mret stmt_bind stmt_ret result_bind bind lift raise
         get_files get_status update_status torch_load getitem get_metrics
         as_state as_int as_metrics].
    cbn [files status fst].
    destruct (fs !! path) as [ck|]; [|done].
    repeat (match goal with
            | |- context [ck !! ?k] => destruct (ck !! k) as [[]|]
            | |- context [env_amp c] => destruct (env_amp c)
            end; cbn [fst]; try discriminate).
  - rewrite bool_decide_false by done. by erewrite bind_raise by reflexivity.
Qed.

(** For a work dir whose path has none of the characters [*], [?] and
    ["["], the assertion of [resume_training] fails exactly when the
    work dir does not hold one last checkpoint. *)
Lemma resume_training_assertion c ts0 fs :
  has_magic (info_work_dir c) = false →
  truthy (trainer_resume c) = true →
  (resume_training c (RunState ts0 fs)).1 = Raise AssertionError
  ↔ length (listing (info_work_dir c) last_pattern fs) ≠ 1%nat.
Proof.
  intros Hdir Hres. rewrite <-glob_listing by (done || by right).
  by apply resume_training_asserts.
Qed.

Lemma save_checkpoint_writes_last d c ts fs :
  has_magic (info_work_dir c) = false →
  is_main_process d = true →
  (length (listing (info_work_dir c) best_pattern fs) ≤ 1)%nat →
  (length (listing (info_work_dir c) last_pattern fs) ≤ 1)%nat →
  trainer_save_interval c ≠ 0 →
  (epoch ts + 1) `mod` trainer_save_interval c = 0 →
  let ts1 := set_best_metrics (choose_best (metrics ts) (best_metrics ts)).1 ts in
  let last_path := join (info_work_dir c) (last_name (epoch ts)) in
  ∃ fs1,
    save_checkpoint choose_best d c (RunState ts fs) = (Ok (), RunState ts1 fs1)
    ∧ glob (join (info_work_dir c) last_pattern) fs1 = [last_path]
    ∧ fs1 !! last_path = Some (save_files_last c ts1).
Proof.
  intros Hdir Hmain Hbest Hlast Hnz Hdue. cbv zeta.
  rewrite <-glob_listing in Hbest by (done || by left).
  rewrite <-glob_listing in Hlast by (done || by right).
  destruct (save_checkpoint choose_best d c (RunState ts fs)) as [r w'] eqn:Hrun.
  destruct (save_checkpoint_globs choose_best d c ts fs r w'
              Hdir Hmain Hbest Hlast Hrun) as (_ & _ & Hr & _ & _ & Hl & _ & Hst).
  rewrite (Hr Hnz). apply Z.mod_divide in Hdue; [|done].
  destruct (Hl Hnz Hdue) as [Hglob Hfile].
  destruct w' as [ts' fs1]. cbn [status files] in *. subst ts'.
  by exists fs1.
Qed.

(** For a work dir whose path has none of the characters [*], [?] and
    ["["]: resuming, on the same work dir, from the checkpoint that
    [save_checkpoint] has just written, state dicts, epoch counters and
    best metrics come back; the validation metrics do not, the
    checkpoint keeps them under ["last_metric"] and [resume_training]
    asks for ["last_metrics"]. *)
Lemma resume_after_save d c c' ts ts0 fs :
  has_magic (info_work_dir c) = false →
  info_work_dir c' = info_work_dir c →
  is_main_process d = true →
  (length (listing (info_work_dir c) best_pattern fs) ≤ 1)%nat →
  (length (listing (info_work_dir c) last_pattern fs) ≤ 1)%nat →
  trainer_save_interval c ≠ 0 →
  (epoch ts + 1) `mod` trainer_save_interval c = 0 →
  truthy (trainer_resume c') = true →
  (env_amp c' = true → env_amp c && truthy (env_device c) = true) →
  let best := (choose_best (metrics ts) (best_metrics ts)).1 in
  ∃ fs1,
    save_checkpoint choose_best d c (RunState ts fs)
    = (Ok (), RunState (set_best_metrics best ts) fs1)
    ∧ resume_training c' (RunState ts0 fs1)
      = (Ok (),
         RunState
           (TrainerStatus (epoch ts0) (epoch ts + 1)
              (epoch ts * len_train_loader ts0) ∅ best
              (model_without_ddp ts) (optimizer ts) (lr_scheduler ts)
              (if env_amp c' then scaler ts else scaler ts0)
              (len_train_loader ts0))
           fs1).
Proof.
  intros Hdir Hsame Hmain Hbest Hlast Hnz Hdue Hres Hamp. cbv zeta.
  destruct (save_checkpoint_writes_last d c ts fs Hdir Hmain Hbest Hlast Hnz Hdue)
    as (fs1 & Hsave & Hglob & Hfile).
  exists fs1. split; [exact Hsave|]. rewrite <-Hsame in Hglob, Hfile.
  set (ts1 := set_best_metrics _ ts) in *.
  destruct (save_files_last_lookup c ts1)
    as (Hm & Ho & Hl & He & Hbm & _ & Hlm & Hs).
  apply (resume_training_loads c' ts0 fs1 _ _ _ _ _ (scaler ts) _ _ _
           Hres Hglob Hfile Hm Ho Hl); [|exact He|..].
  - intros Ha. by rewrite Hs, (Hamp Ha).
  - unfold get_metrics. by rewrite Hbm.
  - unfold get_metrics. by rewrite Hlm.
Qed.
End Trainer.

Lemma resume_training_assertion_witness :
  (resume_training Inputs.resume_cfg
     (RunState Inputs.fresh_status Inputs.dir_with_two_last)).1
  = Raise AssertionError.
Proof.
  apply (resume_training_assertion Inputs.resume_cfg Inputs.fresh_status
           Inputs.dir_with_two_last); [reflexivity|reflexivity|].
  vm_compute. lia.
Defined.

Lemma resume_after_save_witness :
  ∃ fs1,
    save_checkpoint Inputs.higher_acc Inputs.no_dist Inputs.train_cfg
      (RunState (Inputs.status_epoch 1 90) ∅)
    = (Ok (),
       RunState (set_best_metrics {["acc" := 90]} (Inputs.status_epoch 1 90)) fs1)
    ∧ resume_training Inputs.resume_cfg (RunState Inputs.fresh_status fs1)
      = (Ok (),
         RunState (TrainerStatus 0 2 100 ∅ {["acc" := 90]} 11 12 13 0 100) fs1).
Proof.
  apply (resume_after_save Inputs.higher_acc Inputs.no_dist Inputs.train_cfg
           Inputs.resume_cfg (Inputs.status_epoch 1 90) Inputs.fresh_status ∅);
    [reflexivity|reflexivity|reflexivity|vm_compute; lia|vm_compute; lia|done
    |reflexivity|reflexivity|done].
Defined.

(** C1. The checkpoint written after epoch 1, the one last checkpoint of
    the work dir [outputs/run1], holds the validation metrics
    [{"acc": 90}] under the key ["last_metric"]; resuming from it restores
    the state dicts, starts at epoch 2 with [train_iters] 100 and the saved
    best metrics, and leaves the metrics empty. *)
Theorem resume_training_drops_last_metrics :
  let saved := files Inputs.run_after_epoch1 in
  let resumed :=
    resume_training Inputs.resume_cfg (RunState Inputs.fresh_status saved) in
  (saved !! "outputs/run1/checkpoint_last_epoch_1.pth" ≫= (.!! "last_metric"))
    = Some (CMetrics {["acc" := 90]})
  ∧ listing Inputs.work_dir last_pattern saved
    = ["outputs/run1/checkpoint_last_epoch_1.pth"]
  ∧ glob (join Inputs.work_dir last_pattern) saved
    = ["outputs/run1/checkpoint_last_epoch_1.pth"]
  ∧ resumed.1 = Ok ()
  ∧ status resumed.2
    = TrainerStatus 0 2 100 ∅ {["acc" := 90]} 11 12 13 0 100.
Proof. vm_compute. done. Qed.
End TrainerResumeFacts.

Module TrainerEdgeFacts.
Import Py DistMisc TrainerMisc WorkDir GlobFacts TrainerMiscFacts
  TrainerResumeFacts.

#[local] Arguments fnmatch : simpl never.
#[local] Arguments path_match : simpl never.
#[local] Arguments join : simpl never.

Section Trainer.
Context {SD MV : Type}.
Context (choose_best : gmap string MV → gmap string MV → gmap string MV * bool).
Implicit Types (ts : trainer_status SD MV)
  (fs : gmap string (gmap string (ckpt_value SD MV)))
  (w : run_state SD MV).

(** [resume_training] reads the work dir and never writes to it. *)
Lemma resume_training_keeps_files c w :
  files (resume_training c w).2 = files w.
Proof.
  unfold resume_training. destruct (truthy (trainer_resume c)); [|done].
  destruct w as [ts fs].
  cbv [mbind mret stmt_bind stmt_ret result_bind bind lift raise assert
       get_files get_status update_status torch_load getitem get_metrics
       as_state as_int as_metrics].
  cbn [files status fst snd].
  case_bool_decide; [|done]. cbn [files status fst snd].
  match goal with |- context [fs !! ?p] => destruct (fs !! p) as [ck|] end; [|done].
  repeat (match goal with
          | |- context [ck !! ?k] => destruct (ck !! k) as [[]|]
          | |- context [env_amp c] => destruct (env_amp c)
          end; cbn [files snd]; try done).
Qed.

(** What [save_over] may touch: the paths that [glob] finds, and the
    new path. *)
Lemma save_over_frame pathname new_path save_files w path :
  path ≠ new_path → path_match pathname path = false →
  files (save_over pathname new_path save_files w).2 !! path = files w !! path.
Proof.
  intros Hnew Hpath. destruct w as [ts fs]. unfold save_over. run_stmt.
  case_bool_decide; [|done]. run_stmt.
  destruct (glob pathname fs) as [|old [|??]] eqn:Hg; run_stmt.
  - by apply lookup_insert_ne.
  - assert (path_match pathname old = true) as Hold.
    { apply (elem_of_glob pathname fs). rewrite Hg. by left. }
    unfold rename. rewrite lookup_insert_eq.
    rewrite lookup_insert_ne by done.
    rewrite lookup_delete_ne by (intros <-; congruence).
    apply lookup_insert_ne. intros <-; congruence.
  - by apply lookup_insert_ne.
Qed.

Lemma leaves_file_bind {A B} name (m : @stmt SD MV A) (k : A → @stmt SD MV B) :
  leaves_file name m → (∀ a, leaves_file name (k a)) →
  leaves_file name (m ≫= k).
Proof.
  intros Hm Hk w. unfold mbind, stmt_bind. specialize (Hm w).
  destruct (m w) as [[a|e] w1]; [|done]. cbn in Hm. by rewrite Hk.
Qed.

Lemma leaves_file_if {A} name (b : bool) (m1 m2 : @stmt SD MV A) :
  leaves_file name m1 → leaves_file name m2 →
  leaves_file name (if b then m1 else m2).
Proof. by destruct b. Qed.

(** Whatever the work dir, [save_checkpoint] leaves every file alone
    whose name is not that of a best or last checkpoint. *)
Lemma save_checkpoint_frame d c w path :
  fnmatch best_pattern (basename path) = false →
  fnmatch last_pattern (basename path) = false →
  files (save_checkpoint choose_best d c w).2 !! path = files w !! path.
Proof.
  intros Hb Hl.
  assert (∀ e, path ≠ join (info_work_dir c) (best_name e)) as Hbest_new.
  { intros e ->. rewrite basename_join in Hb by apply no_sep_best_name.
    by rewrite best_name_matches in Hb. }
  assert (∀ e, path ≠ join (info_work_dir c) (last_name e)) as Hlast_new.
  { intros e ->. rewrite basename_join in Hl by apply no_sep_last_name.
    by rewrite last_name_matches in Hl. }
  assert (path_match (join (info_work_dir c) best_pattern) path = false)
    as Hbest_old.
  { apply not_true_is_false. intros Hm%path_match_basename; [|by left].
    congruence. }
  assert (path_match (join (info_work_dir c) last_pattern) path = false)
    as Hlast_old.
  { apply not_true_is_false. intros Hm%path_match_basename; [|by right].
    congruence. }
  revert w.
  change (@leaves_file SD MV _ path (save_checkpoint choose_best d c)).
  unfold save_checkpoint. apply leaves_file_if; [|done].
  apply leaves_file_bind; [done|]. intros ts.
  destruct (choose_best _ _) as [best save_flag].
  apply leaves_file_bind; [done|]. intros _.
  apply leaves_file_bind; [done|]. intros ts1.
  apply leaves_file_bind.
  { apply leaves_file_if; [|done]. intros w. by apply save_over_frame. }
  intros _. apply leaves_file_bind.
  { unfold mod_is_zero. by apply leaves_file_if. }
  intros due. apply leaves_file_if; [|done]. intros w.
  by apply save_over_frame.
Qed.

(** More than one best checkpoint in a work dir whose path has none of
    the characters [*], [?] and ["["]: the assertion fails before
    anything is written, after [best_metrics] was updated. *)
Lemma save_checkpoint_too_many_best d c ts fs :
  has_magic (info_work_dir c) = false →
  is_main_process d = true →
  (choose_best (metrics ts) (best_metrics ts)).2 = true →
  (1 < length (listing (info_work_dir c) best_pattern fs))%nat →
  save_checkpoint choose_best d c (RunState ts fs)
  = (Raise AssertionError,
     RunState
       (set_best_metrics (choose_best (metrics ts) (best_metrics ts)).1 ts) fs).
Proof.
  intros Hdir Hmain Hflag Hmany.
  rewrite <-glob_listing in Hmany by (done || by left).
  unfold save_checkpoint. rewrite Hmain.
  erewrite bind_ok by reflexivity. cbn [status files].
  destruct (choose_best (metrics ts) (best_metrics ts)) as [best save_flag].
  cbn in Hflag. subst save_flag.
  cbv beta iota. do 2 (erewrite bind_ok by reflexivity).
  cbn [status files fst].
  erewrite bind_raise; [done|].
  unfold save_over. erewrite bind_ok by reflexivity. cbn [files].
  rewrite bool_decide_false by lia. by erewrite bind_raise by reflexivity.
Qed.

(** A zero [save_interval], for a work dir whose path has none of the
    characters [*], [?] and ["["]: the best checkpoint is written when
    due, then the modulo raises. *)
Lemma save_checkpoint_zero_interval d c ts fs :
  has_magic (info_work_dir c) = false →
  is_main_process d = true →
  (length (listing (info_work_dir c) best_pattern fs) ≤ 1)%nat →
  trainer_save_interval c = 0 →
  let work_dir := info_work_dir c in
  let out := save_checkpoint choose_best d c (RunState ts fs) in
  let save_flag := (choose_best (metrics ts) (best_metrics ts)).2 in
  out.1 = Raise ZeroDivisionError
  ∧ (save_flag = true →
       listing work_dir best_pattern (files out.2)
       = [join work_dir (best_name (epoch ts))])
  ∧ (save_flag = false → files out.2 = fs)
  ∧ listing work_dir last_pattern (files out.2)
    = listing work_dir last_pattern fs.
Proof.
  intros Hdir Hmain Hbest Hz. cbv zeta.
  rewrite <-glob_listing in Hbest by (done || by left).
  rewrite <-!(glob_listing _ best_pattern) by (done || by left).
  rewrite <-!(glob_listing _ last_pattern) by (done || by right).
  unfold save_checkpoint. rewrite Hmain.
  erewrite bind_ok by reflexivity. cbn [status files].
  destruct (choose_best (metrics ts) (best_metrics ts)) as [best save_flag].
  cbv beta iota. do 2 (erewrite bind_ok by reflexivity).
  cbn [status files fst snd].
  change (epoch (set_best_metrics best ts)) with (epoch ts).
  set (ts1 := set_best_metrics best ts).
  unfold mod_is_zero. rewrite Hz, bool_decide_true by done.
  destruct save_flag.
  - destruct (save_over_spec (join (info_work_dir c) best_pattern)
                (join (info_work_dir c) (best_name (epoch ts)))
                (save_files_best ts1) ts1 fs Hbest
                (path_match_best_name _ _ Hdir))
      as (fs1 & Hrun & Hg & _ & Ho).
    rewrite (bind_ok _ _ _ _ _ Hrun). erewrite bind_raise by reflexivity.
    cbn [fst snd files]. split_and!; [done|done|done|].
    apply glob_ext. intros path Hn. apply Ho. by apply path_last_not_best.
  - erewrite bind_ok by reflexivity. erewrite bind_raise by reflexivity.
    cbn [fst snd files]. by split_and!.
Qed.

(** For a work dir whose path has none of the characters [*], [?] and
    ["["]: a checkpoint written with [amp] on and a false
    [cfg.env.device] holds no scaler; resuming from it with [amp] on
    loads the other state dicts and then fails on the missing key. *)
Lemma resume_without_scaler d c ts ts0 fs :
  has_magic (info_work_dir c) = false →
  is_main_process d = true →
  (length (listing (info_work_dir c) best_pattern fs) ≤ 1)%nat →
  (length (listing (info_work_dir c) last_pattern fs) ≤ 1)%nat →
  trainer_save_interval c ≠ 0 →
  (epoch ts + 1) `mod` trainer_save_interval c = 0 →
  truthy (trainer_resume c) = true →
  env_amp c = true → truthy (env_device c) = false →
  ∃ ts1 fs1,
    save_checkpoint choose_best d c (RunState ts fs) = (Ok (), RunState ts1 fs1)
    ∧ resume_training c (RunState ts0 fs1)
      = (Raise (KeyError "scaler"),
         RunState
           (set_lr_scheduler (lr_scheduler ts)
              (set_optimizer (optimizer ts)
                 (set_model (model_without_ddp ts) ts0)))
           fs1).
Proof.
  intros Hdir Hmain Hbest Hlast Hnz Hdue Hres Hamp Hdev.
  destruct (save_checkpoint_writes_last choose_best d c ts fs
              Hdir Hmain Hbest Hlast Hnz Hdue) as (fs1 & Hsave & Hglob & Hfile).
  eexists _, fs1. split; [exact Hsave|].
  set (ts1 := set_best_metrics _ ts) in *.
  destruct (save_files_last_lookup c ts1)
    as (Hm & Ho & Hl & _ & _ & _ & _ & Hs).
  rewrite Hamp, Hdev in Hs. cbn in Hs.
  unfold resume_training. rewrite Hres.
  erewrite bind_ok by reflexivity. cbn [files]. rewrite Hglob.
  erewrite bind_ok by reflexivity. cbn [head default].
  erewrite bind_ok by (by apply torch_load_run).
  unfold getitem. rewrite Hm, Ho, Hl, Hamp, Hs. reflexivity.
Qed.
End Trainer.

Lemma save_checkpoint_frame_witness :
  files (save_checkpoint Inputs.higher_acc Inputs.no_dist Inputs.train_cfg
           (RunState (Inputs.status_epoch 1 90) Inputs.dir_with_config)).2
    !! "outputs/run1/cfg.yaml"
  = Inputs.dir_with_config !! "outputs/run1/cfg.yaml".
Proof.
  apply (save_checkpoint_frame Inputs.higher_acc Inputs.no_dist
           Inputs.train_cfg (RunState (Inputs.status_epoch 1 90)
                               Inputs.dir_with_config) "outputs/run1/cfg.yaml");
    vm_compute; reflexivity.
Defined.

Lemma save_checkpoint_too_many_best_witness :
  save_checkpoint Inputs.higher_acc Inputs.no_dist Inputs.train_cfg
    (RunState (Inputs.status_epoch 1 90) Inputs.dir_with_two_best)
  = (Raise AssertionError,
     RunState (set_best_metrics {["acc" := 90]} (Inputs.status_epoch 1 90))
       Inputs.dir_with_two_best).
Proof.
  apply (save_checkpoint_too_many_best Inputs.higher_acc Inputs.no_dist
           Inputs.train_cfg (Inputs.status_epoch 1 90) Inputs.dir_with_two_best);
    [reflexivity|reflexivity|reflexivity|vm_compute; lia].
Defined.

Lemma save_checkpoint_zero_interval_witness :
  let out :=
    save_checkpoint Inputs.higher_acc Inputs.no_dist Inputs.zero_interval_cfg
      (RunState (Inputs.status_epoch 1 90) ∅) in
  out.1 = Raise ZeroDivisionError
  ∧ listing Inputs.work_dir best_pattern (files out.2)
    = ["outputs/run1/checkpoint_best_epoch_1.pth"]
  ∧ listing Inputs.work_dir last_pattern (files out.2) = [].
Proof.
  destruct (save_checkpoint_zero_interval Inputs.higher_acc Inputs.no_dist
              Inputs.zero_interval_cfg (Inputs.status_epoch 1 90) ∅)
    as (Hr & Hb & _ & Hl);
    [reflexivity|reflexivity|vm_compute; lia|reflexivity|].
  split_and!; [exact Hr|by apply Hb|exact Hl].
Defined.

Lemma resume_without_scaler_witness :
  ∃ ts1 fs1,
    save_checkpoint Inputs.higher_acc Inputs.no_dist Inputs.amp_cpu_cfg
      (RunState (Inputs.status_epoch 1 90) ∅) = (Ok (), RunState ts1 fs1)
    ∧ resume_training Inputs.amp_cpu_cfg (RunState Inputs.fresh_status fs1)
      = (Raise (KeyError "scaler"),
         RunState (TrainerStatus 0 1 0 ∅ ∅ 11 12 13 0 100) fs1).
Proof.
  apply (resume_without_scaler Inputs.higher_acc Inputs.no_dist
           Inputs.amp_cpu_cfg (Inputs.status_epoch 1 90) Inputs.fresh_status ∅);
    [reflexivity|reflexivity|vm_compute; lia|vm_compute; lia|done|reflexivity
    |reflexivity|reflexivity|reflexivity].
Defined.

(** In a work dir named with a bracket, [resume_training] does not find
    the last checkpoint that [save_checkpoint] wrote there: [glob] comes
    back empty and the assertion fails. *)
Lemma resume_training_bracket_dir :
  let work_dir := info_work_dir Inputs.sweep_resume_cfg in
  let saved := files Inputs.sweep_after_epoch1 in
  listing work_dir last_pattern saved
  = ["outputs/bs_[64, 128]/checkpoint_last_epoch_1.pth"]
  ∧ glob (join work_dir last_pattern) saved = []
  ∧ resume_training Inputs.sweep_resume_cfg (RunState Inputs.fresh_status saved)
    = (Raise AssertionError, RunState Inputs.fresh_status saved).
Proof. cbv zeta. split_and!; vm_compute; reflexivity. Qed.
End TrainerEdgeFacts.

Module CollateFacts.
Import Py PyFacts Torch DataModule.

Section Collate.
Context `{Elem T}.
Implicit Types (v w first : sample T) (data column : list (sample T))
  (items : list (string * sample T)).

Lemma sample_nested_ind (P : sample T → Prop) :
  (∀ t, P (VTensor t)) →
  (∀ s, P (VStr s)) →
  (∀ items, Forall (λ kv, P kv.2) items → P (VDict items)) →
  (∀ xs, P (VList xs)) →
  (∀ n, P (VInt n)) →
  ∀ v, P v.
Proof.
  intros Ht Hs Hd Hl Hn. fix IH 1. intros [t|s|items|xs|n]; [done..| |done|done].
  apply Hd. revert items. fix IHitems 1. intros [|[k v] items].
  - constructor.
  - constructor; [apply IH|apply IHitems].
Qed.

Lemma mapM_Forall2 {A B} (f : A → result B) xs ys :
  Forall2 (λ x y, f x = Ok y) xs ys → mapM f xs = Ok ys.
Proof.
  induction 1 as [|x y xs ys Hxy _ IH]; [done|].
  by rewrite mapM_cons, Hxy, IH.
Qed.

(** The column of a key that every element has. *)
Lemma column_exists k v data :
  Forall (λ d, ∃ w, sample_getitem k d = Ok w ∧ similar v w = true) data →
  ∃ column,
    mapM (sample_getitem k) data = Ok column
    ∧ length column = length data
    ∧ Forall (λ w, similar v w = true) column.
Proof.
  induction 1 as [|d data (w & Hw & Hsim) _ (column & Hc & Hlen & Hall)].
  - by exists [].
  - exists (w :: column). rewrite mapM_cons, Hw, Hc. split_and!; [done| |by constructor].
    simpl. by rewrite Hlen.
Qed.

Lemma similar_dict_entry items d k v :
  similar (VDict items) d = true → (k, v) ∈ items →
  ∃ w, sample_getitem k d = Ok w ∧ similar v w = true.
Proof.
  destruct d as [| |items'| |]; try done. simpl.
  rewrite forallb_forall. intros Hall Hin.
  apply list_elem_of_In in Hin. specialize (Hall _ Hin). simpl in Hall.
  unfold getitem_assoc. destruct (assoc items' k) as [w|]; [|done]. by exists w.
Qed.

Lemma tensors_of_column t column :
  Forall (λ w, similar (VTensor t) w = true) column →
  ∃ ts, mapM as_tensor column = Ok ts
        ∧ length ts = length column
        ∧ Forall (λ t', shape t' = shape t) ts.
Proof.
  induction 1 as [|w column Hw _ (ts & Hts & Hlen & Hall)].
  - by exists [].
  - destruct w as [t'| | | |]; try done. simpl in Hw.
    apply bool_decide_eq_true in Hw.
    exists (t' :: ts). rewrite mapM_cons, Hts. split_and!; [done| |by constructor].
    simpl. by rewrite Hlen.
Qed.

Lemma stack_same_shape sh (ts : list (tensor T)) :
  ts ≠ [] → Forall (λ t, shape t = sh) ts →
  stack ts = Ok (TStack ts) ∧ shape (TStack ts) = length ts :: sh.
Proof.
  intros Hne Hall. destruct ts as [|t ts]; [done|].
  apply Forall_cons in Hall as [Ht Hall]. unfold stack.
  assert (same_shape t ts = true) as ->.
  { unfold same_shape. apply forallb_forall. intros t' Ht'.
    apply bool_decide_eq_true. rewrite Forall_forall in Hall.
    rewrite Ht. apply Hall. by apply list_elem_of_In. }
  simpl. by rewrite Ht.
Qed.

Lemma assoc_NoDup items k v :
  NoDup items.*1 → (k, v) ∈ items → assoc items k = Some v.
Proof.
  induction items as [|[k' v'] items IH]; [by intros _ ?%elem_of_nil|].
  csimpl. intros [Hk' Hnd]%NoDup_cons [[= -> ->]|Hin]%elem_of_cons.
  - by rewrite decide_True.
  - rewrite decide_False; [by apply IH|].
    intros ->. apply Hk'. apply list_elem_of_fmap. by exists (k, v).
Qed.

Lemma unique_keys_dict items :
  unique_keys (VDict items) = true →
  NoDup items.*1 ∧ Forall (λ kv, unique_keys kv.2 = true) items.
Proof.
  simpl. intros [Hnd Hall]%andb_true_iff.
  apply bool_decide_eq_true in Hnd. split; [done|].
  apply Forall_forall. intros kv Hin. rewrite forallb_forall in Hall.
  apply Hall. by apply list_elem_of_In.
Qed.

Lemma similar_refl v : unique_keys v = true → similar v v = true.
Proof.
  induction v as [t|s|items IH|xs|n] using sample_nested_ind; try done.
  - intros _. simpl. by apply bool_decide_eq_true.
  - intros [Hnd Hall]%unique_keys_dict. simpl. apply forallb_forall.
    intros [k v] Hin%list_elem_of_In. simpl.
    rewrite (assoc_NoDup items k v) by done.
    rewrite Forall_forall in IH, Hall. by apply (IH _ Hin), (Hall _ Hin).
Qed.

Lemma strings_of_column s column :
  Forall (λ w, similar (VStr s) w = true) column →
  Forall (λ w, ∃ s', w = VStr s') column.
Proof.
  intros Hall. eapply Forall_impl; [exact Hall|].
  intros [| s'| | |]; try done. by exists s'.
Qed.

(** The statement proved by induction on the first element. *)
Definition collates (first : sample T) : Prop :=
  ∀ rest,
    unique_keys first = true →
    Forall (λ d, similar first d = true) rest →
    match first with
    | VDict items =>
        if supported first
        then ∃ batch,
               collate_first first (first :: rest) = Ok (VDict batch)
               ∧ Forall2 (batched (first :: rest)) items batch
        else collate_first first (first :: rest) = Raise NotImplementedError
    | _ => True
    end.

Lemma collate_entry_spec data first rest k v :
  data = first :: rest →
  collates v →
  unique_keys v = true →
  sample_getitem k first = Ok v →
  Forall (λ d, ∃ w, sample_getitem k d = Ok w ∧ similar v w = true) rest →
  if supported v
  then ∃ x, collate_entry collate_first data k v = Ok x
            ∧ batched data (k, v) (k, x)
  else collate_entry collate_first data k v = Raise NotImplementedError.
Proof.
  intros -> IH Huniq Hfirst Hrest.
  destruct (column_exists k v rest Hrest) as (col & Hcol & Hlen & Hsim).
  assert (mapM (sample_getitem k) (first :: rest) = Ok (v :: col)) as Hcolumn.
  { by rewrite mapM_cons, Hfirst, Hcol. }
  assert (length (v :: col) = length (first :: rest)) as Hlength.
  { simpl. by rewrite Hlen. }
  assert (Forall (λ w, similar v w = true) (v :: col)) as Hall.
  { constructor; [by apply similar_refl|done]. }
  destruct v as [t|s|items|xs|n]; try done.
  - (* tensor *)
    destruct (tensors_of_column t _ Hall) as (ts & Hts & Hlts & Hshape).
    destruct (stack_same_shape (shape t) ts) as [Hstack Hsh];
      [by destruct ts|done|].
    exists (VTensor (TStack ts)). unfold collate_entry, batched.
    rewrite Hcolumn. cbv [mbind result_bind bind].
    rewrite Hts, Hstack. cbn [fmap result_fmap fst snd].
    split_and!; [done..|].
    exists (VTensor t :: col). split_and!; [done..|].
    exists ts. split_and!; [done..|]. by rewrite Hsh, Hlts, Hlength.
  - (* string *)
    exists (VList (VStr s :: col)). unfold collate_entry, batched.
    rewrite Hcolumn. cbv [mbind result_bind bind]. cbn [fst snd].
    split_and!; [done..|].
    exists (VStr s :: col). split_and!; [done..|].
    by eapply strings_of_column.
  - (* nested dict *)
    specialize (IH col Huniq Hsim). unfold collate_entry. rewrite Hcolumn.
    cbv [mbind result_bind bind].
    destruct (supported (VDict items)); [|done].
    destruct IH as (batch & Hbatch & _).
    exists (VDict batch). split; [done|]. unfold batched. cbn [fst snd].
    split; [done|]. exists (VDict items :: col). by split_and!.
Qed.

Lemma collate_items_spec data first rest items :
  data = first :: rest →
  Forall (λ kv,
    collates kv.2 ∧ unique_keys kv.2 = true
    ∧ sample_getitem kv.1 first = Ok kv.2
    ∧ Forall (λ d, ∃ w, sample_getitem kv.1 d = Ok w
                        ∧ similar kv.2 w = true) rest) items →
  if forallb (λ kv, supported kv.2) items
  then ∃ batch, collate_items collate_first data items = Ok batch
                ∧ Forall2 (batched data) items batch
  else collate_items collate_first data items = Raise NotImplementedError.
Proof.
  intros Hdata. induction 1 as [|[k v] items (IHv & Hu & Hf & Hr) _ IH].
  - exists []. by split.
  - pose proof (collate_entry_spec data first rest k v Hdata IHv Hu Hf Hr)
      as Hentry.
    cbn [forallb snd collate_items]. fold (collate_items collate_first data).
    cbv [mbind result_bind bind].
    destruct (supported v); cbn [andb].
    + destruct Hentry as (x & -> & Hx).
      destruct (forallb (λ kv, supported kv.2) items).
      * destruct IH as (batch & -> & Hbatch).
        exists ((k, x) :: batch). split; [done|by constructor].
      * by rewrite IH.
    + by rewrite Hentry.
Qed.

Lemma collates_all first : collates first.
Proof.
  induction first as [t|s|items IH|xs|n] using sample_nested_ind; try done.
  intros rest Huniq Hrest.
  destruct (unique_keys_dict items Huniq) as [Hnd Hall].
  pose proof (collate_items_spec (VDict items :: rest) (VDict items) rest items
                eq_refl) as Hloop.
  cbn [supported collate_first]. cbv [fmap result_fmap].
  destruct (forallb (λ kv, supported kv.2) items);
    [destruct Hloop as (batch & -> & Hbatch); [|by exists batch]
    |rewrite Hloop; [done|]];
    (apply Forall_forall; intros [k v] Hin;
     rewrite Forall_forall in IH; rewrite Forall_forall in Hall;
     rewrite Forall_forall in Hrest;
     split_and!;
     [by apply (IH _ Hin)
     |by apply (Hall _ Hin)
     |cbn; unfold getitem_assoc; by rewrite (assoc_NoDup items k v)
     |apply Forall_forall; intros d Hd;
      by apply (similar_dict_entry items d k v (Hrest d Hd))]).
Qed.

(** C8. For a batch whose first element is a dict (each key once) and
    whose other elements have its keys, with values of the same type and
    tensors of the same shape: when the first element holds only
    tensors, strings and dicts of these, [collate_fn] returns a dict
    with the keys of the first element, in which a tensor entry is the
    stack of the key's tensors with a new leading dimension
    [len(data)], a string entry the list of the key's values, and a
    dict entry the collated column; when it holds a value of another
    type, [collate_fn] raises [NotImplementedError]. *)
Theorem collate_fn_batches items rest :
  let data := VDict items :: rest in
  unique_keys (VDict items) = true →
  Forall (λ d, similar (VDict items) d = true) rest →
  if supported (VDict items)
  then ∃ batch,
         collate_fn data = Ok (VDict batch)
         ∧ batch.*1 = items.*1
         ∧ Forall2 (batched data) items batch
  else collate_fn data = Raise NotImplementedError.
Proof.
  intros data Huniq Hrest.
  pose proof (collates_all (VDict items) rest Huniq Hrest) as Hc.
  cbv beta iota in Hc. unfold collate_fn, data.
  destruct (supported (VDict items)); [|done].
  destruct Hc as (batch & Hrun & Hbatch). exists batch.
  split_and!; [done| |done].
  clear Hrun. induction Hbatch as [|kv kx ?? [Hk _] _ IH]; [done|].
  csimpl. by rewrite Hk, IH.
Qed.
End Collate.

Lemma collate_fn_batches_witness :
  (∃ batch,
     collate_fn (VDict Inputs.item0 :: [VDict Inputs.item1]) = Ok (VDict batch)
     ∧ batch.*1 = Inputs.item0.*1
     ∧ Forall2 (batched (VDict Inputs.item0 :: [VDict Inputs.item1]))
         Inputs.item0 batch)
  ∧ collate_fn (VDict Inputs.labelled_item :: [VDict Inputs.labelled_item])
    = Raise NotImplementedError.
Proof.
  split.
  - apply (collate_fn_batches Inputs.item0 [VDict Inputs.item1]).
    + vm_compute. reflexivity.
    + repeat constructor.
  - apply (collate_fn_batches Inputs.labelled_item [VDict Inputs.labelled_item]).
    + vm_compute. reflexivity.
    + repeat constructor.
Defined.
End CollateFacts.

Module LoaderFacts.
Import Py PyFacts Torch DataModule.

Section Loader.
Context {I B : Type} (fetch : I → B).
Implicit Types (smp : sampler I) (st : repeat_state I) (xs : list I).






End Loader.

End LoaderFacts.

Module GatherMoreFacts.
Import Py PyFacts Torch DistMisc DistMiscFacts GatherFacts.

Section Gather.
Context {Data : Type}.
Context (dumps : Data → list byte) (loads : list byte → result Data).

Lemma unpickle_ignores_padding (f : Data → nat) (g1 g2 : nat → Data → list byte)
    (l : list Data) :
  (∀ i x, take (f x) (g1 i x) = take (f x) (g2 i x)) →
  mapM (λ '(size, tensor), loads (take size tensor)) (zip (f <$> l) (imap g1 l))
  = mapM (λ '(size, tensor), loads (take size tensor)) (zip (f <$> l) (imap g2 l)).
Proof.
  intros Hg. revert g1 g2 Hg. induction l as [|x l IH]; intros g1 g2 Hg; [done|].
  rewrite fmap_cons, !imap_cons. cbn [zip zip_with].
  rewrite !mapM_cons, Hg. f_equal.
  rewrite (IH (g1 ∘ S) (g2 ∘ S)); [done|]. intros i y. apply Hg.
Qed.

(** The bytes that [torch.empty] leaves in the padding and in the
    receive buffers never reach [pickle.loads]: whatever the memory
    holds, [all_gather] has the same outcome. *)
Theorem all_gather_ignores_padding (memory memory' : nat → nat → byte)
    d peers data :
  all_gather dumps loads memory d peers data
  = all_gather dumps loads memory' d peers data.
Proof.
  unfold all_gather. case_bool_decide; [done|].
  destruct (collective d peers data) as [world|e]; [|done].
  cbv [mbind result_bind bind].
  apply unpickle_ignores_padding. intros i x. by rewrite !take_padded.
Qed.

Lemma max_list_ge (l : list nat) n : n ∈ l → (n ≤ max_list l)%nat.
Proof.
  induction 1 as [n l|n m l _ IH]; simpl; lia.
Qed.

Lemma max_list_attained (l : list nat) : l ≠ [] → max_list l ∈ l.
Proof.
  induction l as [|n l IH]; [done|]. intros _.
  change (max_list (n :: l)) with (n `max` max_list l)%nat.
  destruct l as [|m l].
  - cbn [max_list]. rewrite Nat.max_0_r. by left.
  - destruct (Nat.max_spec n (max_list (m :: l))) as [[_ ->]|[_ ->]].
    + right. by apply IH.
    + by left.
Qed.

(** Every rank sends a tensor of exactly [max_size] bytes, as the
    collective asks for. *)
Lemma all_gather_buffers_max_size (memory : nat → nat → byte)
    (world : list Data) rank data :
  world !! rank = Some data →
  let size_list := (λ p, length (dumps p)) <$> world in
  let max_size := max_list size_list in
  length (padded dumps memory rank data max_size) = max_size
  ∧ (length (dumps data) ≤ max_size)%nat
  ∧ ∃ winner, winner ∈ world ∧ length (dumps winner) = max_size.
Proof.
  intros Hrank size_list max_size.
  assert (length (dumps data) ≤ max_size)%nat as Hle.
  { apply max_list_ge. unfold size_list.
    apply list_elem_of_fmap. exists data. split; [done|].
    by eapply list_elem_of_lookup_2. }
  split_and!; [by apply length_padded|done|].
  assert (size_list ≠ []) as Hne.
  { unfold size_list. intros Hnil%fmap_nil_inv. by rewrite Hnil in Hrank. }
  apply max_list_attained in Hne.
  apply list_elem_of_fmap in Hne as (winner & Hw & Hin). by exists winner.
Qed.
End Gather.

End GatherMoreFacts.


Module ReduceDictMoreFacts.
Import Py PyFacts Torch DistMisc DistMiscFacts StrOrderFacts.

Section ReduceDict.
Context `{Elem T} `{Dtype T}.
Implicit Types (t : tensor T) (p dict : list (string * tensor T))
  (world : list (list (string * tensor T))) (names : list string).

Lemma shape_tzip (f : T → T → T) : ∀ a b, shape a = shape b → shape (tzip f a b) = shape a.
Proof.
  fix IH 1. intros [x|ra] [y|rb]; try done.
  cbn [tzip shape]. intros [= Hlen Hrow].
  rewrite length_zip_with, <-Hlen, Nat.min_id. f_equal.
  destruct ra as [|r ra], rb as [|r' rb]; try done.
  cbn [zip_with]. by apply IH.
Qed.

Lemma shape_tmap (f : T → T) : ∀ a, shape (tmap f a) = shape a.
Proof.
  fix IH 1. intros [x|ra]; [done|].
  cbn [tmap shape]. rewrite length_map. f_equal.
  destruct ra as [|r ra]; [done|]. cbn [map]. apply IH.
Qed.

Lemma shape_foldl_tadd (ts : list (tensor T)) : ∀ t,
  same_shape t ts = true → shape (foldl tadd t ts) = shape t.
Proof.
  induction ts as [|t' ts IH]; intros t; [done|].
  unfold same_shape. cbn [forallb foldl].
  intros [Ht' Hts]%andb_true_iff. apply bool_decide_eq_true in Ht'.
  rewrite IH.
  - apply shape_tzip. done.
  - unfold same_shape, tadd. rewrite shape_tzip by done. done.
Qed.

Lemma reduce_op_sum_shape (contributions : list (tensor T)) total t :
  reduce_op_sum contributions = Ok total → t ∈ contributions →
  shape total = shape t.
Proof.
  destruct contributions as [|t0 ts]; [done|]. unfold reduce_op_sum.
  destruct (same_shape t0 ts) eqn:Hsame; [|done]. intros [= <-] Hin.
  rewrite shape_foldl_tadd by done.
  apply elem_of_cons in Hin as [->|Hin]; [done|].
  unfold same_shape in Hsame. rewrite forallb_forall in Hsame.
  apply list_elem_of_In in Hin. specialize (Hsame _ Hin).
  by apply bool_decide_eq_true in Hsame.
Qed.

Lemma mapM_inv {A B} (f : A → result B) xs ys :
  mapM f xs = Ok ys → Forall2 (λ x y, f x = Ok y) xs ys.
Proof.
  revert ys. induction xs as [|x xs IH]; intros ys.
  - intros [= <-]. constructor.
  - rewrite mapM_cons. destruct (f x) as [y|] eqn:Hy; [|done].
    cbv [mbind result_bind bind].
    destruct (mapM f xs) as [ys'|] eqn:Hys; [|done].
    intros [= <-]. constructor; [done|]. by apply IH.
Qed.

Lemma stacked_values_shape dict v :
  stacked_values dict = Ok v →
  ∃ sh, shape v = length (sorted_keys dict) :: sh.
Proof.
  unfold stacked_values. cbv [mbind result_bind bind].
  destruct (mapM _ _) as [values|] eqn:Hvalues; [|done].
  apply mapM_inv, Forall2_length in Hvalues.
  unfold stack. destruct values as [|t ts]; [done|].
  destruct (same_shape t ts); [|done]. intros [= <-].
  eexists. cbn [shape]. by rewrite Hvalues.
Qed.

(** Whenever [reduce_dict] returns in a world of at least two, it
    returns a new dict, leaves the other objects (the input dict among
    them) as they are, and the keys of the new dict are those of the
    input in sorted order, whatever the insertion order was. *)
Theorem reduce_dict_returns_sorted d peers average l h res h' :
  2 ≤ get_world_size d →
  reduce_dict d peers average l h = (Ok res, h') →
  ∃ dict reduced,
    h !! l = Some dict ∧ h !! res = None ∧ h' = <[res := reduced]> h
    ∧ reduced.*1 = sorted_keys dict
    ∧ Sorted str_le reduced.*1.
Proof.
  intros Hws. unfold reduce_dict. rewrite bool_decide_false by lia.
  run_stateful. unfold getitem_ref.
  destruct (h !! l) as [dict|] eqn:Hl; [|done].
  destruct (stacked_values dict) as [v|] eqn:Hv; [|done].
  destruct (stacked_values_shape dict v Hv) as [sh Hsh].
  unfold collective.
  destruct (dist_group d) as [g|]; [|done].
  case_bool_decide as Hg; [|done]. destruct Hg as [Hlen Hrank].
  cbv [mbind result_bind bind].
  destruct (mapM stacked_values _) as [contributions|] eqn:Hc; [|done].
  destruct (reduce_op_sum contributions) as [total|] eqn:Htotal; [|done].
  assert (v ∈ contributions) as Hin.
  { apply mapM_inv in Hc.
    assert (<[pg_rank g := dict]> peers !! pg_rank g = Some dict) as Hown.
    { apply list_lookup_insert_eq. lia. }
    destruct (Forall2_lookup_l _ _ _ _ _ Hc Hown) as (v' & Hv' & Heq).
    rewrite Hv in Heq. injection Heq as <-. by eapply list_elem_of_lookup_2. }
  pose proof (reduce_op_sum_shape _ _ _ Htotal Hin) as Htsh.
  destruct (if average then _ else _) as [values|] eqn:Hdiv; [|done].
  assert (shape values = length (sorted_keys dict) :: sh) as Hvalues.
  { destruct average.
    - unfold div_ in Hdiv. destruct can_cast_float; [|done].
      injection Hdiv as <-. unfold tdiv. rewrite shape_tmap. congruence.
    - injection Hdiv as <-. congruence. }
  destruct values as [x|rows]; [done|]. cbn [iter_rows].
  intros [= <- <-]. exists dict, (zip (sorted_keys dict) rows).
  injection Hvalues as Hrows _.
  assert ((zip (sorted_keys dict) rows).*1 = sorted_keys dict) as Hkeys.
  { apply fst_zip. lia. }
  split_and!; [done|apply fresh_unused|done|done|].
  rewrite Hkeys. apply Sorted_merge_sort, _.
Qed.

(** [reduce_dict] never changes an object it was given: the store
    afterwards extends the one before, and is the one before when the
    call raises. *)
Theorem reduce_dict_frame d peers average l h r h' :
  reduce_dict d peers average l h = (r, h') →
  h ⊆ h' ∧ (∀ e, r = Raise e → h' = h).
Proof.
  unfold reduce_dict. case_bool_decide.
  { intros [= <- <-]. done. }
  run_stateful. unfold getitem_ref.
  destruct (h !! l) as [dict|]; [|by intros [= <- <-]].
  destruct (stacked_values dict) as [v|]; [|by intros [= <- <-]].
  destruct (result_bind _ _ _ (collective d peers dict)) as [total|];
    [|by intros [= <- <-]].
  destruct (if average then _ else _) as [values|]; [|by intros [= <- <-]].
  destruct (iter_rows _) as [rows|]; [|by intros [= <- <-]].
  intros [= <- <-]. split; [apply alloc_extends|done].
Qed.
End ReduceDict.

Lemma reduce_dict_returns_sorted_witness :
  ∃ dict reduced,
    Inputs.dict_store !! 0%nat = Some dict
    ∧ Inputs.dict_store !! fresh (dom Inputs.dict_store) = None
    ∧ (reduce_dict Inputs.rank1_of_2 [Inputs.losses_rank0; []] true 0
         Inputs.dict_store).2
      = <[fresh (dom Inputs.dict_store) := reduced]> Inputs.dict_store
    ∧ reduced.*1 = sorted_keys dict
    ∧ Sorted str_le reduced.*1.
Proof.
  apply (reduce_dict_returns_sorted Inputs.rank1_of_2
           [Inputs.losses_rank0; []] true 0 Inputs.dict_store).
  - vm_compute. discriminate.
  - vm_compute. reflexivity.
Defined.

Lemma reduce_dict_frame_witness :
  let out := reduce_dict (T := Q) Inputs.rank1_of_2 [[]; []] true 0
               {[ 0%nat := [] ]} in
  {[ 0%nat := [] ]} ⊆ out.2 ∧ (∀ e, out.1 = Raise e → out.2 = {[ 0%nat := [] ]}).
Proof.
  apply (reduce_dict_frame Inputs.rank1_of_2 [[]; []] true 0).
  apply surjective_pairing.
Defined.

End ReduceDictMoreFacts.


Module InitMoreFacts.
Import Py PyFacts Torch DistMisc DistMiscFacts InitFacts.

Section Init.
Context (int : string → result Z).
Context (device_count : Z).
Context (set_device : Z → result unit).
Context (init_process_group : string → string → Z → Z → result process_group).

#[local] Abbreviation init := (init_distributed_mode int device_count set_device init_process_group).

#[local] Abbreviation tail := (init_distributed_tail set_device init_process_group).

(** The run of the statements after the [if], once the three
    attributes are there. *)
Lemma init_distributed_tail_run p rank world_size gpu :
  env_rank (proc_cfg p) = Some rank →
  env_world_size (proc_cfg p) = Some world_size →
  env_gpu (proc_cfg p) = Some gpu →
  let c := proc_cfg p in
  let c' :=
    Cfg (Some rank) (Some world_size) (Some gpu) (Some true) (Some "nccl")
      (env_dist_url c) (data_batch_size_per_rank c)
      (Some (data_batch_size_per_rank c * world_size)) in
  tail p =
    match set_device gpu with
    | Raise e =>
        (Raise e, Process c' (proc_dist p) (proc_cuda_device p)
                    (proc_print_master p))
    | Ok _ =>
        match init_process_group "nccl" (env_dist_url c) world_size rank with
        | Raise e =>
            (Raise e, Process c' (proc_dist p) (Some gpu) (proc_print_master p))
        | Ok group =>
            (Ok (), Process c' (Dist true (Some group)) (Some gpu)
                      (Some (bool_decide (rank = 0))))
        end
    end.
Proof.
  intros Hrank Hws Hgpu c c'.
  unfold init_distributed_tail, update_cfg, get_cfg, setup_for_distributed.
  run_stateful. cbn. rewrite Hws, Hgpu, Hrank. cbn.
  unfold set_data_batch_size_total, set_env_dist_backend, set_env_distributed.
  cbn. rewrite Hws, Hgpu, Hrank.
  destruct (set_device gpu); [|done].
  by destruct (init_process_group _ _ _ _).
Qed.

Lemma launcher_cfg environ p rank world_size gpu :
  is_Some (environ !! "RANK") → is_Some (environ !! "WORLD_SIZE") →
  getitem environ "RANK" ≫= int = Ok rank →
  getitem environ "WORLD_SIZE" ≫= int = Ok world_size →
  getitem environ "LOCAL_RANK" ≫= int = Ok gpu →
  init environ p
  = tail (Process
            (set_env_gpu gpu (set_env_world_size world_size
                                (set_env_rank rank (proc_cfg p))))
            (proc_dist p) (proc_cuda_device p) (proc_print_master p)).
Proof.
  intros [sr Hr] [sw Hw] Hrank Hws Hgpu.
  unfold init_distributed_mode. rewrite !is_Some_bool, Hr, Hw. cbn [andb].
  cbv [mbind] in Hrank, Hws, Hgpu.
  unfold update_cfg. run_stateful. by rewrite Hrank, Hws, Hgpu.
Qed.

(** Under a launcher that sets RANK, WORLD_SIZE and LOCAL_RANK the
    attributes of [cfg] are all set before the framework is called;
    the device is selected before the process group is made, and
    [print] is replaced last, so a call that raises leaves [print] (and
    what came after it) as it was. *)
Theorem init_distributed_mode_launcher environ p rank world_size gpu :
  is_Some (environ !! "RANK") → is_Some (environ !! "WORLD_SIZE") →
  getitem environ "RANK" ≫= int = Ok rank →
  getitem environ "WORLD_SIZE" ≫= int = Ok world_size →
  getitem environ "LOCAL_RANK" ≫= int = Ok gpu →
  let c := proc_cfg p in
  let c' :=
    Cfg (Some rank) (Some world_size) (Some gpu) (Some true) (Some "nccl")
      (env_dist_url c) (data_batch_size_per_rank c)
      (Some (data_batch_size_per_rank c * world_size)) in
  init environ p =
    match set_device gpu with
    | Raise e =>
        (Raise e, Process c' (proc_dist p) (proc_cuda_device p)
                    (proc_print_master p))
    | Ok _ =>
        match init_process_group "nccl" (env_dist_url c) world_size rank with
        | Raise e =>
            (Raise e, Process c' (proc_dist p) (Some gpu) (proc_print_master p))
        | Ok group =>
            (Ok (), Process c' (Dist true (Some group)) (Some gpu)
                      (Some (bool_decide (rank = 0))))
        end
    end.
Proof.
  intros HR HW Hrank Hws Hgpu c c'.
  rewrite (launcher_cfg environ p rank world_size gpu) by done.
  by rewrite (init_distributed_tail_run _ rank world_size gpu).
Qed.

(** After a successful call under a launcher, with a framework that
    makes the group it was asked for, [get_rank] and [get_world_size]
    answer RANK and WORLD_SIZE, and [print] prints exactly on the main
    process. *)
Theorem init_distributed_mode_then_rank environ p rank world_size gpu group :
  is_Some (environ !! "RANK") → is_Some (environ !! "WORLD_SIZE") →
  getitem environ "RANK" ≫= int = Ok rank →
  getitem environ "WORLD_SIZE" ≫= int = Ok world_size →
  getitem environ "LOCAL_RANK" ≫= int = Ok gpu →
  set_device gpu = Ok () →
  init_process_group "nccl" (env_dist_url (proc_cfg p)) world_size rank
    = Ok group →
  Z.of_nat (pg_rank group) = rank →
  Z.of_nat (pg_world_size group) = world_size →
  let out := init environ p in
  out.1 = Ok ()
  ∧ get_rank (proc_dist out.2) = rank
  ∧ get_world_size (proc_dist out.2) = world_size
  ∧ proc_print_master out.2 = Some (is_main_process (proc_dist out.2))
  ∧ proc_cuda_device out.2 = Some gpu.
Proof.
  intros HR HW Hrank Hws Hgpu Hdev Hgroup Hr Hw out. unfold out.
  rewrite (launcher_cfg environ p rank world_size gpu) by done.
  rewrite (init_distributed_tail_run _ rank world_size gpu) by done.
  cbn [proc_cfg set_env_gpu set_env_world_size set_env_rank env_dist_url].
  rewrite Hdev, Hgroup. cbn [fst snd proc_dist proc_print_master proc_cuda_device].
  unfold is_main_process, get_rank, get_world_size,
    is_dist_avail_and_initialized, dist_is_initialized, dist_get_rank,
    dist_get_world_size.
  cbn. by rewrite Hr, Hw.
Qed.

(** The SLURM branch sets [rank] and [gpu] and never
    [cfg.env.world_size]: when [cfg] comes without it, the call raises
    AttributeError at the batch size, after it has set [distributed]
    and the backend and before it touches the device, the process
    group or [print].  The device index is the rank modulo the device
    count, a valid index. *)
Theorem init_distributed_mode_slurm_world_size environ p rank :
  ¬ (is_Some (environ !! "RANK") ∧ is_Some (environ !! "WORLD_SIZE")) →
  is_Some (environ !! "SLURM_PROCID") → environ !! "SLURM_PTY_PORT" = None →
  getitem environ "SLURM_PROCID" ≫= int = Ok rank →
  0 < device_count →
  env_world_size (proc_cfg p) = None →
  let c := proc_cfg p in
  let gpu := rank `mod` device_count in
  init environ p
  = (Raise (AttributeError "world_size"),
     Process
       (Cfg (Some rank) None (Some gpu) (Some true) (Some "nccl")
          (env_dist_url c) (data_batch_size_per_rank c)
          (data_batch_size_total c))
       (proc_dist p) (proc_cuda_device p) (proc_print_master p))
  ∧ 0 ≤ gpu < device_count.
Proof.
  intros Hl [sp Hp] Hpty Hrank Hdev Hws c gpu.
  split; [|by apply Z.mod_pos_bound].
  unfold init_distributed_mode. rewrite !is_Some_bool.
  assert ((match environ !! "RANK" with Some _ => true | None => false end
           && match environ !! "WORLD_SIZE" with Some _ => true | None => false end)
          = false) as ->.
  { destruct (environ !! "RANK"), (environ !! "WORLD_SIZE"); try done.
    exfalso; apply Hl; by eauto. }
  rewrite Hp, Hpty. cbn [andb negb].
  cbv [mbind] in Hrank.
  unfold update_cfg, init_distributed_tail, update_cfg, get_cfg.
  run_stateful. rewrite Hrank.
  rewrite bool_decide_false by lia. cbn. rewrite Hws. cbn.
  unfold set_env_dist_backend, set_env_distributed, set_env_gpu, set_env_rank.
  cbn. by rewrite Hws.
Qed.
End Init.

Lemma init_distributed_mode_launcher_witness :
  init_distributed_mode int_of_decimal 1 Inputs.ok_set_device
    Inputs.ok_init_process_group Inputs.env_torchrun Inputs.fresh_process
  = (Ok (),
     Process
       (Cfg (Some 1) (Some 2) (Some 1) (Some true) (Some "nccl") "env://" 8
          (Some (8 * 2)))
       (Dist true (Some (ProcessGroup 1 2))) (Some 1) (Some false)).
Proof.
  apply (init_distributed_mode_launcher int_of_decimal 1 Inputs.ok_set_device
           Inputs.ok_init_process_group Inputs.env_torchrun
           Inputs.fresh_process 1 2 1
           (mk_is_Some _ _ eq_refl) (mk_is_Some _ _ eq_refl));
    reflexivity.
Defined.

Lemma init_distributed_mode_then_rank_witness :
  let out :=
    init_distributed_mode int_of_decimal 1 Inputs.ok_set_device
      Inputs.ok_init_process_group Inputs.env_torchrun Inputs.fresh_process in
  out.1 = Ok ()
  ∧ get_rank (proc_dist out.2) = 1
  ∧ get_world_size (proc_dist out.2) = 2
  ∧ proc_print_master out.2 = Some (is_main_process (proc_dist out.2))
  ∧ proc_cuda_device out.2 = Some 1.
Proof.
  apply (init_distributed_mode_then_rank int_of_decimal 1 Inputs.ok_set_device
           Inputs.ok_init_process_group Inputs.env_torchrun
           Inputs.fresh_process 1 2 1 (ProcessGroup 1 2)
           (mk_is_Some _ _ eq_refl) (mk_is_Some _ _ eq_refl));
    reflexivity.
Defined.

Lemma init_distributed_mode_slurm_world_size_witness :
  init_distributed_mode int_of_decimal 4 Inputs.ok_set_device
    Inputs.ok_init_process_group Inputs.env_slurm Inputs.fresh_process
  = (Raise (AttributeError "world_size"),
     Process
       (Cfg (Some 5) None (Some (5 `mod` 4)) (Some true) (Some "nccl")
          "env://" 8 None)
       (Dist true None) None None)
  ∧ 0 ≤ 5 `mod` 4 < 4.
Proof.
  apply (init_distributed_mode_slurm_world_size int_of_decimal 4
           Inputs.ok_set_device Inputs.ok_init_process_group
           Inputs.env_slurm Inputs.fresh_process 5).
  - intros [[s Hs] _]. vm_compute in Hs. discriminate Hs.
  - exact (mk_is_Some _ _ eq_refl).
  - reflexivity.
  - reflexivity.
  - lia.
  - reflexivity.
Defined.

End InitMoreFacts.


Module WorkerFacts.
Import Py PyFacts DistMisc DataModule.

Lemma get_rank_nonneg d : 0 ≤ get_rank d.
Proof.
  unfold get_rank, is_dist_avail_and_initialized, dist_is_initialized,
    dist_get_rank.
  destruct (dist_is_available d), (dist_group d); simpl; lia.
Qed.

(** With a seed base that is not negative the workers of all ranks are
    seeded differently: with [num_workers] workers per rank, numbered
    from 0, two workers that differ in rank or in number leave [random]
    in different states, whether or not NumPy accepts the seed.  (A
    negative seed base can make two seeds opposite numbers, which
    [random.seed] does not tell apart.) *)
Theorem worker_seeds_distinct seed_base num_workers d1 d2 w1 w2 rng1 rng2 :
  0 ≤ seed_base →
  0 ≤ w1 < num_workers → 0 ≤ w2 < num_workers →
  (get_rank d1, w1) ≠ (get_rank d2, w2) →
  random_seed (get_worker_init_fn seed_base num_workers d1 w1 rng1).2
  ≠ random_seed (get_worker_init_fn seed_base num_workers d2 w2 rng2).2.
Proof.
  intros Hbase H1 H2 Hne. unfold get_worker_init_fn, _seed_worker. run_stateful.
  pose proof (get_rank_nonneg d1) as Hr1. pose proof (get_rank_nonneg d2) as Hr2.
  assert (Z.abs (seed_base + num_workers * get_rank d1 + w1)
          ≠ Z.abs (seed_base + num_workers * get_rank d2 + w2)) as Hseed.
  { rewrite !Z.abs_eq by nia. intros Heq. apply Hne.
    assert (get_rank d1 = get_rank d2) as Hr by nia.
    f_equal; [done|]. rewrite Hr in Heq. lia. }
  repeat case_bool_decide; cbn; congruence.
Qed.

Lemma worker_seeds_distinct_witness :
  random_seed
    (get_worker_init_fn 100 4 Inputs.no_dist 3 (WorkerRng None None)).2
  ≠ random_seed
      (get_worker_init_fn 100 4 Inputs.rank1_of_2 0 (WorkerRng None None)).2.
Proof.
  apply worker_seeds_distinct; [lia|lia|lia|].
  vm_compute. discriminate.
Defined.

End WorkerFacts.

Module DatasetFacts.
Import Py PyFacts DataModule.

Section Datasets.
Context {D W : Type}.
Context (build_train_dataset build_val_dataset build_test_dataset
           : stateful W (option D)).

#[local] Abbreviation get :=
  (get_dataset build_train_dataset build_val_dataset build_test_dataset).

Lemma get_dataset_stores sp s ds s' :
  get sp s = (Ok (Some ds), s') → cached sp s'.1 = Some ds.
Proof.
  destruct sp as [| | |name]; [| | |done]; unfold get_dataset, build;
    run_stateful; destruct s as [[tr va te] w]; cbn.
  - destruct tr as [x|]; cbn; [by intros [= <- <-]|].
    destruct (build_train_dataset w) as [[r|e] w']; cbn; [|done].
    by intros [= -> <-].
  - destruct va as [x|]; cbn; [by intros [= <- <-]|].
    destruct (build_val_dataset w) as [[r|e] w']; cbn; [|done].
    by intros [= -> <-].
  - destruct te as [x|]; cbn; [by intros [= <- <-]|].
    destruct (build_test_dataset w) as [[r|e] w']; cbn; [|done].
    by intros [= -> <-].
Qed.

Lemma get_dataset_hit sp s ds :
  cached sp s.1 = Some ds → get sp s = (Ok (Some ds), s).
Proof.
  destruct sp as [| | |name]; [| | |done]; unfold get_dataset, build;
    run_stateful; destruct s as [[tr va te] w]; cbn; by intros ->.
Qed.

Lemma get_dataset_keeps sp sp2 s ds :
  cached sp s.1 = Some ds → cached sp (get sp2 s).2.1 = Some ds.
Proof.
  intros Hc. destruct sp2 as [| | |name]; [| | |done];
    unfold get_dataset, build; run_stateful;
    destruct s as [[tr va te] w]; cbn in *.
  - destruct tr as [x|]; cbn; [done|].
    destruct (build_train_dataset w) as [[r|e] w']; cbn; [|done].
    by destruct sp.
  - destruct va as [x|]; cbn; [done|].
    destruct (build_val_dataset w) as [[r|e] w']; cbn; [|done].
    by destruct sp.
  - destruct te as [x|]; cbn; [done|].
    destruct (build_test_dataset w) as [[r|e] w']; cbn; [|done].
    by destruct sp.
Qed.

(** A dataset is built once: after [get_dataset(split)] has returned a
    dataset, and whatever calls of [get_dataset] follow (for any
    split, returning or raising), a call for that split returns the
    same dataset without calling a builder, that is, without a change
    to the module or to anything else. *)
Theorem get_dataset_cached sp s ds s' (later : list split) :
  get sp s = (Ok (Some ds), s') →
  let s'' := foldl (λ st sp2, (get sp2 st).2) s' later in
  get sp s'' = (Ok (Some ds), s'').
Proof.
  intros Hget%get_dataset_stores s''. apply get_dataset_hit.
  unfold s''. clear s''. revert s' Hget.
  induction later as [|sp2 later IH]; intros s' Hget; [done|].
  cbn [foldl]. apply IH. by apply get_dataset_keeps.
Qed.
End Datasets.

Lemma get_dataset_cached_witness :
  let s'' :=
    foldl (λ st sp2,
             (get_dataset Inputs.build_numbered Inputs.build_numbered
                Inputs.build_numbered sp2 st).2)
      (DataModuleBase (Some 1%nat) None None, 1%nat) [Val; OtherSplit "dev"; Train] in
  get_dataset Inputs.build_numbered Inputs.build_numbered Inputs.build_numbered
    Train s''
  = (Ok (Some 1%nat), s'').
Proof.
  apply (get_dataset_cached Inputs.build_numbered Inputs.build_numbered
           Inputs.build_numbered Train (DataModuleBase None None None, 0%nat)).
  reflexivity.
Defined.

End DatasetFacts.

Module CollateErrorFacts.
Import Py PyFacts Torch DataModule CollateFacts.

Section Collate.
Context `{Elem T}.
Implicit Types (v w first : sample T) (data column : list (sample T))
  (items : list (string * sample T)).

Lemma mapM_raise {A B} (f : A → result B) e xs :
  Forall (λ x, ∀ e', f x = Raise e' → e' = e) xs →
  Exists (λ x, f x = Raise e) xs →
  mapM f xs = Raise e.
Proof.
  induction 1 as [|x xs Hx _ IH]; [by intros ?%Exists_nil|].
  intros Hex. rewrite mapM_cons. destruct (f x) as [y|e'] eqn:Hfx.
  - apply Exists_cons in Hex as [?|Hex]; [congruence|].
    cbv [mbind result_bind bind]. by rewrite IH.
  - cbv [mbind result_bind bind]. by rewrite (Hx e').
Qed.

Lemma mapM_not_ok {A B} (f : A → result B) xs x :
  x ∈ xs → is_ok (f x) = false → is_ok (mapM f xs) = false.
Proof.
  induction 1 as [x xs|x y xs _ IH]; intros Hx; rewrite mapM_cons.
  - by destruct (f x).
  - destruct (f y); [|done]. cbv [mbind result_bind bind].
    specialize (IH Hx). by destruct (mapM f xs).
Qed.

(** Whether the loop of [collate_fn] reaches the entry or not, an
    entry whose key an element of the batch cannot give makes it
    raise. *)
Lemma collate_entry_not_ok cf data k v d :
  d ∈ data → is_ok (sample_getitem k d) = false →
  is_ok (collate_entry cf data k v) = false.
Proof.
  intros Hd Hk. pose proof (mapM_not_ok (sample_getitem k) data d Hd Hk) as Hc.
  unfold collate_entry.
  destruct v; try done; by destruct (mapM (sample_getitem k) data).
Qed.

Lemma collate_items_not_ok cf data items k v d :
  (k, v) ∈ items → d ∈ data → is_ok (sample_getitem k d) = false →
  is_ok (collate_items cf data items) = false.
Proof.
  intros Hin Hd Hk. induction items as [|[k' v'] items IH]; [by apply elem_of_nil in Hin|].
  cbn [collate_items]. fold (collate_items cf data).
  cbv [mbind result_bind bind].
  apply elem_of_cons in Hin as [[= <- <-]|Hin].
  - pose proof (collate_entry_not_ok cf data k v d Hd Hk) as He.
    by destruct (collate_entry cf data k v).
  - destruct (collate_entry cf data k' v'); [|done].
    specialize (IH Hin). by destruct (collate_items cf data items).
Qed.

(** [collate_fn] never fills a gap: when the first element has a key
    that some element of the batch lacks (or an element is no dict),
    the call raises, whatever else the batch holds. *)
Theorem collate_fn_incomplete_element items rest k v d :
  (k, v) ∈ items → d ∈ rest → is_ok (sample_getitem k d) = false →
  ∃ e, collate_fn (VDict items :: rest) = Raise e.
Proof.
  intros Hin Hd Hk.
  pose proof (collate_items_not_ok collate_first (VDict items :: rest)
                items k v d Hin) as Hc.
  unfold collate_fn. cbn [collate_first]. cbv [fmap result_fmap].
  destruct (collate_items collate_first (VDict items :: rest) items) as [b|e].
  - discriminate Hc; [by right|done].
  - by exists e.
Qed.

(** When the key is the first one of the first element, the batch
    holds dicts only and the value is of an acceptable type, the
    exception is the KeyError of the missing key. *)
Theorem collate_fn_missing_key k v items rest :
  match v with VTensor _ | VStr _ | VDict _ => True | _ => False end →
  Forall (λ d, ∃ its, d = VDict its) rest →
  Exists (λ d, ∃ its, d = VDict its ∧ assoc its k = None) rest →
  collate_fn (VDict ((k, v) :: items) :: rest) = Raise (KeyError k).
Proof.
  intros Hv Hdicts Hmiss.
  assert (mapM (sample_getitem k) (VDict ((k, v) :: items) :: rest)
          = Raise (KeyError k)) as Hcol.
  { apply mapM_raise.
    - constructor.
      + cbn. unfold getitem_assoc. cbn. by rewrite decide_True.
      + eapply Forall_impl; [done|]. intros d [its ->] e'. cbn.
        unfold getitem_assoc. destruct (assoc its k); [done|]. by intros [= <-].
    - apply Exists_cons_tl. eapply Exists_impl; [done|].
      intros d (its & -> & Hnone). cbn. unfold getitem_assoc. by rewrite Hnone. }
  unfold collate_fn. cbn [collate_first collate_items].
  unfold collate_entry. rewrite Hcol. by destruct v.
Qed.

(** A tensor entry whose tensors do not all have the shape of the
    first is refused by [torch.stack]. *)
Theorem collate_fn_shape_mismatch k t items rest column tensors :
  mapM (sample_getitem k) rest = Ok column →
  mapM as_tensor column = Ok tensors →
  Exists (λ t', shape t' ≠ shape t) tensors →
  collate_fn (VDict ((k, VTensor t) :: items) :: rest) = Raise RuntimeError.
Proof.
  intros Hcol Hts Hex.
  assert (same_shape t tensors = false) as Hsame.
  { unfold same_shape. apply not_true_is_false. rewrite forallb_forall.
    intros Hall. apply Exists_exists in Hex as (t' & Hin & Hne).
    apply list_elem_of_In in Hin. apply Hall in Hin.
    by apply bool_decide_eq_true in Hin. }
  unfold collate_fn. cbn [collate_first collate_items].
  unfold collate_entry. rewrite mapM_cons. cbn [sample_getitem].
  unfold getitem_assoc at 1. cbn [assoc]. rewrite decide_True by done.
  rewrite Hcol. cbv [mbind result_bind bind].
  rewrite mapM_cons. cbn [as_tensor]. rewrite Hts.
  cbv [mbind result_bind bind]. unfold stack. by rewrite Hsame.
Qed.
End Collate.

Lemma collate_fn_incomplete_element_witness :
  ∃ e, collate_fn (VDict Inputs.item0 :: [VDict Inputs.item1; VDict Inputs.item_no_meta])
       = Raise e.
Proof.
  apply (collate_fn_incomplete_element Inputs.item0 _ "meta"
           (VDict [("depth", VTensor (Inputs.q 7))]) (VDict Inputs.item_no_meta)).
  - do 2 right. left.
  - right. left.
  - reflexivity.
Defined.

Lemma collate_fn_missing_key_witness :
  collate_fn (VDict Inputs.item0 :: [VDict Inputs.item1; VDict Inputs.item_no_image])
  = Raise (KeyError "image").
Proof.
  apply (collate_fn_missing_key "image" _ _
           [VDict Inputs.item1; VDict Inputs.item_no_image]).
  - exact I.
  - repeat constructor; by eexists.
  - right. left. by eexists.
Defined.

Lemma collate_fn_shape_mismatch_witness :
  collate_fn (VDict Inputs.item0 :: [VDict Inputs.item1; VDict Inputs.item_wide])
  = Raise RuntimeError.
Proof.
  apply (collate_fn_shape_mismatch "image" _ _
           [VDict Inputs.item1; VDict Inputs.item_wide]
           [VTensor (TStack [Inputs.q 3; Inputs.q 4]);
            VTensor (TStack [Inputs.q 1; Inputs.q 2; Inputs.q 3])]
           [TStack [Inputs.q 3; Inputs.q 4];
            TStack [Inputs.q 1; Inputs.q 2; Inputs.q 3]]).
  - reflexivity.
  - reflexivity.
  - right. left. cbn. discriminate.
Defined.

End CollateErrorFacts.

Module LoaderStreamFacts.
Import Py PyFacts Torch DataModule LoaderFacts.
#[local] Open Scope nat_scope.

Section Loader.
Context {I B : Type} (fetch : I → B).
Implicit Types (smp : sampler I) (st : repeat_state I) (xs : list I).

Lemma length_passes smp k a :
  (∀ e, sampler_iter smp e ≠ []) →
  a ≤ length (concat (sampler_iter smp <$> seq k a)).
Proof.
  intros Hne. revert k. induction a as [|a IH]; intros k; [simpl; lia|].
  cbn [seq fmap list_fmap concat]. rewrite length_app.
  specialize (IH (S k)). specialize (Hne k).
  destruct (sampler_iter smp k); [done|]. simpl. lia.
Qed.

Lemma upcoming_add smp st a c :
  upcoming smp st (a + c)
  = upcoming smp st a ++ concat (sampler_iter smp <$> seq (passes st + a) c).
Proof.
  unfold upcoming. by rewrite seq_app, fmap_app, concat_app, (assoc_L (++)).
Qed.

Lemma upcoming_take smp st m a b :
  (∀ e, sampler_iter smp e ≠ []) → m ≤ a → m ≤ b →
  take m (upcoming smp st a) = take m (upcoming smp st b).
Proof.
  intros Hne Ha Hb.
  assert (∀ a c, m ≤ a →
            take m (upcoming smp st (a + c)) = take m (upcoming smp st a)) as Hadd.
  { intros a' c Ha'. rewrite upcoming_add. apply take_app_le.
    unfold upcoming. rewrite length_app.
    pose proof (length_passes smp (passes st) a' Hne). lia. }
  replace a with (m + (a - m)) by lia. replace b with (m + (b - m)) by lia.
  by rewrite !Hadd.
Qed.

Lemma upcoming_cons smp k x xs a :
  upcoming smp (RepeatState k (x :: xs)) a = x :: upcoming smp (RepeatState k xs) a.
Proof. done. Qed.

Lemma upcoming_next_pass smp k a :
  upcoming smp (RepeatState k []) (S a)
  = upcoming smp (RepeatState (S k) (sampler_iter smp k)) a.
Proof. done. Qed.

(** Taking [m] batches takes the next [m] indices, and leaves the
    iterator at the ones that follow. *)
Lemma take_batches_upcoming smp m :
  (∀ e, sampler_iter smp e ≠ []) →
  ∀ st, ∃ st',
    take_batches fetch 1 smp m st
    = Some (Ok (fetch <$> take m (upcoming smp st m)), st')
    ∧ ∀ j, take j (upcoming smp st' j)
           = take j (drop m (upcoming smp st (m + j))).
Proof.
  intros Hne. induction m as [|m IH]; intros st.
  { exists st. split; [done|]. intros j. by rewrite drop_0. }
  destruct st as [k [|x xs]].
  - cbn [take_batches]. unfold loader_next.
    cbn [repeat_next remaining passes].
    destruct (sampler_iter smp k) as [|x xs] eqn:Hpass; [by destruct (Hne k)|].
    destruct (IH (RepeatState (S k) xs)) as (st' & -> & Hst').
    exists st'. split.
    + rewrite upcoming_next_pass, Hpass, upcoming_cons. done.
    + intros j. rewrite Hst'. cbn [Nat.add].
      by rewrite upcoming_next_pass, Hpass, upcoming_cons.
  - cbn [take_batches]. unfold loader_next.
    cbn [repeat_next remaining passes].
    destruct (IH (RepeatState k xs)) as (st' & -> & Hst').
    exists st'. split.
    + rewrite upcoming_cons. cbn [take]. rewrite fmap_cons.
      by rewrite (upcoming_take smp (RepeatState k xs) m (S m) m) by (done || lia).
    + intros j. rewrite Hst'. cbn [Nat.add]. rewrite upcoming_cons.
      cbn [drop]. rewrite !take_drop_commute.
      by rewrite (upcoming_take smp (RepeatState k xs) (m + j) (S (m + j)) (m + j))
        by (done || lia).
Qed.

Lemma loader_epochs_upcoming smp n :
  (∀ e, sampler_iter smp e ≠ []) →
  ∀ st, ∃ bss st',
    loader_epochs fetch 1 n (InfiniteLoader smp st)
    = Some (Ok bss, InfiniteLoader smp st')
    ∧ length bss = n
    ∧ Forall (λ bs, length bs = sampler_len smp) bss
    ∧ concat bss
      = fetch <$> take (n * sampler_len smp)
                    (upcoming smp st (n * sampler_len smp)).
Proof.
  intros Hne. induction n as [|n IH]; intros st.
  { exists [], st. by split_and!. }
  cbn [loader_epochs]. unfold loader_iter, loader_len.
  cbn [batch_sampler iterator].
  destruct (take_batches_upcoming smp (sampler_len smp) Hne st)
    as (st1 & -> & Hst1).
  destruct (IH st1) as (bss & st' & -> & Hn & Hlen & Hcat).
  eexists _, st'. split; [done|]. split; [by rewrite <-Hn|]. split.
  - constructor; [|done]. rewrite length_fmap, length_take_le; [done|].
    unfold upcoming. rewrite length_app.
    pose proof (length_passes smp (passes st) (sampler_len smp) Hne). lia.
  - cbn [concat]. rewrite Hcat, Hst1, <-fmap_app. f_equal.
    cbn [Nat.mul].
    rewrite (upcoming_take smp st (sampler_len smp) (sampler_len smp)
               (sampler_len smp + n * sampler_len smp)) by (done || lia).
    apply take_take_drop.
Qed.

(** Whatever the lengths of the passes of the batch sampler (none of
    them empty): every iteration of the loader yields [len(loader)]
    batches, and the iterations together yield the batches of the
    passes in one unbroken sequence, each iteration going on where the
    one before stopped. *)
Theorem infinite_loader_continues smp n :
  (∀ e, sampler_iter smp e ≠ []) →
  let total := n * loader_len (InfiniteDataLoaderX smp) in
  ∃ bss loader',
    loader_epochs fetch 1 n (InfiniteDataLoaderX smp) = Some (Ok bss, loader')
    ∧ length bss = n
    ∧ Forall (λ bs, length bs = loader_len (InfiniteDataLoaderX smp)) bss
    ∧ concat bss
      = fetch <$> take total (concat (sampler_iter smp <$> seq 0 total)).
Proof.
  intros Hne total.
  destruct (loader_epochs_upcoming smp n Hne (RepeatState 0 []))
    as (bss & st' & Hrun & Hn & Hlen & Hcat).
  by exists bss, (InfiniteLoader smp st').
Qed.

Lemma repeat_next_empty smp fuel :
  (∀ e, sampler_iter smp e = []) →
  ∀ k, repeat_next fuel smp (RepeatState k []) = NoAnswer.
Proof.
  intros Hempty. induction fuel as [|fuel IH]; intros k; [done|].
  cbn [repeat_next remaining passes]. rewrite Hempty. apply IH.
Qed.

(** Over a batch sampler whose passes are all empty the repeating
    sampler spins without ever yielding: [next] does not come back,
    however long one waits, and neither does an iteration of a loader
    whose [len] is not zero. *)
Theorem infinite_loader_empty_sampler smp fuel :
  (∀ e, sampler_iter smp e = []) →
  (∀ k, repeat_next fuel smp (RepeatState k []) = NoAnswer)
  ∧ ((0 < sampler_len smp) →
     loader_iter fetch fuel (InfiniteDataLoaderX smp) = None)
  ∧ (sampler_len smp = 0 →
     loader_iter fetch fuel (InfiniteDataLoaderX smp)
     = Some (Ok [], InfiniteDataLoaderX smp)).
Proof.
  intros Hempty. split_and!.
  - by apply repeat_next_empty.
  - intros Hpos. unfold loader_iter, loader_len.
    cbn [InfiniteDataLoaderX batch_sampler iterator].
    destruct (sampler_len smp) as [|n]; [lia|].
    cbn [take_batches]. unfold loader_next.
    by rewrite repeat_next_empty.
  - intros Hlen. unfold loader_iter, loader_len.
    cbn [InfiniteDataLoaderX batch_sampler iterator]. by rewrite Hlen.
Qed.
End Loader.

Lemma infinite_loader_continues_witness :
  ∃ bss loader',
    loader_epochs Inputs.fetch_batch 1 3 (InfiniteDataLoaderX Inputs.three_per_pass)
    = Some (Ok bss, loader')
    ∧ length bss = 3
    ∧ Forall (λ bs, length bs = 2) bss
    ∧ concat bss = [[0]; [1]; [2]; [10]; [11]; [12]].
Proof.
  apply (infinite_loader_continues Inputs.fetch_batch Inputs.three_per_pass 3).
  intros e. discriminate.
Defined.

Lemma infinite_loader_empty_sampler_witness :
  (∀ k, repeat_next 1000 Inputs.empty_passes (RepeatState k []) = NoAnswer)
  ∧ (0 < 2 →
     loader_iter Inputs.fetch_batch 1000 (InfiniteDataLoaderX Inputs.empty_passes)
     = None)
  ∧ (2 = 0 →
     loader_iter Inputs.fetch_batch 1000 (InfiniteDataLoaderX Inputs.empty_passes)
     = Some (Ok [], InfiniteDataLoaderX Inputs.empty_passes)).
Proof.
  apply (infinite_loader_empty_sampler Inputs.fetch_batch Inputs.empty_passes 1000).
  reflexivity.
Defined.

End LoaderStreamFacts.

Module OptimizerFacts.
Import Py PyFacts OptimizerMisc.

Lemma prefix_char c name :
  String.prefix (String c EmptyString) name
  = match name with
    | EmptyString => false
    | String b _ => bool_decide (c = b)
    end.
Proof.
  destruct name as [|b rest]; [done|]. cbn.
  destruct (ascii_dec c b) as [->|Hne].
  - rewrite bool_decide_true by done. by destruct rest.
  - by rewrite bool_decide_false.
Qed.

Lemma str_in_char c name :
  str_in (String c EmptyString) name = true ↔ c ∈ String.list_ascii_of_string name.
Proof.
  induction name as [|b rest IH].
  - cbn. split; [done|]. by intros ?%elem_of_nil.
  - cbn [str_in String.list_ascii_of_string]. rewrite prefix_char.
    case_bool_decide as Hc.
    + subst. split; [left|done].
    + rewrite IH, elem_of_cons. split; [by right|]. by intros [?|?].
Qed.

Lemma match_name_keywords_spec name keywords :
  match_name_keywords name keywords = true
  ↔ ∃ keyword, keyword ∈ keywords ∧ str_in keyword name = true.
Proof.
  induction keywords as [|k ks IH]; cbn.
  - split; [done|]. by intros (? & ?%elem_of_nil & _).
  - destruct (str_in k name) eqn:Hk.
    + split; [|done]. intros _. exists k. split; [left|done].
    + rewrite IH. split.
      * intros (k' & ? & ?). exists k'. split; [by right|done].
      * intros (k' & [->|?]%elem_of_cons & ?); [congruence|by exists k'].
  Qed.

(** The keywords are given as the one string ['backbone'], and the loop
    runs through its characters: a name matches as soon as it has one of
    the letters of the word, whether or not the word occurs in it. *)
Lemma match_name_keywords_letters name :
  match_name_keywords name (iter_str "backbone") = true
  ↔ ∃ c, c ∈ String.list_ascii_of_string "backbone" ∧ c ∈ String.list_ascii_of_string name.
Proof.
  rewrite match_name_keywords_spec. unfold iter_str. split.
  - intros (k & (c & -> & Hc)%list_elem_of_fmap & Hin).
    exists c. split; [done|]. by apply str_in_char.
  - intros (c & Hc & Hin). exists (String c EmptyString). split.
    + apply list_elem_of_fmap. by exists c.
    + by apply str_in_char.
Qed.

Section Groups.
Context {P V : Type} (requires_grad : P → bool).

Lemma filter_split {A} (f g : A → bool) (l : list A) :
  List.filter (λ x, negb (f x) && g x) l ++ List.filter (λ x, f x && g x) l
  ≡ₚ List.filter g l.
Proof.
  induction l as [|x l IH]; [done|]. cbn.
  destruct (f x), (g x); cbn; [|done| |done].
  - rewrite <-Permutation_middle. by constructor.
  - by constructor.
Qed.

(** With learning-rate groups, the two groups hold the parameters that
    require a gradient, each of them once: the second those whose name
    has a letter of the word backbone, the first the others. *)
Theorem get_param_dicts_partition (cfg_trainer : trainer_cfg V) groups
    lr_main lr_backbone (named_parameters : list (string * P)) :
  lr cfg_trainer = None → lr_groups cfg_trainer = Some groups →
  main groups = Some lr_main → backbone groups = Some lr_backbone →
  ∃ params_main params_backbone,
    get_param_dicts_with_specific_lr requires_grad cfg_trainer named_parameters
    = Ok [ParamDict params_main lr_main; ParamDict params_backbone lr_backbone]
    ∧ params_main ++ params_backbone
      ≡ₚ (List.filter (λ np, requires_grad np.2) named_parameters).*2
    ∧ (∀ p, p ∈ params_main ↔
         ∃ n, (n, p) ∈ named_parameters ∧ requires_grad p = true
              ∧ ∀ c, c ∈ String.list_ascii_of_string "backbone" →
                     c ∉ String.list_ascii_of_string n).
Proof.
  intros Hlr Hgroups Hmain Hbackbone.
  unfold get_param_dicts_with_specific_lr.
  rewrite Hlr, Hgroups, Hmain, Hbackbone. cbn.
  eexists _, _. split; [done|]. split.
  - rewrite <-fmap_app.
    apply fmap_Permutation.
    rewrite <-(filter_split (λ np, match_name_keywords np.1 (iter_str "backbone"))
                 (λ np, requires_grad np.2)).
    rewrite (filter_ext _ (λ np, negb (match_name_keywords np.1 (iter_str "backbone"))
                                 && requires_grad np.2)) by (by intros [n p]).
    by rewrite (filter_ext (λ '(n, p), match_name_keywords n (iter_str "backbone")
                                       && requires_grad p)
                  (λ np, match_name_keywords np.1 (iter_str "backbone")
                         && requires_grad np.2)) by (by intros [n p]).
  - intros p. rewrite list_elem_of_fmap. split.
    + intros ([n p'] & -> & Hin). apply list_elem_of_In, filter_In in Hin as [Hin Hf].
      apply andb_true_iff in Hf as [Hm Hg]. apply negb_true_iff in Hm.
      exists n. split_and!; [by apply list_elem_of_In|done|].
      intros c Hc Hn. apply not_true_iff_false in Hm. apply Hm.
      apply match_name_keywords_letters. by exists c.
    + intros (n & Hin & Hg & Hletters). exists (n, p). split; [done|].
      apply list_elem_of_In, filter_In. split; [by apply list_elem_of_In|].
      apply andb_true_iff. split; [|done]. apply negb_true_iff.
      apply not_true_iff_false. intros (c & Hc & Hn)%match_name_keywords_letters.
      by apply (Hletters c).
Qed.
End Groups.

Lemma get_param_dicts_partition_witness :
  ∃ params_main params_backbone,
    get_param_dicts_with_specific_lr Inputs.trainable Inputs.grouped_lr
      Inputs.named_parameters
    = Ok [ParamDict params_main 10; ParamDict params_backbone 1]
    ∧ params_main ++ params_backbone
      ≡ₚ (List.filter (λ np, Inputs.trainable np.2) Inputs.named_parameters).*2
    ∧ (∀ p, p ∈ params_main ↔
         ∃ n, (n, p) ∈ Inputs.named_parameters ∧ Inputs.trainable p = true
              ∧ ∀ c, c ∈ String.list_ascii_of_string "backbone" →
                     c ∉ String.list_ascii_of_string n).
Proof.
  apply (get_param_dicts_partition Inputs.trainable Inputs.grouped_lr
           (LrGroups (Some 10) (Some 1)));
    reflexivity.
Defined.

End OptimizerFacts.

Module TesterFacts.
Import Py PyFacts DistMisc TrainerMisc TesterMisc.

Section Tester.
Context {SD MV : Type}.
Context (format : ckpt_value SD MV → string).
Implicit Types (ts : trainer_status SD MV) (t : tester SD MV).

(** [load_model] on a checkpoint as [save_checkpoint] writes it, best
    or last: the model state comes back and the epoch is shown, but the
    best metrics never are, because the checkpoint keeps them under
    ['best_metrics'] and [load_model] asks for ['best_metric']; the
    last metrics are shown for a last checkpoint, which has them under
    ['last_metric'], and not for a best one. *)
Theorem load_model_after_save d c ts t path (last : bool) :
  let ck := if last then save_files_last c ts else save_files_best ts in
  tester_files t !! path = Some ck →
  ck !! "best_metrics" = Some (CMetrics (best_metrics ts))
  ∧ load_model format d path t
    = (Ok (),
       Tester (model_without_ddp ts)
         (wandb_run_tags t
          ++ if is_main_process d
             then ["Epoch: " +:+ format (CInt (epoch ts))] else [])
         (stdout t
          ++ [PrintPath path; PrintValue "best_trainer_metric" (CMetrics ∅)]
          ++ (if is_main_process d
              then [PrintValue "Epoch:" (CInt (epoch ts))] else [])
          ++ [PrintValue "last_trainer_metric"
                (if last then CMetrics (metrics ts) else CMetrics ∅)])
         (tester_files t)).
Proof.
  intros ck Hfile.
  assert (ck !! "model" = Some (CState (model_without_ddp ts))
          ∧ ck !! "best_metric" = None
          ∧ ck !! "best_metrics" = Some (CMetrics (best_metrics ts))
          ∧ ck !! "epoch" = Some (CInt (epoch ts))
          ∧ get_or_empty ck "last_metric"
            = if last then CMetrics (metrics ts) else CMetrics ∅)
    as (Hmodel & Hbest & Hbests & Hepoch & Hlast).
  { unfold ck, get_or_empty, save_files_last, save_files_best.
    destruct last; [|by simplify_map_eq].
    destruct (env_amp c && truthy (env_device c)); by simplify_map_eq. }
  split; [done|].
  unfold load_model, torch_load_checkpoint, print. run_stateful.
  rewrite Hfile. unfold getitem. rewrite Hmodel. cbn.
  unfold get_or_empty at 1. rewrite Hbest, Hepoch, Hlast. cbn.
  destruct (is_main_process d); cbn;
    by rewrite ?app_nil_r, <-?(assoc_L (++)).
Qed.
End Tester.

Lemma load_model_after_save_witness :
  save_files_last Inputs.train_cfg
    (set_best_metrics {["acc" := 95]} (Inputs.status_epoch 1 90)) !! "best_metrics"
  = Some (CMetrics {["acc" := 95]})
  ∧ load_model Inputs.format_int Inputs.no_dist "checkpoint_last_epoch_1.pth"
      Inputs.tester_before
    = (Ok (),
       Tester 11 ["Epoch: " +:+ Inputs.format_int (CInt 1)]
         [PrintPath "checkpoint_last_epoch_1.pth";
          PrintValue "best_trainer_metric" (CMetrics ∅);
          PrintValue "Epoch:" (CInt 1);
          PrintValue "last_trainer_metric" (CMetrics {["acc" := 90]})]
         (tester_files Inputs.tester_before)).
Proof.
  exact (load_model_after_save Inputs.format_int Inputs.no_dist Inputs.train_cfg
           (set_best_metrics {["acc" := 95]} (Inputs.status_epoch 1 90))
           Inputs.tester_before
           "checkpoint_last_epoch_1.pth" true eq_refl).
Defined.

End TesterFacts.

